(** * Chain desktop wallet: price resolution and Ledger address derivation

    A shallow embedding of two pieces of the wallet:

    - [CroMarketApi] (service/rpc/MarketApi): [getAssetPrice],
      [getTokenPrices], [getTokenSlug], [getTokenPriceFromCryptoCom],
      [getCryptoToFiatRateFromCoinbase], [loadTokenSlugMap], with the
      module-level [TokenSlugMap] cache and the instance's slug directory,
      and the constructor of the exported instance;
    - [onWalletCreateFinishCore] of pages/create/create.tsx: the Ledger
      branch that derives the Crypto.org, EVM and Cosmos Hub addresses,
      and the two handlers that start it, [onWalletCreateFinish] and
      [checkIsLedgerCroAppConnected].

    Asynchronous code is written in a state-and-exception monad: the state
    carries the mutable stores of the program and a log of the calls it
    makes to its collaborators (network, device, UI, storage); the answers
    of the collaborators are oracles of the enclosing section.

    Modelling choices.  An [async] function runs from its call to its
    return: what other calls in flight would do to the shared stores at
    its [await]s is not modelled, except for the modal handlers that
    clear [waitFlag], which may run at every [await] of the page, and for
    the order in which concurrent token requests complete, which the
    network chooses.  Loads of the slug directory that overlap, the one
    the constructor starts without awaiting it among them, are modelled
    apart ([MarketApiOverlap]): there [loadTokenSlugMap] is split at its
    [await] and the parts run in any order.  A timer is asked for a
    duration and fires no earlier; how long it takes is a parameter
    ([elapsed]).  Strings are sequences of bytes, numbers of the feeds
    are kept as their JSON literals, and double-precision arithmetic is a
    parameter ([JsRuntime]). *)

From Stdlib Require Import ZArith Ascii String List Bool Lia.
From stdpp Require Import base tactics option list gmap strings.

Import ListNotations.
Local Open Scope string_scope.
Local Open Scope list_scope.

(** ** JavaScript values and errors *)

(** What a [throw] carries.  [Error_] and [TypeError_] are the two
    constructors the sources throw themselves; [Rejected] is a rejection
    coming from a collaborator (axios, the Ledger transport, storage). *)
Inductive JsError : Type :=
| Error_ (msg : string)
| TypeError_ (msg : string)
| Rejected (msg : string).

Inductive Result (A : Type) : Type :=
| Ok (a : A)
| Throw (e : JsError).
Arguments Ok {A} a.
Arguments Throw {A} e.

(** ** The monad of asynchronous code

    [M S A] is a computation over the mutable state [S] that returns an [A]
    or throws.  A throw keeps the state reached so far: mutations done
    before an exception are not undone. *)
Definition M (S A : Type) : Type := S -> Result A * S.

Definition ret {S A} (a : A) : M S A := fun s => (Ok a, s).

Definition throw {S A} (e : JsError) : M S A := fun s => (Throw e, s).

Definition bind {S A B} (m : M S A) (k : A -> M S B) : M S B :=
  fun s => match m s with
           | (Ok a, s') => k a s'
           | (Throw e, s') => (Throw e, s')
           end.

(** [try { m } catch (e) { h e }] *)
Definition try_catch {S A} (m : M S A) (h : JsError -> M S A) : M S A :=
  fun s => match m s with
           | (Ok a, s') => (Ok a, s')
           | (Throw e, s') => h e s'
           end.

Definition get {S} : M S S := fun s => (Ok s, s).
Definition modify {S} (f : S -> S) : M S unit := fun s => (Ok tt, f s).

(** Lifts an already settled promise. *)
Definition settle {S A} (r : Result A) : M S A := fun s => (r, s).

(** Runs the monad's combinators in the goal and the hypotheses. *)
Ltac run := unfold bind, ret, throw, get, modify, settle, try_catch in *; simpl in *.

Declare Scope js_scope.
Delimit Scope js_scope with js.
Notation "'let!' x ':=' m 'in' k" := (bind m (fun x => k))
  (at level 10, x name, m at level 100, k at level 200) : js_scope.
Notation "m ';;;' k" := (bind m (fun _ => k))
  (at level 100, k at level 200, right associativity) : js_scope.
Local Open Scope js_scope.

(** ** Assets (models/UserAsset) *)

Inductive UserAssetType : Type :=
| TENDERMINT | IBC | EVM | CRC_20_TOKEN | ERC_20_TOKEN.

Inductive SupportedChainName : Type :=
| CRYPTO_ORG | CRONOS | ETHEREUM | COSMOS_HUB.

Global Instance UserAssetType_eq_dec : EqDecision UserAssetType.
Proof. solve_decision. Defined.
Global Instance SupportedChainName_eq_dec : EqDecision SupportedChainName.
Proof. solve_decision. Defined.

(** The fields of [UserAsset] the two components read or write.
    [chainName] stands for [asset.config?.tendermintNetwork?.chainName]:
    it is [None] when a link of the optional chain is missing. *)
Record UserAsset : Type := mkAsset {
  identifier : string;
  symbol : string;
  mainnetSymbol : string;
  assetType : UserAssetType;
  address : option string;
  chainName : option SupportedChainName
}.

(** JSON scalars of the feeds.  A number is kept as its literal. *)
Inductive JsScalar : Type :=
| JStr (s : string)
| JNum (literal : string)
| JNull.

(** [AssetMarketPrice] *)
Record AssetMarketPrice : Type := mkPrice {
  assetSymbol : string;
  currency : string;
  dailyChange : string;
  price : string;
  priceAssetType : UserAssetType
}.

(** ** CroMarketApi *)
Module MarketApi.

(** Entries of [GET /all-tokens]. *)
Record CryptoComSlugResponse : Type := mkSlugInfo {
  si_slug : string;
  si_symbol : string
}.

(** Body of [GET /tokens/{slug}]; [tags] may be absent. *)
Record CryptoTokenPriceAPIResponse : Type := mkTokenPrice {
  slug : string;
  tp_symbol : string;
  usd_price : JsScalar;
  usd_price_change_24h : JsScalar;
  tags : option (list string)
}.

(** Body of [GET /{interval}/{slug}/]; [prices] is [None] when the field
    is falsy. *)
Record CryptoTokenPricesResponse : Type := mkTokenPrices {
  prices : option (list JsScalar)
}.

(** Body of the Coinbase [GET /exchange-rates]: [data.currency] and
    [data.rates]. *)
Record CoinbaseResponse : Type := mkCoinbase {
  cb_currency : string;
  cb_rates : gmap string JsScalar
}.

Record AxiosResponse (A : Type) : Type := mkResp {
  status : nat;
  data : A
}.
Arguments mkResp {A} status data.
Arguments status {A} _.
Arguments data {A} _.

(** Requests the class sends, as logged in the state. *)
Inductive Request : Type :=
| ReqAllTokens
| ReqToken (slug : string)
| ReqExchangeRates (currency : string)
| ReqPrices (interval slug convert : string).

Definition is_exchange_rate_request (r : Request) : bool :=
  match r with ReqExchangeRates _ => true | _ => false end.

(** The mutable stores: the module-level [TokenSlugMap], the instance field
    [tokenSlugMap] ([None] for null/undefined) and the log of requests
    issued so far, oldest first. *)
Record ApiState : Type := mkApi {
  TokenSlugMap : gmap string string;
  tokenSlugMap : option (list CryptoComSlugResponse);
  requests : list Request
}.

Definition initial : ApiState :=
  {| TokenSlugMap := ∅; tokenSlugMap := None; requests := [] |}.

(** The outside world.  Every oracle takes the number of requests issued
    before the one it answers, so that a feed may answer the same request
    differently over time.  [Throw] is a rejected axios promise (network
    failure, or a status axios itself refuses).  [net_latency] orders the
    completion of requests that are in flight together. *)
Record Net : Type := mkNet {
  net_allTokens : nat -> Result (AxiosResponse (list CryptoComSlugResponse));
  net_token : nat -> string -> Result (AxiosResponse CryptoTokenPriceAPIResponse);
  net_exchangeRates : nat -> string -> Result (AxiosResponse (option CoinbaseResponse));
  net_prices : nat -> string -> string -> string ->
               Result (AxiosResponse (option CryptoTokenPricesResponse));
  net_latency : nat -> nat
}.

(** The double-precision arithmetic of the runtime: [Number] on a string,
    [*] and [String] on a number. *)
Record JsRuntime : Type := mkRuntime {
  JsNumber : Type;
  Number_of_string : string -> JsNumber;
  js_mul : JsNumber -> JsNumber -> JsNumber;
  String_of_number : JsNumber -> string
}.

(** The keys of [CRC20MainnetTokenInfos] and [ERC20MainnetTokenInfos]
    (config/CRC20Tokens, config/ERC20Tokens). *)
Record TokenConfig : Type := mkConfig {
  CRC20MainnetTokenInfos_keys : list string;
  ERC20MainnetTokenInfos_keys : list string
}.

Definition upper_ascii (c : ascii) : ascii :=
  let n := nat_of_ascii c in
  if (97 <=? n)%nat && (n <=? 122)%nat then ascii_of_nat (n - 32) else c.

(** [String.prototype.toUpperCase] on ASCII text. *)
Fixpoint toUpperCase (s : string) : string :=
  match s with
  | EmptyString => EmptyString
  | String c r => String (upper_ascii c) (toUpperCase r)
  end.

(** [Array.prototype.includes] *)
Definition includes {A} `{EqDecision A} (l : list A) (x : A) : bool :=
  bool_decide (x ∈ l).

Definition nativeTokenSlug : list string :=
  ["crypto-com-coin"; "ethereum"; "cosmos"].

(** Stable insertion by completion time: the order in which the callbacks
    of [Promise.all(tokenSlugInfo.map(async ...))] push their response. *)
Fixpoint insert_by_time {A} (t : nat) (a : A) (l : list (nat * A)) : list (nat * A) :=
  match l with
  | [] => [(t, a)]
  | (t', a') :: r =>
      if (t <? t')%nat then (t, a) :: l else (t', a') :: insert_by_time t a r
  end.

Definition completion_order {A} (l : list (nat * A)) : list A :=
  map snd (fold_left (fun acc p => insert_by_time (fst p) (snd p) acc) l []).

(** The first rejection of a list of settled promises, else all values. *)
Fixpoint all_settled {A} (l : list (Result A)) : Result (list A) :=
  match l with
  | [] => Ok []
  | Throw e :: _ => Throw e
  | Ok a :: r =>
      match all_settled r with
      | Ok v => Ok (a :: v)
      | Throw e => Throw e
      end
  end.

Section Api.
Context (cfg : TokenConfig) (js : JsRuntime) (net : Net).

Abbreviation ApiM := (M ApiState).

Definition log (r : Request) : ApiM nat :=
  fun s => (Ok (length (requests s)),
            {| TokenSlugMap := TokenSlugMap s;
               tokenSlugMap := tokenSlugMap s;
               requests := requests s ++ [r] |}).

(** [Number(v)] and [String(v)] on a JSON scalar. *)
Definition Number (v : JsScalar) : JsNumber js :=
  match v with
  | JStr s => Number_of_string js s
  | JNum lit => Number_of_string js lit
  | JNull => Number_of_string js "0"
  end.

Definition String_ (v : JsScalar) : string :=
  match v with
  | JStr s => s
  | JNum lit => String_of_number js (Number_of_string js lit)
  | JNull => "null"
  end.

(** [loadTokenSlugMap] *)
Definition loadTokenSlugMap : ApiM (list CryptoComSlugResponse) :=
  let! s := get in
  match tokenSlugMap s with
  | Some ((_ :: _) as m) => ret m
  | _ =>
      let! n := log ReqAllTokens in
      let! allTokensSlugMap := settle (net_allTokens net n) in
      if negb (status allTokensSlugMap =? 200)%nat
         || (length (data allTokensSlugMap) <? 1)%nat
      then throw (Error_ "Could not fetch Token Slug list.")
      else
        modify (fun s => {| TokenSlugMap := TokenSlugMap s;
                            tokenSlugMap := Some (data allTokensSlugMap);
                            requests := requests s |}) ;;;
        ret (data allTokensSlugMap)
  end.

(** The requests of [tokenSlugInfo.map(async slugInfo => await axios(...))]
    are all issued, in the order of [tokenSlugInfo], before any of them
    completes. *)
Fixpoint issueTokenRequests (l : list CryptoComSlugResponse)
  : ApiM (list (nat * Result (AxiosResponse CryptoTokenPriceAPIResponse))) :=
  match l with
  | [] => ret []
  | slugInfo :: r =>
      let! n := log (ReqToken (si_slug slugInfo)) in
      let! rest := issueTokenRequests r in
      ret ((net_latency net n, net_token net n (si_slug slugInfo)) :: rest)
  end.

(** [await Promise.all(...)]: the responses in the order in which they
    were pushed, or the earliest rejection. *)
Definition fetchTokenPrices (tokenSlugInfo : list CryptoComSlugResponse)
  : ApiM (list (AxiosResponse CryptoTokenPriceAPIResponse)) :=
  let! inflight := issueTokenRequests tokenSlugInfo in
  settle (all_settled (completion_order inflight)).

(** [token.tags = token.tags ?? []] *)
Definition tags_or_empty (token : CryptoTokenPriceAPIResponse) : list string :=
  match tags token with Some t => t | None => [] end.

(** The predicate of [tokenPriceResponses.find] in [getTokenSlug] and in
    [getTokenPriceFromCryptoCom]. *)
Definition supported (asset : UserAsset) (token : CryptoTokenPriceAPIResponse) : bool :=
  includes nativeTokenSlug (slug token)
  || (bool_decide (assetType asset = CRC_20_TOKEN)
      && includes (CRC20MainnetTokenInfos_keys cfg) (tp_symbol token))
  || (bool_decide (assetType asset = CRC_20_TOKEN)
      && includes (tags_or_empty token) "cronos-ecosystem")
  || (bool_decide (assetType asset = ERC_20_TOKEN)
      && includes (ERC20MainnetTokenInfos_keys cfg) (toUpperCase (tp_symbol token))).

Definition candidates (asset : UserAsset) (allTokensSlugMap : list CryptoComSlugResponse)
  : list CryptoComSlugResponse :=
  filter (fun tokenSlug => si_symbol tokenSlug = mainnetSymbol asset) allTokensSlugMap.

(** [getTokenSlug]; [None] is the [null] result.  The test
    [!tokenSlugInfo] of the source is on an array, which is never falsy, so
    that its [throw] is dead code; the same holds in
    [getTokenPriceFromCryptoCom]. *)
Definition getTokenSlug (asset : UserAsset) : ApiM (option string) :=
  let! s := get in
  match TokenSlugMap s !! identifier asset with
  | Some ((String _ _) as cachedSlug) => ret (Some cachedSlug)
  | _ =>
      let! allTokensSlugMap := loadTokenSlugMap in
      let tokenSlugInfo := candidates asset allTokensSlugMap in
      let! responses := fetchTokenPrices tokenSlugInfo in
      let tokenPriceResponses := map data responses in
      match List.find (supported asset) tokenPriceResponses with
      | Some tokenPriceInUSD =>
          match slug tokenPriceInUSD with
          | EmptyString => ret None
          | found =>
              modify (fun s => {| TokenSlugMap := <[identifier asset := found]> (TokenSlugMap s);
                                  tokenSlugMap := tokenSlugMap s;
                                  requests := requests s |}) ;;;
              ret (Some found)
          end
      | None => ret None
      end
  end.

(** [getCryptoToFiatRateFromCoinbase]; the body of the response is [None]
    when [fiatRateResp.data] is falsy. *)
Definition getCryptoToFiatRateFromCoinbase (cryptoSymbol fiatCurrency : string)
  : ApiM JsScalar :=
  let! n := log (ReqExchangeRates cryptoSymbol) in
  let! fiatRateResp := settle (net_exchangeRates net n cryptoSymbol) in
  if negb (status fiatRateResp =? 200)%nat
  then throw (Error_ "Could not find requested market price info from Coinbase")
  else
    match data fiatRateResp with
    | Some body =>
        if bool_decide (cb_currency body = cryptoSymbol) then
          match cb_rates body !! fiatCurrency with
          | Some rate => ret rate
          | None => throw (TypeError_ "Could not find requested market price info from Coinbase")
          end
        else throw (TypeError_ "Could not find requested market price info from Coinbase")
    | None => throw (TypeError_ "Could not find requested market price info from Coinbase")
    end.

(** [getFiatToFiatRate] *)
Definition getFiatToFiatRate (fromFiatSymbol toFiatSymbol : string) : ApiM JsScalar :=
  getCryptoToFiatRateFromCoinbase fromFiatSymbol toFiatSymbol.

(** [getTokenPriceFromCryptoCom]; the result is the pair
    [(dailyChange, fiatPrice)]. *)
Definition getTokenPriceFromCryptoCom (asset : UserAsset) (fiatCurrency : string)
  : ApiM (string * string) :=
  let! allTokensSlugMap := loadTokenSlugMap in
  let tokenSlugInfo := candidates asset allTokensSlugMap in
  let! tokenPriceResponses := fetchTokenPrices tokenSlugInfo in
  match List.find (fun token => supported asset (data token)) tokenPriceResponses with
  | None => throw (Error_ ("Couldn't find a valid slug name for " ++ mainnetSymbol asset))
  | Some tokenPriceInUSD =>
      if negb (status tokenPriceInUSD =? 200)%nat
      then throw (Error_ "Could not fetch token price.")
      else
        let! usdToFiatRate :=
          (if bool_decide (fiatCurrency = "USD") then ret (JStr "1")
           else getFiatToFiatRate "USD" fiatCurrency) in
        let tokenPriceInFiat :=
          js_mul js (Number (usd_price (data tokenPriceInUSD))) (Number usdToFiatRate) in
        ret (String_ (usd_price_change_24h (data tokenPriceInUSD)),
             String_of_number js tokenPriceInFiat)
  end.

Definition emptyPrice (asset : UserAsset) (currency : string) : AssetMarketPrice :=
  {| assetSymbol := mainnetSymbol asset;
     currency := currency;
     dailyChange := "";
     price := "";
     priceAssetType := assetType asset |}.

(** [getAssetPrice] *)
Definition getAssetPrice (asset : UserAsset) (currency : string) : ApiM AssetMarketPrice :=
  try_catch
    (let! tokenPrice := getTokenPriceFromCryptoCom asset currency in
     ret {| assetSymbol := mainnetSymbol asset;
            currency := currency;
            dailyChange := fst tokenPrice;
            price := snd tokenPrice;
            priceAssetType := assetType asset |})
    (fun _ => ret (emptyPrice asset currency)).

(** [getTokenPrices]; the body of the response is [None] when
    [response.data] is falsy. *)
Definition getTokenPrices (asset : UserAsset) (fiatCurrency interval : string)
  : ApiM CryptoTokenPricesResponse :=
  let! found := getTokenSlug asset in
  match found with
  | None => throw (Error_ ("Couldn't find a valid slug name for " ++ symbol asset))
  | Some slug =>
      let! n := log (ReqPrices interval slug fiatCurrency) in
      let! response := settle (net_prices net n interval slug fiatCurrency) in
      if negb (status response =? 200)%nat
      then throw (Error_ "Could not find requested token price info from Crypto.com")
      else
        match data response with
        | Some body =>
            match prices body with
            | Some _ => ret body
            | None =>
                throw (Error_ "Could not find requested token price info from Crypto.com")
            end
        | None => throw (Error_ "Could not find requested token price info from Crypto.com")
        end
  end.

End Api.

(** *** Reading the request log *)

(** [logged P s s']: from [s] to [s'] the request log only grew, by
    requests that satisfy [P]. *)
Definition logged (P : Request -> Prop) (s s' : ApiState) : Prop :=
  exists new, requests s' = requests s ++ new /\ Forall P new.

Definition is_directory_request (r : Request) : Prop := r = ReqAllTokens.
Definition is_token_request (r : Request) : Prop := exists s, r = ReqToken s.
Definition is_feed_request (r : Request) : Prop :=
  is_directory_request r \/ is_token_request r.

Definition token_requests (l : list CryptoComSlugResponse) : list Request :=
  map (fun slugInfo => ReqToken (si_slug slugInfo)) l.

(** The same session with another [TokenSlugMap]. *)
Definition with_cache (m : gmap string string) (s : ApiState) : ApiState :=
  {| TokenSlugMap := m; tokenSlugMap := tokenSlugMap s; requests := requests s |}.

(** *** Sessions

    The states of a session whose calls do not overlap: [initial], then
    any sequence of calls of the methods of the class, each run to its end
    before the next starts, under any answers of the feeds.  The call of
    [loadTokenSlugMap] is the one the constructor makes, taken as settled
    before the first method is called.  Loads of the directory that
    overlap are the subject of [MarketApiOverlap]. *)
Inductive Call : Type :=
| CallLoadTokenSlugMap
| CallGetAssetPrice (asset : UserAsset) (currency : string)
| CallGetTokenPrices (asset : UserAsset) (fiatCurrency interval : string)
| CallGetTokenPriceFromCryptoCom (asset : UserAsset) (fiatCurrency : string)
| CallGetCryptoToFiatRateFromCoinbase (cryptoSymbol fiatCurrency : string).

Definition perform (cfg : TokenConfig) (js : JsRuntime) (net : Net)
           (c : Call) (s : ApiState) : ApiState :=
  match c with
  | CallLoadTokenSlugMap => snd (loadTokenSlugMap net s)
  | CallGetAssetPrice asset currency => snd (getAssetPrice cfg js net asset currency s)
  | CallGetTokenPrices asset fiatCurrency interval =>
      snd (getTokenPrices cfg net asset fiatCurrency interval s)
  | CallGetTokenPriceFromCryptoCom asset fiatCurrency =>
      snd (getTokenPriceFromCryptoCom cfg js net asset fiatCurrency s)
  | CallGetCryptoToFiatRateFromCoinbase cryptoSymbol fiatCurrency =>
      snd (getCryptoToFiatRateFromCoinbase net cryptoSymbol fiatCurrency s)
  end.

Inductive reachable (cfg : TokenConfig) (js : JsRuntime) (net : Net) : ApiState -> Prop :=
| reach_initial : reachable cfg js net initial
| reach_call c s : reachable cfg js net s -> reachable cfg js net (perform cfg js net c s).

(** *** The selection rule in the words of the specification

    A fetched candidate qualifies when (a) its slug is one of the three
    native slugs, or (b) the asset is a CRC-20 token and the candidate's
    symbol is whitelisted, or (c) the asset is a CRC-20 token and the
    candidate's tag list, when it has one, contains cronos-ecosystem, or
    (d) the asset is an ERC-20 token and the candidate's upper-cased symbol
    is whitelisted. *)
Definition qualifies (cfg : TokenConfig) (asset : UserAsset)
           (token : CryptoTokenPriceAPIResponse) : Prop :=
  (slug token = "crypto-com-coin" \/ slug token = "ethereum" \/ slug token = "cosmos") \/
  (assetType asset = CRC_20_TOKEN /\ tp_symbol token ∈ CRC20MainnetTokenInfos_keys cfg) \/
  (assetType asset = CRC_20_TOKEN /\
   exists t, tags token = Some t /\ "cronos-ecosystem" ∈ t) \/
  (assetType asset = ERC_20_TOKEN /\
   toUpperCase (tp_symbol token) ∈ ERC20MainnetTokenInfos_keys cfg).

(** [first_match P l r]: [r] is the first element of [l] that satisfies
    [P], or [None] when no element does. *)
Definition first_match {A} (P : A -> Prop) (l : list A) (r : option A) : Prop :=
  match r with
  | Some x => exists pre post, l = pre ++ x :: post /\ Forall (fun y => ~ P y) pre /\ P x
  | None => Forall (fun y => ~ P y) l
  end.

End MarketApi.

(** ** Wallet creation with a Ledger device (pages/create/create.tsx) *)
Module Create.

Inductive DerivationPathStandard : Type := BIP44 | LEDGER_LIVE.

Inductive WalletType : Type := NORMAL_WALLET_TYPE | LEDGER_WALLET_TYPE.

Global Instance WalletType_eq_dec : EqDecision WalletType.
Proof. solve_decision. Defined.

(** [config.name] and [config.network.addressPrefix] of a [WalletConfig]. *)
Record WalletConfig : Type := mkWalletConfig {
  configName : string;
  network_addressPrefix : string
}.

Record Wallet : Type := mkWallet {
  walletIdentifier : string;
  walletType : WalletType;
  addressIndex : Z;
  derivationPathStandard : DerivationPathStandard;
  config : WalletConfig;
  walletAddress : string
}.

(** What [new WalletCreator(createOptions).create()] resolves to. *)
Record CreatedWallet : Type := mkCreated {
  wallet : Wallet;
  assets : list UserAsset
}.

(** [props.form.getFieldsValue()]; an absent field is [None]. *)
Record FormValues : Type := mkForm {
  form_addressIndex : string;
  form_name : option string;
  form_walletType : option WalletType;
  form_network : option string;
  form_derivationPathStandard : DerivationPathStandard
}.

(** [WalletCreateOptions]; [co_addressIndex] is [None] for [NaN]. *)
Record WalletCreateOptions : Type := mkOptions {
  co_walletName : string;
  co_config : WalletConfig;
  co_walletType : WalletType;
  co_addressIndex : option Z;
  co_derivationPathStandard : DerivationPathStandard
}.

(** The calls of [ISignerProvider] the page makes. *)
Inductive DeviceCall : Type :=
| GetAddress (index : Z) (addressPrefix : string) (chain : SupportedChainName)
             (standard : DerivationPathStandard) (display : bool)
| GetEthAddress (index : Z) (standard : DerivationPathStandard) (display : bool).

(** The React state setters of the page. *)
Inductive UiFlag : Type :=
| CreateLoading
| IsEthModalVisible
| IsCosmosModalVisible
| IsModalVisible
| IsErrorModalVisible
| IsLedgerCroAppConnected
| IsLedgerEthAppConnected
| IsLedgerCosmosAppConnected.

(** What the page does to its collaborators, in program order.  A device
    call is logged twice: when it is issued and when its promise settles. *)
Inductive Event : Type :=
| EvSet (flag : UiFlag) (value : bool)
| EvWalletCreate (options : WalletCreateOptions)
| EvCreateLedgerDevice
| EvDeviceCall (c : DeviceCall)
| EvDeviceSettled (c : DeviceCall) (r : Result string)
| EvDelay (ms : N)
| EvSaveAssets (assets : list UserAsset)
| EvSetWalletTempBackupSeed (w : Wallet)
| EvSetWallet (w : Wallet)
| EvConsoleError (e : JsError)
| EvResetFields.

(** The module-level [waitFlag], the number of suspension points passed,
    the wallet object under construction and the log of events. *)
Record PageState : Type := mkPage {
  waitFlag : bool;
  awaits : nat;
  createdWallet : option CreatedWallet;
  events : list Event
}.

Definition initial (flag : bool) : PageState :=
  {| waitFlag := flag; awaits := 0; createdWallet := None; events := [] |}.

(** The collaborators.  [handlerFires n] tells whether one of the modal
    handlers that clear [waitFlag] ([handleEthOk], [handleEthCancel],
    [handleCosmosOk], [handleCosmosCancel]) runs while the page is suspended
    at its [n]-th [await]. *)
Record World : Type := mkWorld {
  parseInt10 : string -> option Z;
  getSelectedNetwork : string -> option WalletConfig;
  create : WalletCreateOptions -> Result CreatedWallet;
  getAddress : Z -> string -> SupportedChainName -> DerivationPathStandard -> bool -> Result string;
  getEthAddress : Z -> DerivationPathStandard -> bool -> Result string;
  saveAssets : list UserAsset -> Result unit;
  handlerFires : nat -> bool
}.

Definition set_address (addr : string) (a : UserAsset) : UserAsset :=
  {| identifier := identifier a;
     symbol := symbol a;
     mainnetSymbol := mainnetSymbol a;
     assetType := assetType a;
     address := Some addr;
     chainName := chainName a |}.

(** [assets.filter(p)[0].address = addr]: the write goes to the first asset
    that satisfies [p]; with no such asset the assignment throws. *)
Fixpoint assign_first (p : UserAsset -> bool) (addr : string) (l : list UserAsset)
  : option (list UserAsset) :=
  match l with
  | [] => None
  | a :: r =>
      if p a then Some (set_address addr a :: r)
      else match assign_first p addr r with
           | Some r' => Some (a :: r')
           | None => None
           end
  end.

(** [assets.filter(p).forEach(asset => { asset.address = addr })] *)
Definition assign_all (p : UserAsset -> bool) (addr : string) (l : list UserAsset)
  : list UserAsset :=
  map (fun a => if p a then set_address addr a else a) l.

Definition isCroAsset (asset : UserAsset) : bool :=
  bool_decide (assetType asset = TENDERMINT) && bool_decide (mainnetSymbol asset = "CRO").

Definition isEvmAsset (asset : UserAsset) : bool :=
  bool_decide (assetType asset = EVM).

Definition isAtomAsset (asset : UserAsset) : bool :=
  bool_decide (assetType asset = TENDERMINT)
  && bool_decide (chainName asset = Some COSMOS_HUB).

Definition set_walletAddress (addr : string) (w : Wallet) : Wallet :=
  {| walletIdentifier := walletIdentifier w;
     walletType := walletType w;
     addressIndex := addressIndex w;
     derivationPathStandard := derivationPathStandard w;
     config := config w;
     walletAddress := addr |}.

Section Page.
Context (world : World).

Abbreviation PageM := (M PageState).

Definition emit (e : Event) : PageM unit :=
  modify (fun s => {| waitFlag := waitFlag s; awaits := awaits s;
                      createdWallet := createdWallet s;
                      events := events s ++ [e] |}).

(** A suspension point: the event loop may run a modal handler. *)
Definition suspend : PageM unit :=
  modify (fun s => {| waitFlag := waitFlag s && negb (handlerFires world (awaits s));
                      awaits := S (awaits s);
                      createdWallet := createdWallet s;
                      events := events s |}).

Definition setWaitFlag (b : bool) : PageM unit :=
  modify (fun s => {| waitFlag := b; awaits := awaits s;
                      createdWallet := createdWallet s;
                      events := events s |}).

(** [await delay(ms)] *)
Definition delay (ms : N) : PageM unit :=
  emit (EvDelay ms) ;;; suspend.

Definition answer (c : DeviceCall) : Result string :=
  match c with
  | GetAddress index addressPrefix chain standard display =>
      getAddress world index addressPrefix chain standard display
  | GetEthAddress index standard display =>
      getEthAddress world index standard display
  end.

(** [await device.getAddress(...)], [await device.getEthAddress(...)] *)
Definition deviceCall (c : DeviceCall) : PageM string :=
  emit (EvDeviceCall c) ;;;
  suspend ;;;
  emit (EvDeviceSettled c (answer c)) ;;;
  settle (answer c).

(** Access to the object [createdWallet] once it exists. *)
Definition readDraft : PageM CreatedWallet :=
  let! s := get in
  match createdWallet s with
  | Some cw => ret cw
  | None => throw (TypeError_ "createdWallet is undefined")
  end.

Definition writeDraft (cw : CreatedWallet) : PageM unit :=
  modify (fun s => {| waitFlag := waitFlag s; awaits := awaits s;
                      createdWallet := Some cw;
                      events := events s |}).

(** [await new WalletCreator(createOptions).create()] *)
Definition walletCreate (createOptions : WalletCreateOptions) : PageM unit :=
  emit (EvWalletCreate createOptions) ;;;
  suspend ;;;
  let! cw := settle (create world createOptions) in
  writeDraft cw.

(** [await walletService.saveAssets(createdWallet.assets)] *)
Definition saveAssetsCall : PageM unit :=
  let! cw := readDraft in
  emit (EvSaveAssets (assets cw)) ;;;
  suspend ;;;
  settle (saveAssets world (assets cw)).

Definition assignFirst (p : UserAsset -> bool) (addr : string) : PageM unit :=
  let! cw := readDraft in
  match assign_first p addr (assets cw) with
  | Some assets' => writeDraft {| wallet := wallet cw; assets := assets' |}
  | None => throw (TypeError_ "Cannot set properties of undefined (setting 'address')")
  end.

Definition assignAll (p : UserAsset -> bool) (addr : string) : PageM unit :=
  let! cw := readDraft in
  writeDraft {| wallet := wallet cw; assets := assign_all p addr (assets cw) |}.

Definition overrideMainAddress (addr : string) : PageM unit :=
  let! cw := readDraft in
  writeDraft {| wallet := set_walletAddress addr (wallet cw); assets := assets cw |}.

(** [for (let i = 0; i < n; i++) { await delay(100); if (!waitFlag) break; }] *)
Fixpoint pollWaitFlag (n : nat) : PageM unit :=
  match n with
  | O => ret tt
  | S n' =>
      delay 100%N ;;;
      let! s := get in
      if negb (waitFlag s) then ret tt else pollWaitFlag n'
  end.

(** The three device calls of the Ledger branch. *)
Definition croCall (targetWallet : Wallet) : DeviceCall :=
  GetAddress (addressIndex targetWallet) (network_addressPrefix (config targetWallet))
             CRYPTO_ORG (derivationPathStandard targetWallet) false.

Definition ethCall (targetWallet : Wallet) (standard : DerivationPathStandard) : DeviceCall :=
  GetEthAddress (addressIndex targetWallet) standard false.

Definition cosmosCall (targetWallet : Wallet) : DeviceCall :=
  GetAddress (addressIndex targetWallet) "cosmos" COSMOS_HUB
             (derivationPathStandard targetWallet) false.

(** The body of [if (targetWallet.walletType === LEDGER_WALLET_TYPE)];
    [standard] is the form's [derivationPathStandard]. *)
Definition ledgerDerivation (standard : DerivationPathStandard) : PageM unit :=
  emit EvCreateLedgerDevice ;;;
  (* collect cro address *)
  let! cw := readDraft in
  let! croAddress := deviceCall (croCall (wallet cw)) in
  assignFirst isCroAsset croAddress ;;;
  (* override main address *)
  overrideMainAddress croAddress ;;;
  setWaitFlag true ;;;
  emit (EvSet IsEthModalVisible true) ;;;
  pollWaitFlag 600 ;;;
  let! cw := readDraft in
  let! ethAddress := deviceCall (ethCall (wallet cw) standard) in
  assignAll isEvmAsset ethAddress ;;;
  emit (EvSet IsLedgerEthAppConnected true) ;;;
  delay 3000%N ;;;
  emit (EvSet IsEthModalVisible false) ;;;
  setWaitFlag true ;;;
  emit (EvSet IsCosmosModalVisible true) ;;;
  pollWaitFlag 600 ;;;
  emit (EvSet IsLedgerCosmosAppConnected true) ;;;
  let! cw := readDraft in
  let! cosmosHubAddress := deviceCall (cosmosCall (wallet cw)) in
  assignFirst isAtomAsset cosmosHubAddress.

(** The [try] block of [onWalletCreateFinishCore]. *)
Definition createAndSave (createOptions : WalletCreateOptions)
           (standard : DerivationPathStandard) : PageM unit :=
  walletCreate createOptions ;;;
  let! cw := readDraft in
  (if bool_decide (walletType (wallet cw) = LEDGER_WALLET_TYPE)
   then ledgerDerivation standard else ret tt) ;;;
  saveAssetsCall ;;;
  let! cw := readDraft in
  emit (EvSetWalletTempBackupSeed (wallet cw)) ;;;
  emit (EvSetWallet (wallet cw)) ;;;
  emit (EvSet CreateLoading false) ;;;
  emit (EvSet IsLedgerCroAppConnected false) ;;;
  emit (EvSet IsLedgerEthAppConnected false) ;;;
  emit (EvSet IsLedgerCosmosAppConnected false) ;;;
  emit (EvSet IsModalVisible true).

(** The [catch] block. *)
Definition onCreateError (e : JsError) : PageM unit :=
  emit (EvConsoleError e) ;;;
  emit (EvSet CreateLoading false) ;;;
  emit (EvSet IsLedgerCroAppConnected false) ;;;
  emit (EvSet IsLedgerEthAppConnected false) ;;;
  emit (EvSet IsLedgerCosmosAppConnected false) ;;;
  emit (EvSet IsErrorModalVisible true).

(** [onWalletCreateFinishCore] *)
Definition onWalletCreateFinishCore (form : FormValues) : PageM unit :=
  emit (EvSet CreateLoading true) ;;;
  match form_name form, form_walletType form, form_network form with
  | Some ((String _ _) as name), Some walletType, Some ((String _ _) as network) =>
      match getSelectedNetwork world network with
      | None => ret tt
      | Some selectedNetworkConfig =>
          let createOptions :=
            {| co_walletName := name;
               co_config := selectedNetworkConfig;
               co_walletType := walletType;
               co_addressIndex := parseInt10 world (form_addressIndex form);
               co_derivationPathStandard := form_derivationPathStandard form |} in
          let! completed :=
            try_catch
              (createAndSave createOptions (form_derivationPathStandard form) ;;; ret true)
              (fun e => onCreateError e ;;; ret false) in
          if completed : bool then emit EvResetFields else ret tt
      end
  | _, _, _ => ret tt
  end.

End Page.

(** *** Reading a log *)

Definition device_calls (tr : list Event) : list DeviceCall :=
  omap (fun e => match e with EvDeviceCall c => Some c | _ => None end) tr.

Definition saved (tr : list Event) : list (list UserAsset) :=
  omap (fun e => match e with EvSaveAssets a => Some a | _ => None end) tr.

(** At most one device call is in flight: scanning the log with the
    pending call, a call is issued only when none is pending and a
    settlement closes the pending call. *)
Fixpoint one_in_flight (pending : option DeviceCall) (tr : list Event) : Prop :=
  match tr with
  | [] => True
  | EvDeviceCall c :: r => pending = None /\ one_in_flight (Some c) r
  | EvDeviceSettled c _ :: r => pending = Some c /\ one_in_flight None r
  | _ :: r => one_in_flight pending r
  end.

(** *** The polling loop, as a count

    [polls fires from n]: the number of [delay(100)] the loop of [n]
    iterations performs when it starts, with the flag set, at suspension
    point [from]: it stops after the first delay during which a handler
    fires.  [poll_flag] is the value of [waitFlag] when the loop ends. *)
Fixpoint polls (fires : nat -> bool) (from n : nat) : nat :=
  match n with
  | O => O
  | S n' => if fires from then 1 else S (polls fires (S from) n')
  end.

Fixpoint poll_flag (fires : nat -> bool) (from n : nat) : bool :=
  match n with
  | O => true
  | S n' => if fires from then false else poll_flag fires (S from) n'
  end.

(** The two log entries of a device call. *)
Definition settled (world : World) (c : DeviceCall) : list Event :=
  [EvDeviceCall c; EvDeviceSettled c (answer world c)].

(** The log entries of the [catch] block. *)
Definition failure_events (e : JsError) : list Event :=
  [EvConsoleError e; EvSet CreateLoading false; EvSet IsLedgerCroAppConnected false;
   EvSet IsLedgerEthAppConnected false; EvSet IsLedgerCosmosAppConnected false;
   EvSet IsErrorModalVisible true].

(** The form passes the guards of [onWalletCreateFinishCore] and the
    wallet creator resolves to [cw]. *)
Definition creates (world : World) (form : FormValues) (cw : CreatedWallet) : Prop :=
  exists name walletType network selectedNetworkConfig,
    form_name form = Some name /\ name <> "" /\
    form_walletType form = Some walletType /\
    form_network form = Some network /\ network <> "" /\
    getSelectedNetwork world network = Some selectedNetworkConfig /\
    create world {| co_walletName := name;
                    co_config := selectedNetworkConfig;
                    co_walletType := walletType;
                    co_addressIndex := parseInt10 world (form_addressIndex form);
                    co_derivationPathStandard := form_derivationPathStandard form |} = Ok cw.

(** [filter(p)[0]] *)
Definition first_asset (p : UserAsset -> bool) (l : list UserAsset) : option UserAsset :=
  List.find p l.

Definition nonEmptyAddress (a : UserAsset) : Prop :=
  exists addr, address a = Some addr /\ addr <> "".

(** The log of each of the three steps of the Ledger branch; [k] is the
    number of polls of the step's wait. *)
Definition cro_events (world : World) (w : Wallet) : list Event :=
  EvCreateLedgerDevice :: settled world (croCall w).

Definition eth_events (world : World) (w : Wallet) (standard : DerivationPathStandard)
           (k : nat) : list Event :=
  EvSet IsEthModalVisible true ::
  repeat (EvDelay 100%N) k ++ settled world (ethCall w standard).

Definition cosmos_events (world : World) (w : Wallet) (k : nat) : list Event :=
  [EvSet IsLedgerEthAppConnected true; EvDelay 3000%N;
   EvSet IsEthModalVisible false; EvSet IsCosmosModalVisible true] ++
  repeat (EvDelay 100%N) k ++
  EvSet IsLedgerCosmosAppConnected true :: settled world (cosmosCall w).

(** The log entries after [saveAssets] has resolved. *)
Definition success_events (w : Wallet) : list Event :=
  [EvSetWalletTempBackupSeed w; EvSetWallet w; EvSet CreateLoading false;
   EvSet IsLedgerCroAppConnected false; EvSet IsLedgerEthAppConnected false;
   EvSet IsLedgerCosmosAppConnected false; EvSet IsModalVisible true].

Definition undefinedAddress : JsError :=
  TypeError_ "Cannot set properties of undefined (setting 'address')".

(** A predicate on assets that does not look at the address. *)
Definition stable (p : UserAsset -> bool) : Prop :=
  forall addr a, p (set_address addr a) = p a.

(** The settled device calls of a log, each with its result. *)
Definition settlements (tr : list Event) : list (DeviceCall * Result string) :=
  omap (fun e => match e with EvDeviceSettled c r => Some (c, r) | _ => None end) tr.

End Create.

(** ** Concrete feeds, assets and wallets used in examples *)
Module Scenario.
Import MarketApi.

(** A runtime that keeps arithmetic symbolic: a number is the text of the
    expression that computes it. *)
Definition symbolic : JsRuntime :=
  {| JsNumber := string;
     Number_of_string := fun s => s;
     js_mul := fun a b => (a ++ "*" ++ b)%string;
     String_of_number := fun n => n |}.

Definition someTokens : TokenConfig :=
  {| CRC20MainnetTokenInfos_keys := ["VVS"; "TONIC"];
     ERC20MainnetTokenInfos_keys := ["USDT"; "USDC"] |}.

Definition croAsset : UserAsset :=
  {| identifier := "cro-mainnet"; symbol := "CRO"; mainnetSymbol := "CRO";
     assetType := TENDERMINT; address := None; chainName := Some CRYPTO_ORG |}.

Definition vvsAsset : UserAsset :=
  {| identifier := "vvs-cronos"; symbol := "VVS"; mainnetSymbol := "VVS";
     assetType := CRC_20_TOKEN; address := None; chainName := None |}.

Definition croToken : CryptoTokenPriceAPIResponse :=
  {| slug := "crypto-com-coin"; tp_symbol := "CRO"; usd_price := JStr "0.08";
     usd_price_change_24h := JNum "0.01"; tags := None |}.

Definition otherToken (s sym : string) : CryptoTokenPriceAPIResponse :=
  {| slug := s; tp_symbol := sym; usd_price := JStr "9";
     usd_price_change_24h := JNull; tags := None |}.

Definition directory : list CryptoComSlugResponse :=
  [ mkSlugInfo "crypto-com-coin" "CRO"; mkSlugInfo "cro-clone" "CRO";
    mkSlugInfo "vvs-finance" "VVS"; mkSlugInfo "ethereum" "ETH" ].

Definition tokenOf (s : string) : CryptoTokenPriceAPIResponse :=
  if bool_decide (s = "crypto-com-coin") then croToken
  else if bool_decide (s = "vvs-finance") then otherToken s "VVS"
  else otherToken s "CRO".

(** Every feed answers with status 200; Coinbase quotes EUR only. *)
Definition feeds : Net :=
  {| net_allTokens := fun _ => Ok (mkResp 200 directory);
     net_token := fun _ s => Ok (mkResp 200 (tokenOf s));
     net_exchangeRates := fun _ c =>
       Ok (mkResp 200 (Some {| cb_currency := c; cb_rates := {[ "EUR" := JStr "0.9" ]} |}));
     net_prices := fun _ _ _ _ => Ok (mkResp 200 (Some {| prices := Some [JNum "0.08"] |}));
     net_latency := fun n => n |}.

(** Two whitelisted candidates for VVS; the request sent last is answered
    first. *)
Definition racingFeeds : Net :=
  {| net_allTokens := fun _ =>
       Ok (mkResp 200 [mkSlugInfo "vvs-finance" "VVS"; mkSlugInfo "vvs-clone" "VVS"]);
     net_token := fun _ s => Ok (mkResp 200 (otherToken s "VVS"));
     net_exchangeRates := net_exchangeRates feeds;
     net_prices := net_prices feeds;
     net_latency := fun n => 10 - n |}.

(** A feed whose token endpoint answers the first two requests of the
    session with a record of an unknown symbol. *)
Definition flakyFeeds : Net :=
  {| net_allTokens := net_allTokens feeds;
     net_token := fun n s =>
       if (n <? 2)%nat then Ok (mkResp 200 (otherToken s "UNKNOWN"))
       else net_token feeds n s;
     net_exchangeRates := net_exchangeRates feeds;
     net_prices := net_prices feeds;
     net_latency := net_latency feeds |}.

(** The session after the directory has been loaded. *)
Definition loadedSession : ApiState :=
  {| TokenSlugMap := ∅; tokenSlugMap := Some directory; requests := [ReqAllTokens] |}.

(** A session in which the slug of [croAsset] is already cached. *)
Definition cachedSession : ApiState :=
  {| TokenSlugMap := {[ "cro-mainnet" := "crypto-com-coin" ]};
     tokenSlugMap := None;
     requests := [] |}.

(** A Ledger wallet as the creator returns it, with the four default
    assets, and a page on which the user fills the form and confirms the
    Ethereum app and then the Cosmos app, each during the third poll. *)
Definition mainnet : Create.WalletConfig :=
  {| Create.configName := "MAINNET"; Create.network_addressPrefix := "cro" |}.

Definition ledgerWallet : Create.Wallet :=
  {| Create.walletIdentifier := "ledger-1";
     Create.walletType := Create.LEDGER_WALLET_TYPE;
     Create.addressIndex := 0%Z;
     Create.derivationPathStandard := Create.BIP44;
     Create.config := mainnet;
     Create.walletAddress := "" |}.

Definition cronosAsset : UserAsset :=
  {| identifier := "cronos-mainnet"; symbol := "CRO"; mainnetSymbol := "CRO";
     assetType := EVM; address := None; chainName := None |}.

Definition ethAsset : UserAsset :=
  {| identifier := "eth-mainnet"; symbol := "ETH"; mainnetSymbol := "ETH";
     assetType := EVM; address := None; chainName := None |}.

Definition atomAsset : UserAsset :=
  {| identifier := "atom-mainnet"; symbol := "ATOM"; mainnetSymbol := "ATOM";
     assetType := TENDERMINT; address := None; chainName := Some COSMOS_HUB |}.

Definition ledgerDraft : Create.CreatedWallet :=
  {| Create.wallet := ledgerWallet;
     Create.assets := [croAsset; cronosAsset; ethAsset; atomAsset] |}.

Definition ledgerForm : Create.FormValues :=
  {| Create.form_addressIndex := "0";
     Create.form_name := Some "My Ledger";
     Create.form_walletType := Some Create.LEDGER_WALLET_TYPE;
     Create.form_network := Some "MAINNET";
     Create.form_derivationPathStandard := Create.BIP44 |}.

Definition ledgerWorld : Create.World :=
  {| Create.parseInt10 := fun _ => Some 0%Z;
     Create.getSelectedNetwork := fun _ => Some mainnet;
     Create.create := fun _ => Ok ledgerDraft;
     Create.getAddress := fun _ _ chain _ _ =>
       match chain with
       | CRYPTO_ORG => Ok "cro1ledger"
       | _ => Ok "cosmos1ledger"
       end;
     Create.getEthAddress := fun _ _ _ => Ok "0xledger";
     Create.saveAssets := fun _ => Ok tt;
     Create.handlerFires := fun n => (n =? 4)%nat || (n =? 9)%nat |}.

(** The same page when the creator returns a software wallet. *)
Definition normalWorld : Create.World :=
  {| Create.parseInt10 := Create.parseInt10 ledgerWorld;
     Create.getSelectedNetwork := Create.getSelectedNetwork ledgerWorld;
     Create.create := fun _ =>
       Ok {| Create.wallet :=
               {| Create.walletIdentifier := "normal-1";
                  Create.walletType := Create.NORMAL_WALLET_TYPE;
                  Create.addressIndex := 0%Z;
                  Create.derivationPathStandard := Create.BIP44;
                  Create.config := mainnet;
                  Create.walletAddress := "cro1software" |};
             Create.assets := [croAsset] |};
     Create.getAddress := Create.getAddress ledgerWorld;
     Create.getEthAddress := Create.getEthAddress ledgerWorld;
     Create.saveAssets := Create.saveAssets ledgerWorld;
     Create.handlerFires := Create.handlerFires ledgerWorld |}.

(** The same page with a device on which the Ethereum app is not open. *)
Definition ethAppClosed : Create.World :=
  {| Create.parseInt10 := Create.parseInt10 ledgerWorld;
     Create.getSelectedNetwork := Create.getSelectedNetwork ledgerWorld;
     Create.create := Create.create ledgerWorld;
     Create.getAddress := Create.getAddress ledgerWorld;
     Create.getEthAddress := fun _ _ _ => Throw (Rejected "Ledger device: UNKNOWN_ERROR (0x6511)");
     Create.saveAssets := Create.saveAssets ledgerWorld;
     Create.handlerFires := Create.handlerFires ledgerWorld |}.

End Scenario.

(** ** CroMarketApi: construction, and readings of a session *)
Module MarketApiSession.
Import MarketApi.

(** [new CroMarketApi()]: the field [tokenSlugMap] starts as null and
    [loadTokenSlugMap().then(slugMap => { this.tokenSlugMap = slugMap })]
    is started.  A rejection of that promise has no handler and does not
    reach the caller of the constructor. *)
Definition constructor (net : Net) : M ApiState unit :=
  modify (fun s => {| TokenSlugMap := TokenSlugMap s; tokenSlugMap := None;
                      requests := requests s |}) ;;;
  try_catch
    (let! slugMap := loadTokenSlugMap net in
     modify (fun s => {| TokenSlugMap := TokenSlugMap s; tokenSlugMap := Some slugMap;
                         requests := requests s |}))
    (fun _ => ret tt).

(** The module once loaded: [TokenSlugMap = new Map()] and
    [croMarketPriceApi = new CroMarketApi()]. *)
Definition croMarketPriceApi (net : Net) : ApiState :=
  snd (constructor net
         {| TokenSlugMap := ∅; tokenSlugMap := None; requests := [] |}).

(** The same feeds with another timing of the answers. *)
Definition with_latency (latency : nat -> nat) (net : Net) : Net :=
  {| net_allTokens := net_allTokens net;
     net_token := net_token net;
     net_exchangeRates := net_exchangeRates net;
     net_prices := net_prices net;
     net_latency := latency |}.

(** The answers to the token requests of the candidates [l], issued when
    [n] requests have been sent, in the order of the requests. *)
Definition token_answers (net : Net) (n : nat) (l : list CryptoComSlugResponse)
  : list (Result (AxiosResponse CryptoTokenPriceAPIResponse)) :=
  imap (fun i slugInfo => net_token net (n + i) (si_slug slugInfo)) l.

(** The identifier has no usable entry in the cache. *)
Definition uncached (asset : UserAsset) (s : ApiState) : Prop :=
  forall cached, TokenSlugMap s !! identifier asset = Some cached -> cached = "".

(** The directory in memory is an answer of the feed to a request of the
    session, with status 200 and at least one entry. *)
Definition directory_fetched (net : Net) (s : ApiState) (dir : list CryptoComSlugResponse)
  : Prop :=
  exists n resp,
    requests s !! n = Some ReqAllTokens /\
    net_allTokens net n = Ok resp /\
    status resp = 200%nat /\
    data resp = dir /\
    dir <> [].

(** The slug is the [slug] field of a record that the token endpoint
    returned to a request of the session. *)
Definition slug_fetched (net : Net) (s : ApiState) (found : string) : Prop :=
  exists n requested resp,
    requests s !! n = Some (ReqToken requested) /\
    net_token net n requested = Ok resp /\
    slug (data resp) = found.

(** The feed answers the directory request sent as request number [n] with
    status 200 and at least one entry. *)
Definition directory_answered (net : Net) (n : nat) : Prop :=
  exists resp,
    net_allTokens net n = Ok resp /\ status resp = 200%nat /\ data resp <> [].

(** From [s1] to [s2] the directory in memory is kept and the requests
    sent are not for the directory. *)
Definition quiet (s1 s2 : ApiState) : Prop :=
  tokenSlugMap s2 = tokenSlugMap s1 /\
  exists more, requests s2 = requests s1 ++ more /\ (ReqAllTokens ∉ more).

(** What a method may do about the directory: nothing, or, when the field
    is empty, send one request for it first and keep the answer if it is
    usable. *)
Definition directory_step (net : Net) (s s' : ApiState) : Prop :=
  quiet s s' \/
  exists rest,
    (tokenSlugMap s = None \/ tokenSlugMap s = Some []) /\
    requests s' = requests s ++ ReqAllTokens :: rest /\
    (ReqAllTokens ∉ rest) /\
    ((directory_answered net (length (requests s)) /\
      exists resp,
        net_allTokens net (length (requests s)) = Ok resp /\
        tokenSlugMap s' = Some (data resp)) \/
     (~ directory_answered net (length (requests s)) /\
      tokenSlugMap s' = tokenSlugMap s)).

End MarketApiSession.

(** ** CroMarketApi: loads of the directory that overlap

    [loadTokenSlugMap] is an [async] function with one [await]: between
    its request and the answer other code runs.  The constructor does not
    await its load, and a method may be called while an earlier call is
    suspended, so several loads can be in flight at once.  Here a load is
    split at its [await], and the parts of the loads in flight run in any
    order. *)
Module MarketApiOverlap.
Import MarketApi MarketApiSession.

(** Who started a load: the constructor, whose [then] callback assigns
    the result to the field once more, or a method. *)
Inductive Owner : Type := ByConstructor | ByMethod.

(** The stores, the loads suspended at their [await], each with the
    number of its request, and the value that the [then] callback of the
    constructor is waiting to assign. *)
Record Pool : Type := mkPool {
  store : ApiState;
  inflight : list (Owner * nat);
  continuation : option (list CryptoComSlugResponse)
}.

(** [loadTokenSlugMap] up to its [await]: a directory in memory is
    returned at once; otherwise the request is sent and the load is
    suspended. *)
Definition startLoad (who : Owner) (p : Pool) : Pool :=
  match tokenSlugMap (store p) with
  | Some ((_ :: _) as m) =>
      {| store := store p;
         inflight := inflight p;
         continuation := match who with
                         | ByConstructor => Some m
                         | ByMethod => continuation p
                         end |}
  | _ =>
      {| store := {| TokenSlugMap := TokenSlugMap (store p);
                     tokenSlugMap := tokenSlugMap (store p);
                     requests := requests (store p) ++ [ReqAllTokens] |};
         inflight := inflight p ++ [(who, length (requests (store p)))];
         continuation := continuation p |}
  end.

(** [loadTokenSlugMap] from its [await] on, for the [k]-th load in
    flight: a rejected request and an answer that is not usable throw and
    change nothing; a usable answer is assigned to the field and
    returned. *)
Definition answerLoad (net : Net) (k : nat) (p : Pool) : Pool :=
  match inflight p !! k with
  | None => p
  | Some (who, n) =>
      let rest := take k (inflight p) ++ drop (S k) (inflight p) in
      match net_allTokens net n with
      | Throw _ =>
          {| store := store p; inflight := rest; continuation := continuation p |}
      | Ok allTokensSlugMap =>
          if negb (status allTokensSlugMap =? 200)%nat
             || (length (data allTokensSlugMap) <? 1)%nat
          then {| store := store p; inflight := rest; continuation := continuation p |}
          else
            {| store := {| TokenSlugMap := TokenSlugMap (store p);
                           tokenSlugMap := Some (data allTokensSlugMap);
                           requests := requests (store p) |};
               inflight := rest;
               continuation := match who with
                               | ByConstructor => Some (data allTokensSlugMap)
                               | ByMethod => continuation p
                               end |}
      end
  end.

(** The constructor's [slugMap => { this.tokenSlugMap = slugMap }]. *)
Definition runThen (p : Pool) : Pool :=
  match continuation p with
  | None => p
  | Some slugMap =>
      {| store := {| TokenSlugMap := TokenSlugMap (store p);
                     tokenSlugMap := Some slugMap;
                     requests := requests (store p) |};
         inflight := inflight p;
         continuation := None |}
  end.

Definition isAllTokens (r : Request) : bool :=
  match r with ReqAllTokens => true | _ => false end.

(** What else the methods do between two steps of a load: they send
    requests, none of them for the directory, and write the cache of
    slugs.  No other code assigns the field. *)
Definition otherwise (sent : list Request) (cache : gmap string string) (p : Pool) : Pool :=
  {| store := {| TokenSlugMap := cache;
                 tokenSlugMap := tokenSlugMap (store p);
                 requests := requests (store p) ++
                             List.filter (fun r => negb (isAllTokens r)) sent |};
     inflight := inflight p;
     continuation := continuation p |}.

(** What happens next: a method starts a load, the [k]-th load in flight
    gets its answer, the [then] callback runs, or something else. *)
Inductive Action : Type :=
| Load
| Answer (k : nat)
| RunThen
| Other (sent : list Request) (cache : gmap string string).

Definition step (net : Net) (a : Action) (p : Pool) : Pool :=
  match a with
  | Load => startLoad ByMethod p
  | Answer k => answerLoad net k p
  | RunThen => runThen p
  | Other sent cache => otherwise sent cache p
  end.

Definition run (net : Net) (schedule : list Action) (p : Pool) : Pool :=
  fold_left (fun p a => step net a p) schedule p.

(** The module before [new CroMarketApi()], and once the constructor has
    returned: its load is in flight. *)
Definition fresh : Pool :=
  {| store := initial; inflight := []; continuation := None |}.

Definition constructed : Pool := startLoad ByConstructor fresh.

(** A schedule in which no load starts while another is in flight. *)
Fixpoint serial (net : Net) (schedule : list Action) (p : Pool) : Prop :=
  match schedule with
  | [] => True
  | a :: rest =>
      (a = Load -> inflight p = []) /\ serial net rest (step net a p)
  end.

(** The request number [n] of the store is a request for the directory
    that the feed answers with status 200 and at least one entry. *)
Definition usable_request (net : Net) (s : ApiState) (n : nat) : Prop :=
  requests s !! n = Some ReqAllTokens /\ directory_answered net n.

(** What holds of a pool whatever the schedule: the loads in flight wait
    for requests of the log, and the field and the value that the [then]
    callback holds are directories fetched in this session. *)
Definition coherent (net : Net) (p : Pool) : Prop :=
  (forall who n, (who, n) ∈ inflight p -> requests (store p) !! n = Some ReqAllTokens) /\
  (forall dir, tokenSlugMap (store p) = Some dir -> directory_fetched net (store p) dir) /\
  (forall dir, continuation p = Some dir -> directory_fetched net (store p) dir).

(** What holds in addition when loads do not overlap. *)
Definition one_at_a_time (net : Net) (p : Pool) : Prop :=
  length (inflight p) <= 1 /\
  (forall n m, usable_request net (store p) n -> usable_request net (store p) m -> n = m) /\
  ((tokenSlugMap (store p) = None \/ tokenSlugMap (store p) = Some []) ->
   forall n, usable_request net (store p) n -> exists who, (who, n) ∈ inflight p).

End MarketApiOverlap.

(** ** More feeds and assets for examples *)
Module MarketScenario.
Import MarketApi.

(** The example feeds with a token endpoint that rejects the request for
    the second candidate of CRO. *)
Definition brokenFeeds : Net :=
  {| net_allTokens := net_allTokens Scenario.feeds;
     net_token := fun n s =>
       if bool_decide (s = "cro-clone") then Throw (Rejected "Network Error")
       else net_token Scenario.feeds n s;
     net_exchangeRates := net_exchangeRates Scenario.feeds;
     net_prices := net_prices Scenario.feeds;
     net_latency := net_latency Scenario.feeds |}.

(** An asset that the example directory does not list. *)
Definition dogeAsset : UserAsset :=
  {| identifier := "doge-mainnet"; symbol := "DOGE"; mainnetSymbol := "DOGE";
     assetType := ERC_20_TOKEN; address := None; chainName := None |}.

(** The session after the price history of VVS has been asked for. *)
Definition vvsSession : ApiState :=
  perform Scenario.someTokens Scenario.symbolic Scenario.feeds
    (CallGetTokenPrices Scenario.vvsAsset "USD" "1d") initial.

End MarketScenario.

(** ** Wallet creation: the form, the clicks and more readings of a log *)
Module CreateRuns.
Import Create.

(** The form does not pass [if (!name || !walletType || !network) return]
    or [if (!selectedNetworkConfig) return]. *)
Definition rejected_form (world : World) (form : FormValues) : Prop :=
  form_name form = None \/ form_name form = Some "" \/
  form_walletType form = None \/
  form_network form = None \/ form_network form = Some "" \/
  exists network,
    form_network form = Some network /\ getSelectedNetwork world network = None.

(** The form passes both tests and [createOptions] is built from it. *)
Definition accepted_form (world : World) (form : FormValues)
           (createOptions : WalletCreateOptions) : Prop :=
  exists name walletType network selectedNetworkConfig,
    form_name form = Some name /\ name <> "" /\
    form_walletType form = Some walletType /\
    form_network form = Some network /\ network <> "" /\
    getSelectedNetwork world network = Some selectedNetworkConfig /\
    createOptions =
      {| co_walletName := name;
         co_config := selectedNetworkConfig;
         co_walletType := walletType;
         co_addressIndex := parseInt10 world (form_addressIndex form);
         co_derivationPathStandard := form_derivationPathStandard form |}.

(** The same page with other clicks on the modals. *)
Definition with_handler (fires : nat -> bool) (world : World) : World :=
  {| parseInt10 := parseInt10 world;
     getSelectedNetwork := getSelectedNetwork world;
     create := create world;
     getAddress := getAddress world;
     getEthAddress := getEthAddress world;
     saveAssets := saveAssets world;
     handlerFires := fires |}.

(** The milliseconds asked of [delay], added up.  [delay] is a
    [setTimeout], which fires no earlier than asked and possibly later, so
    this is what the run asks for, not the time it takes. *)
Definition waited (tr : list Event) : N :=
  fold_right N.add 0%N
    (omap (fun e => match e with EvDelay ms => Some ms | _ => None end) tr).

(** The milliseconds asked of [delay], call by call. *)
Definition delays (tr : list Event) : list N :=
  omap (fun e => match e with EvDelay ms => Some ms | _ => None end) tr.

(** The time spent in the timers of a log when the [i]-th of them fires
    after [actual i] milliseconds. *)
Definition elapsed (actual : nat -> N) (tr : list Event) : N :=
  fold_right N.add 0%N (imap (fun i _ => actual i) (delays tr)).

(** No timer fires early: what [setTimeout] guarantees. *)
Definition timers_honoured (actual : nat -> N) (tr : list Event) : Prop :=
  forall i ms, delays tr !! i = Some ms -> (ms <= actual i)%N.

(** The values given to [setCreateLoading], in order. *)
Definition loading (tr : list Event) : list bool :=
  omap (fun e => match e with EvSet CreateLoading b => Some b | _ => None end) tr.

(** The result modals shown: [true] for the success modal ([showModal]),
    [false] for the error modal ([showErrorModal]). *)
Definition modals (tr : list Event) : list bool :=
  omap (fun e => match e with
                 | EvSet IsModalVisible true => Some true
                 | EvSet IsErrorModalVisible true => Some false
                 | _ => None
                 end) tr.

(** The wallets handed to [setWallet]. *)
Definition published (tr : list Event) : list Wallet :=
  omap (fun e => match e with EvSetWallet w => Some w | _ => None end) tr.

(** The wallets handed to [setWalletTempBackupSeed]. *)
Definition backed_up (tr : list Event) : list Wallet :=
  omap (fun e => match e with EvSetWalletTempBackupSeed w => Some w | _ => None end) tr.

(** The calls of [props.form.resetFields]. *)
Definition resets (tr : list Event) : nat :=
  length (omap (fun e => match e with EvResetFields => Some tt | _ => None end) tr).

(** Two assets that differ at most in their address. *)
Definition same_but_address (a b : UserAsset) : Prop :=
  identifier a = identifier b /\
  symbol a = symbol b /\
  mainnetSymbol a = mainnetSymbol b /\
  assetType a = assetType b /\
  chainName a = chainName b.

(** Two wallets that differ at most in their address. *)
Definition same_but_walletAddress (w w' : Wallet) : Prop :=
  walletIdentifier w = walletIdentifier w' /\
  walletType w = walletType w' /\
  addressIndex w = addressIndex w' /\
  derivationPathStandard w = derivationPathStandard w' /\
  config w = config w'.

(** The options given to [new WalletCreator(...)], in order. *)
Definition creations (tr : list Event) : list WalletCreateOptions :=
  omap (fun e => match e with EvWalletCreate o => Some o | _ => None end) tr.

(** [l'] is [l] with addresses written on some assets, none of them an
    asset that no step of the Ledger branch selects. *)
Definition addresses_written (l l' : list UserAsset) : Prop :=
  Forall2 same_but_address l l' /\
  forall i a,
    l !! i = Some a ->
    isCroAsset a = false -> isEvmAsset a = false -> isAtomAsset a = false ->
    l' !! i = Some a.

End CreateRuns.

(** ** More pages for examples *)
Module CreateScenario.
Import Create.

(** The example page with a creator that rejects. *)
Definition failingCreator : World :=
  {| parseInt10 := parseInt10 Scenario.ledgerWorld;
     getSelectedNetwork := getSelectedNetwork Scenario.ledgerWorld;
     create := fun _ => Throw (Rejected "storage unavailable");
     getAddress := getAddress Scenario.ledgerWorld;
     getEthAddress := getEthAddress Scenario.ledgerWorld;
     saveAssets := saveAssets Scenario.ledgerWorld;
     handlerFires := handlerFires Scenario.ledgerWorld |}.

(** A Ledger wallet created without the Cosmos Hub asset. *)
Definition noAtomDraft : CreatedWallet :=
  {| wallet := Scenario.ledgerWallet;
     assets := [Scenario.croAsset; Scenario.cronosAsset] |}.

Definition noAtomWorld : World :=
  {| parseInt10 := parseInt10 Scenario.ledgerWorld;
     getSelectedNetwork := getSelectedNetwork Scenario.ledgerWorld;
     create := fun _ => Ok noAtomDraft;
     getAddress := getAddress Scenario.ledgerWorld;
     getEthAddress := getEthAddress Scenario.ledgerWorld;
     saveAssets := saveAssets Scenario.ledgerWorld;
     handlerFires := handlerFires Scenario.ledgerWorld |}.

(** The options that the example form gives to the creator. *)
Definition ledgerOptions : WalletCreateOptions :=
  {| co_walletName := "My Ledger"; co_config := Scenario.mainnet;
     co_walletType := LEDGER_WALLET_TYPE; co_addressIndex := Some 0%Z;
     co_derivationPathStandard := BIP44 |}.

(** A user who also clicks before the Ethereum modal is open and during
    the pause of three seconds. *)
Definition eagerClicks (n : nat) : bool :=
  (n =? 0)%nat || (n =? 4)%nat || (n =? 6)%nat || (n =? 9)%nat.

End CreateScenario.

(** ** The handlers that start a wallet creation (pages/create/create.tsx)

    [onWalletCreateFinish] is the form's [onFinish]; for a Ledger wallet it
    only opens the Crypto.org modal, whose Connect button runs
    [checkIsLedgerCroAppConnected], which probes the device and then calls
    [onWalletCreateFinishCore]. *)
Module CreateFlow.
Import Create.

(** The two texts of [notification.error]: [message1] with [description1],
    or [message2] with [description2]. *)
Inductive Notice : Type := Notice1 | Notice2.

(** What the handlers do, in program order.  [Page e] is an event of
    [onWalletCreateFinishCore], or a call of a setter that this function
    uses as well. *)
Inductive FlowEvent : Type :=
| Page (e : Event)
| SetIsCroModalVisible (value : bool)
| SetIsLedgerModalButtonLoading (value : bool)
| GetPubKey (index : option Z) (chain : SupportedChainName)
            (standard : DerivationPathStandard) (display : bool)
| PubKeySettled (r : Result unit)
| SetTimeout (ms : N)
| NotificationError (notice : Notice).

(** The module-level [waitFlag] and the log. *)
Record FlowState : Type := mkFlow {
  flowWaitFlag : bool;
  flowLog : list FlowEvent
}.

(** The collaborators: those of [onWalletCreateFinishCore],
    [device.getPubKey] and [detectConditionsError] on the text of an
    error. *)
Record FlowWorld : Type := mkFlowWorld {
  page : World;
  getPubKey : option Z -> SupportedChainName -> DerivationPathStandard -> bool -> Result unit;
  detectConditionsError : JsError -> bool
}.

Section Flow.
Context (fw : FlowWorld).

Abbreviation FlowM := (M FlowState).

Definition note (e : FlowEvent) : FlowM unit :=
  modify (fun s => {| flowWaitFlag := flowWaitFlag s; flowLog := flowLog s ++ [e] |}).

(** [onWalletCreateFinishCore()], called without [await]: its events
    follow those of the caller, which has nothing left to do when it calls
    it; its promise is dropped. *)
Definition callCore (form : FormValues) : FlowM unit :=
  modify (fun s =>
    let final := snd (onWalletCreateFinishCore (page fw) form (initial (flowWaitFlag s))) in
    {| flowWaitFlag := waitFlag final;
       flowLog := flowLog s ++ map Page (events final) |}).

(** [onWalletCreateFinish] *)
Definition onWalletCreateFinish (form : FormValues) : FlowM unit :=
  if bool_decide (form_walletType form = Some NORMAL_WALLET_TYPE)
  then callCore form
  else
    note (SetIsCroModalVisible true) ;;;
    note (Page (EvSet IsLedgerCroAppConnected false)).

(** [await device.getPubKey(...)] *)
Definition pubKeyCall (index : option Z) (chain : SupportedChainName)
           (standard : DerivationPathStandard) (display : bool) : FlowM unit :=
  note (GetPubKey index chain standard display) ;;;
  note (PubKeySettled (getPubKey fw index chain standard display)) ;;;
  settle (getPubKey fw index chain standard display).

(** [checkIsLedgerCroAppConnected]; the result of the [try] statement is
    the final value of [hwok]. *)
Definition checkIsLedgerCroAppConnected (form : FormValues) : FlowM unit :=
  note (Page (EvSet CreateLoading true)) ;;;
  let! hwok :=
    try_catch
      (note (Page EvCreateLedgerDevice) ;;;
       (* check ledger device ok *)
       pubKeyCall (parseInt10 (page fw) (form_addressIndex form)) CRYPTO_ORG
                  (form_derivationPathStandard form) false ;;;
       note (Page (EvSet IsLedgerCroAppConnected true)) ;;;
       note (SetTimeout 2000%N) ;;;
       note (SetIsCroModalVisible false) ;;;
       note (SetIsLedgerModalButtonLoading false) ;;;
       ret true)
      (fun e =>
         let notice :=
           if bool_decide (form_walletType form = Some LEDGER_WALLET_TYPE)
              && detectConditionsError fw e
           then Notice2 else Notice1 in
         note (Page (EvSet IsLedgerCroAppConnected false)) ;;;
         note (SetTimeout 2000%N) ;;;
         note (SetIsCroModalVisible false) ;;;
         note (Page (EvSet CreateLoading false)) ;;;
         note (SetIsLedgerModalButtonLoading false) ;;;
         note (NotificationError notice) ;;;
         ret false) in
  note (SetTimeout 2000%N) ;;;
  if hwok : bool then
    (* proceed *)
    callCore form
  else ret tt.

End Flow.

(** *** Reading the log of the handlers *)

(** The events of [onWalletCreateFinishCore] in a log. *)
Definition page_events (tr : list FlowEvent) : list Event :=
  omap (fun e => match e with Page p => Some p | _ => None end) tr.

(** What is asked of the device, in order: the probe and the calls of
    [onWalletCreateFinishCore]. *)
Inductive DeviceRequest : Type :=
| Probe (index : option Z) (chain : SupportedChainName)
        (standard : DerivationPathStandard) (display : bool)
| Derive (c : DeviceCall).

Definition device_requests (tr : list FlowEvent) : list DeviceRequest :=
  omap (fun e => match e with
                 | GetPubKey index chain standard display =>
                     Some (Probe index chain standard display)
                 | Page (EvDeviceCall c) => Some (Derive c)
                 | _ => None
                 end) tr.

(** The notifications shown. *)
Definition notices (tr : list FlowEvent) : list Notice :=
  omap (fun e => match e with NotificationError n => Some n | _ => None end) tr.

(** The time spent in timers of the handlers themselves. *)
Definition timeouts (tr : list FlowEvent) : N :=
  fold_right N.add 0%N
    (omap (fun e => match e with SetTimeout ms => Some ms | _ => None end) tr).

Definition start : FlowState := {| flowWaitFlag := false; flowLog := [] |}.

End CreateFlow.

(** ** A page whose device answers the probe *)
Module FlowScenario.
Import Create CreateFlow.

Definition readyDevice : FlowWorld :=
  {| page := Scenario.ledgerWorld;
     getPubKey := fun _ _ _ _ => Ok tt;
     detectConditionsError := fun _ => false |}.

End FlowScenario.

(** ** Facts about the monad *)

Lemma find_split {A} (p : A -> bool) (l : list A) (x : A) :
  List.find p l = Some x ->
  exists pre post, l = pre ++ x :: post /\ p x = true /\ Forall (fun y => p y = false) pre.
Proof.
  induction l as [|a l IH]; simpl; [discriminate|].
  destruct (p a) eqn:Hp.
  - intros [= ->]. exists [], l. repeat split; auto.
  - intros H. destruct (IH H) as (pre & post & -> & Hx & Hpre).
    exists (a :: pre), post. repeat split; auto.
Qed.

Lemma find_none_Forall {A} (p : A -> bool) (l : list A) :
  List.find p l = None -> Forall (fun y => p y = false) l.
Proof.
  induction l as [|a l IH]; simpl; [constructor|].
  destruct (p a) eqn:Hp; [discriminate|]. intros H. constructor; auto.
Qed.

(** ** Properties of CroMarketApi *)
Module MarketApiFacts.
Import MarketApi.

Section Facts.
Context (cfg : TokenConfig) (js : JsRuntime) (net : Net).

(** *** The exchange-rate call *)

Lemma getCryptoToFiatRate_ok cryptoSymbol fiatCurrency s rate :
  fst (getCryptoToFiatRateFromCoinbase net cryptoSymbol fiatCurrency s) = Ok rate <->
  exists resp body,
    net_exchangeRates net (length (requests s)) cryptoSymbol = Ok resp /\
    status resp = 200%nat /\
    data resp = Some body /\
    cb_currency body = cryptoSymbol /\
    cb_rates body !! fiatCurrency = Some rate.
Proof.
  unfold getCryptoToFiatRateFromCoinbase, log. run.
  destruct (net_exchangeRates net (length (requests s)) cryptoSymbol) as [resp|e]; simpl.
  - destruct (Nat.eqb_spec (status resp) 200) as [Hs|Hs]; simpl.
    + destruct (data resp) as [body|] eqn:Hd; simpl.
      * case_bool_decide as Hc; simpl.
        -- destruct (cb_rates body !! fiatCurrency) as [r|] eqn:Hr; simpl.
           ++ split.
              ** intros [= ->]. exists resp, body. auto.
              ** intros (resp' & body' & [= <-] & _ & Hd' & _ & Hr').
                 rewrite Hd in Hd'. injection Hd' as <-. congruence.
           ++ split; [discriminate|].
              intros (resp' & body' & [= <-] & _ & Hd' & _ & Hr').
              rewrite Hd in Hd'. injection Hd' as <-. congruence.
        -- split; [discriminate|].
           intros (resp' & body' & [= <-] & _ & Hd' & Hc' & _).
           rewrite Hd in Hd'. injection Hd' as <-. contradiction.
      * split; [discriminate|].
        intros (resp' & body' & [= <-] & _ & Hd' & _). congruence.
    + split; [discriminate|].
      intros (resp' & body' & [= <-] & Hs' & _). contradiction.
  - split; [discriminate|]. intros (resp' & body' & Hn & _). discriminate.
Qed.

(** *** What each method does to the stores *)

Lemma logged_refl P s : logged P s s.
Proof. exists []. split; [by rewrite app_nil_r | constructor]. Qed.

Lemma logged_trans P s1 s2 s3 : logged P s1 s2 -> logged P s2 s3 -> logged P s1 s3.
Proof.
  intros (n1 & H1 & F1) (n2 & H2 & F2). exists (n1 ++ n2). split.
  - rewrite H2, H1. by rewrite app_assoc.
  - apply Forall_app; auto.
Qed.

Lemma logged_weaken (P Q : Request -> Prop) s s' :
  (forall r, P r -> Q r) -> logged P s s' -> logged Q s s'.
Proof.
  intros H (n & Hn & F). exists n. split; [done|].
  eapply Forall_impl; eauto.
Qed.

Lemma loadTokenSlugMap_unfold s :
  loadTokenSlugMap net s =
  match tokenSlugMap s with
  | Some (i :: m) => (Ok (i :: m), s)
  | _ =>
      let s1 := {| TokenSlugMap := TokenSlugMap s; tokenSlugMap := tokenSlugMap s;
                   requests := requests s ++ [ReqAllTokens] |} in
      match net_allTokens net (length (requests s)) with
      | Throw e => (Throw e, s1)
      | Ok resp =>
          if negb (status resp =? 200)%nat || (length (data resp) <? 1)%nat
          then (Throw (Error_ "Could not fetch Token Slug list."), s1)
          else (Ok (data resp),
                {| TokenSlugMap := TokenSlugMap s; tokenSlugMap := Some (data resp);
                   requests := requests s ++ [ReqAllTokens] |})
      end
  end.
Proof.
  unfold loadTokenSlugMap, log. destruct s as [cache memo reqs]. run.
  destruct memo as [[|i m]|]; simpl; [| reflexivity |];
    (destruct (net_allTokens net (length reqs)) as [resp|e]; [|reflexivity];
     simpl; by destruct (negb (status resp =? 200)%nat || (length (data resp) <? 1)%nat)).
Qed.

Lemma loadTokenSlugMap_effect s :
  TokenSlugMap (snd (loadTokenSlugMap net s)) = TokenSlugMap s /\
  logged is_directory_request s (snd (loadTokenSlugMap net s)).
Proof.
  rewrite loadTokenSlugMap_unfold.
  assert (Hone : forall m, logged is_directory_request s
            {| TokenSlugMap := TokenSlugMap s; tokenSlugMap := m;
               requests := requests s ++ [ReqAllTokens] |}).
  { intros m. exists [ReqAllTokens]. split; [done|]. by repeat constructor. }
  assert (Hfetch :
    let r := match net_allTokens net (length (requests s)) with
      | Throw e => (Throw e, {| TokenSlugMap := TokenSlugMap s; tokenSlugMap := tokenSlugMap s;
                                requests := requests s ++ [ReqAllTokens] |})
      | Ok resp =>
          if negb (status resp =? 200)%nat || (length (data resp) <? 1)%nat
          then (Throw (Error_ "Could not fetch Token Slug list."),
                {| TokenSlugMap := TokenSlugMap s; tokenSlugMap := tokenSlugMap s;
                   requests := requests s ++ [ReqAllTokens] |})
          else (Ok (data resp),
                {| TokenSlugMap := TokenSlugMap s; tokenSlugMap := Some (data resp);
                   requests := requests s ++ [ReqAllTokens] |})
      end in
    TokenSlugMap (snd r) = TokenSlugMap s /\ logged is_directory_request s (snd r)).
  { destruct (net_allTokens net (length (requests s))) as [resp|e]; simpl.
    - destruct (negb (status resp =? 200)%nat || (length (data resp) <? 1)%nat); simpl;
        (split; [done | apply Hone]).
    - split; [done | apply Hone]. }
  destruct (tokenSlugMap s) as [[|i m]|]; simpl in *; auto.
  split; [done | apply logged_refl].
Qed.

(** A directory that [loadTokenSlugMap] returns is never empty. *)
Lemma loadTokenSlugMap_nonempty s dir s1 :
  loadTokenSlugMap net s = (Ok dir, s1) -> dir <> [].
Proof.
  rewrite loadTokenSlugMap_unfold.
  assert (Hfetch :
    match net_allTokens net (length (requests s)) with
      | Throw e => (Throw e, {| TokenSlugMap := TokenSlugMap s; tokenSlugMap := tokenSlugMap s;
                                requests := requests s ++ [ReqAllTokens] |})
      | Ok resp =>
          if negb (status resp =? 200)%nat || (length (data resp) <? 1)%nat
          then (Throw (Error_ "Could not fetch Token Slug list."),
                {| TokenSlugMap := TokenSlugMap s; tokenSlugMap := tokenSlugMap s;
                   requests := requests s ++ [ReqAllTokens] |})
          else (Ok (data resp),
                {| TokenSlugMap := TokenSlugMap s; tokenSlugMap := Some (data resp);
                   requests := requests s ++ [ReqAllTokens] |})
      end = (Ok dir, s1) -> dir <> []).
  { destruct (net_allTokens net (length (requests s))) as [resp|e]; [|discriminate].
    destruct (Nat.ltb_spec (length (data resp)) 1) as [Hl|Hl].
    - rewrite orb_true_r. discriminate.
    - rewrite orb_false_r. destruct (negb (status resp =? 200)%nat); [discriminate|].
      intros [= <- _]. destruct (data resp); simpl in *; [lia | discriminate]. }
  destruct (tokenSlugMap s) as [[|i m]|]; simpl in *; auto.
  intros [= <- _]. discriminate.
Qed.

Lemma issueTokenRequests_effect l s :
  exists inflight,
    issueTokenRequests net l s =
    (Ok inflight,
     {| TokenSlugMap := TokenSlugMap s; tokenSlugMap := tokenSlugMap s;
        requests := requests s ++ token_requests l |}) /\
    length inflight = length l.
Proof.
  revert s. induction l as [|i l IH]; intros s.
  - exists []. simpl. unfold ret. rewrite app_nil_r. by destruct s.
  - simpl. unfold log. run.
    destruct (IH {| TokenSlugMap := TokenSlugMap s; tokenSlugMap := tokenSlugMap s;
                    requests := requests s ++ [ReqToken (si_slug i)] |})
      as (v & Hv & Hlen).
    rewrite Hv. simpl. eexists. split.
    + by rewrite <- app_assoc.
    + simpl. by rewrite Hlen.
Qed.

Lemma fetchTokenPrices_effect l s :
  snd (fetchTokenPrices net l s) =
  {| TokenSlugMap := TokenSlugMap s; tokenSlugMap := tokenSlugMap s;
     requests := requests s ++ token_requests l |}.
Proof.
  unfold fetchTokenPrices. run.
  destruct (issueTokenRequests_effect l s) as (v & -> & _). reflexivity.
Qed.

Lemma token_requests_Forall l : Forall is_token_request (token_requests l).
Proof. unfold token_requests. apply Forall_map, Forall_forall. intros i _. by eexists. Qed.

Lemma fetchTokenPrices_logged l s :
  TokenSlugMap (snd (fetchTokenPrices net l s)) = TokenSlugMap s /\
  tokenSlugMap (snd (fetchTokenPrices net l s)) = tokenSlugMap s /\
  logged is_token_request s (snd (fetchTokenPrices net l s)).
Proof.
  rewrite fetchTokenPrices_effect. simpl. repeat split.
  exists (token_requests l). split; [done | apply token_requests_Forall].
Qed.

Lemma getCryptoToFiatRate_effect cryptoSymbol fiatCurrency s :
  snd (getCryptoToFiatRateFromCoinbase net cryptoSymbol fiatCurrency s) =
  {| TokenSlugMap := TokenSlugMap s; tokenSlugMap := tokenSlugMap s;
     requests := requests s ++ [ReqExchangeRates cryptoSymbol] |}.
Proof.
  unfold getCryptoToFiatRateFromCoinbase, log. run.
  destruct (net_exchangeRates net (length (requests s)) cryptoSymbol) as [resp|e];
    simpl; [|done].
  destruct (negb (status resp =? 200)%nat); simpl; [done|].
  destruct (data resp) as [body|]; simpl; [|done].
  case_bool_decide; simpl; [|done].
  by destruct (cb_rates body !! fiatCurrency).
Qed.

(** *** What [fetchTokenPrices] returns *)

Lemma insert_by_time_perm {A} t (a : A) l : insert_by_time t a l ≡ₚ (t, a) :: l.
Proof.
  induction l as [|[t' a'] l IH]; simpl; [done|].
  destruct (t <? t')%nat; [done|]. rewrite IH. apply Permutation_swap.
Qed.

Lemma completion_order_perm {A} (l : list (nat * A)) : completion_order l ≡ₚ map snd l.
Proof.
  unfold completion_order.
  assert (H : forall acc,
    fold_left (fun acc p => insert_by_time (fst p) (snd p) acc) l acc ≡ₚ l ++ acc).
  { induction l as [|[t a] l IH]; intros acc; simpl; [done|].
    rewrite IH, insert_by_time_perm. simpl. by rewrite Permutation_middle. }
  rewrite (H []), app_nil_r. done.
Qed.

Lemma all_settled_Ok {A} (l : list (Result A)) v : all_settled l = Ok v -> l = map Ok v.
Proof.
  revert v. induction l as [|[a|e] l IH]; intros v; simpl.
  - by intros [= <-].
  - destruct (all_settled l) as [v'|e]; [|discriminate].
    intros [= <-]. simpl. f_equal. by apply IH.
  - discriminate.
Qed.

Lemma issueTokenRequests_results l s :
  fst (issueTokenRequests net l s) =
  Ok (imap (fun i slugInfo =>
              (net_latency net (length (requests s) + i),
               net_token net (length (requests s) + i) (si_slug slugInfo))) l).
Proof.
  revert s. induction l as [|x l IH]; intros s; [reflexivity|].
  simpl. unfold log, bind at 1. simpl. unfold bind at 1.
  specialize (IH {| TokenSlugMap := TokenSlugMap s; tokenSlugMap := tokenSlugMap s;
                    requests := requests s ++ [ReqToken (si_slug x)] |}).
  destruct (issueTokenRequests net l _) as [[v|e] s']; simpl in IH; [|discriminate].
  injection IH as ->. simpl. rewrite Nat.add_0_r. do 2 f_equal.
  apply imap_ext. intros i y _. simpl. rewrite length_app. simpl.
  by replace (length (requests s) + 1 + i) with (length (requests s) + S i) by lia.
Qed.

(** The records [fetchTokenPrices] returns are the responses to the
    requests for the candidates, one for each, in some order. *)
Lemma fetchTokenPrices_responses l s tokenPriceResponses s2 :
  fetchTokenPrices net l s = (Ok tokenPriceResponses, s2) ->
  map Ok tokenPriceResponses ≡ₚ
  imap (fun i slugInfo => net_token net (length (requests s) + i) (si_slug slugInfo)) l.
Proof.
  unfold fetchTokenPrices, bind, settle.
  pose proof (issueTokenRequests_results l s) as Hres.
  destruct (issueTokenRequests net l s) as [[inflight|e] s']; simpl in Hres; [|discriminate].
  injection Hres as ->. intros [= Hall <-].
  apply all_settled_Ok in Hall. rewrite <- Hall, completion_order_perm.
  change (map snd) with (fmap (M:=list) (@snd nat (Result (AxiosResponse CryptoTokenPriceAPIResponse)))).
  by rewrite fmap_imap.
Qed.

(** The steps of [getTokenPriceFromCryptoCom], sub-call by sub-call. *)
Lemma getTokenPriceFromCryptoCom_unfold asset fiatCurrency s :
  getTokenPriceFromCryptoCom cfg js net asset fiatCurrency s =
  match loadTokenSlugMap net s with
  | (Throw e, s1) => (Throw e, s1)
  | (Ok allTokensSlugMap, s1) =>
      match fetchTokenPrices net (candidates asset allTokensSlugMap) s1 with
      | (Throw e, s2) => (Throw e, s2)
      | (Ok tokenPriceResponses, s2) =>
          match List.find (fun token => supported cfg asset (data token)) tokenPriceResponses with
          | None =>
              (Throw (Error_ ("Couldn't find a valid slug name for " ++ mainnetSymbol asset)), s2)
          | Some tokenPriceInUSD =>
              if negb (status tokenPriceInUSD =? 200)%nat
              then (Throw (Error_ "Could not fetch token price."), s2)
              else if bool_decide (fiatCurrency = "USD")
              then (Ok (String_ js (usd_price_change_24h (data tokenPriceInUSD)),
                        String_of_number js
                          (js_mul js (Number js (usd_price (data tokenPriceInUSD)))
                                     (Number_of_string js "1"))), s2)
              else
                match getCryptoToFiatRateFromCoinbase net "USD" fiatCurrency s2 with
                | (Throw e, s3) => (Throw e, s3)
                | (Ok rate, s3) =>
                    (Ok (String_ js (usd_price_change_24h (data tokenPriceInUSD)),
                         String_of_number js
                           (js_mul js (Number js (usd_price (data tokenPriceInUSD)))
                                      (Number js rate))), s3)
                end
          end
      end
  end.
Proof.
  unfold getTokenPriceFromCryptoCom, getFiatToFiatRate. unfold bind at 1.
  destruct (loadTokenSlugMap net s) as [[dir|e] s1]; [|done].
  unfold bind at 1.
  destruct (fetchTokenPrices net (candidates asset dir) s1) as [[resps|e] s2]; [|done].
  destruct (List.find _ resps) as [tok|]; [|done].
  destruct (negb (status tok =? 200)%nat); [done|].
  case_bool_decide; [done|].
  unfold bind at 1.
  by destruct (getCryptoToFiatRateFromCoinbase net "USD" fiatCurrency s2) as [[rate|e] s3].
Qed.

(** [getAssetPrice] is [getTokenPriceFromCryptoCom] with its exception
    turned into the empty record. *)
Lemma getAssetPrice_unfold asset currency s :
  getAssetPrice cfg js net asset currency s =
  match getTokenPriceFromCryptoCom cfg js net asset currency s with
  | (Ok tokenPrice, s') =>
      (Ok {| assetSymbol := mainnetSymbol asset; currency := currency;
             dailyChange := fst tokenPrice; price := snd tokenPrice;
             priceAssetType := assetType asset |}, s')
  | (Throw _, s') => (Ok (emptyPrice asset currency), s')
  end.
Proof.
  unfold getAssetPrice. run.
  by destruct (getTokenPriceFromCryptoCom cfg js net asset currency s) as [[tp|e] s'].
Qed.

(** The steps of [getTokenSlug], sub-call by sub-call. *)
Lemma getTokenSlug_unfold asset s :
  getTokenSlug cfg net asset s =
  match TokenSlugMap s !! identifier asset with
  | Some (String c r) => (Ok (Some (String c r)), s)
  | _ =>
      match loadTokenSlugMap net s with
      | (Throw e, s1) => (Throw e, s1)
      | (Ok allTokensSlugMap, s1) =>
          match fetchTokenPrices net (candidates asset allTokensSlugMap) s1 with
          | (Throw e, s2) => (Throw e, s2)
          | (Ok responses, s2) =>
              match List.find (supported cfg asset) (map data responses) with
              | None => (Ok None, s2)
              | Some tokenPriceInUSD =>
                  match slug tokenPriceInUSD with
                  | EmptyString => (Ok None, s2)
                  | String c r =>
                      (Ok (Some (String c r)),
                       with_cache (<[identifier asset := String c r]> (TokenSlugMap s2)) s2)
                  end
              end
          end
      end
  end.
Proof.
  unfold getTokenSlug. unfold bind at 1, get at 1.
  assert (Hmiss :
    (let! allTokensSlugMap := loadTokenSlugMap net in
     let tokenSlugInfo := candidates asset allTokensSlugMap in
     let! responses := fetchTokenPrices net tokenSlugInfo in
     let tokenPriceResponses := map data responses in
     match List.find (supported cfg asset) tokenPriceResponses with
     | Some tokenPriceInUSD =>
         match slug tokenPriceInUSD with
         | EmptyString => ret None
         | String c r =>
             modify (fun s => {| TokenSlugMap := <[identifier asset := String c r]> (TokenSlugMap s);
                                 tokenSlugMap := tokenSlugMap s;
                                 requests := requests s |}) ;;;
             ret (Some (String c r))
         end
     | None => ret None
     end) s =
    match loadTokenSlugMap net s with
    | (Throw e, s1) => (Throw e, s1)
    | (Ok allTokensSlugMap, s1) =>
        match fetchTokenPrices net (candidates asset allTokensSlugMap) s1 with
        | (Throw e, s2) => (Throw e, s2)
        | (Ok responses, s2) =>
            match List.find (supported cfg asset) (map data responses) with
            | None => (Ok None, s2)
            | Some tokenPriceInUSD =>
                match slug tokenPriceInUSD with
                | EmptyString => (Ok None, s2)
                | String c r =>
                    (Ok (Some (String c r)),
                     with_cache (<[identifier asset := String c r]> (TokenSlugMap s2)) s2)
                end
            end
        end
    end).
  { unfold bind at 1.
    destruct (loadTokenSlugMap net s) as [[dir|e] s1]; [|done].
    unfold bind at 1.
    destruct (fetchTokenPrices net (candidates asset dir) s1) as [[resps|e] s2]; [|done].
    destruct (List.find _ (map data resps)) as [tok|]; [|done].
    by destruct (slug tok). }
  destruct (TokenSlugMap s !! identifier asset) as [[|c r]|]; auto.
Qed.

(** A cached, non-empty slug is returned as it is and nothing else happens:
    no request is sent and no store changes. *)
Lemma getTokenSlug_cache_hit asset s cachedSlug :
  TokenSlugMap s !! identifier asset = Some cachedSlug ->
  cachedSlug <> "" ->
  getTokenSlug cfg net asset s = (Ok (Some cachedSlug), s).
Proof.
  intros Hc Hne. rewrite getTokenSlug_unfold, Hc. by destruct cachedSlug.
Qed.

(** *** Methods that do not look at the cache *)

Lemma loadTokenSlugMap_with_cache m s :
  loadTokenSlugMap net (with_cache m s) =
  (fst (loadTokenSlugMap net s), with_cache m (snd (loadTokenSlugMap net s))).
Proof.
  rewrite !loadTokenSlugMap_unfold. destruct s as [cache memo reqs]. simpl.
  destruct memo as [[|i l]|]; simpl; [| reflexivity |];
    (destruct (net_allTokens net (length reqs)) as [resp|e]; [|reflexivity];
     by destruct (negb (status resp =? 200)%nat || (length (data resp) <? 1)%nat)).
Qed.

Lemma issueTokenRequests_with_cache m l s :
  issueTokenRequests net l (with_cache m s) =
  (fst (issueTokenRequests net l s), with_cache m (snd (issueTokenRequests net l s))).
Proof.
  revert s. induction l as [|i l IH]; intros s; [reflexivity|].
  simpl. unfold log, bind at 1 3 5. simpl.
  unfold bind at 1 2 3.
  specialize (IH {| TokenSlugMap := TokenSlugMap s; tokenSlugMap := tokenSlugMap s;
                    requests := requests s ++ [ReqToken (si_slug i)] |}).
  unfold with_cache in IH at 1. simpl in IH. rewrite IH.
  destruct (issueTokenRequests net l
              {| TokenSlugMap := TokenSlugMap s; tokenSlugMap := tokenSlugMap s;
                 requests := requests s ++ [ReqToken (si_slug i)] |}) as [[v|e] s'];
    reflexivity.
Qed.

Lemma fetchTokenPrices_with_cache m l s :
  fetchTokenPrices net l (with_cache m s) =
  (fst (fetchTokenPrices net l s), with_cache m (snd (fetchTokenPrices net l s))).
Proof.
  unfold fetchTokenPrices, bind. rewrite issueTokenRequests_with_cache.
  by destruct (issueTokenRequests net l s) as [[v|e] s'].
Qed.

Lemma getCryptoToFiatRate_with_cache m cryptoSymbol fiatCurrency s :
  getCryptoToFiatRateFromCoinbase net cryptoSymbol fiatCurrency (with_cache m s) =
  (fst (getCryptoToFiatRateFromCoinbase net cryptoSymbol fiatCurrency s),
   with_cache m (snd (getCryptoToFiatRateFromCoinbase net cryptoSymbol fiatCurrency s))).
Proof.
  unfold getCryptoToFiatRateFromCoinbase, log. run.
  destruct (net_exchangeRates net (length (requests s)) cryptoSymbol) as [resp|e];
    simpl; [|done].
  destruct (negb (status resp =? 200)%nat); simpl; [done|].
  destruct (data resp) as [body|]; simpl; [|done].
  case_bool_decide; simpl; [|done].
  by destruct (cb_rates body !! fiatCurrency).
Qed.

Lemma getTokenPriceFromCryptoCom_with_cache m asset fiatCurrency s :
  getTokenPriceFromCryptoCom cfg js net asset fiatCurrency (with_cache m s) =
  (fst (getTokenPriceFromCryptoCom cfg js net asset fiatCurrency s),
   with_cache m (snd (getTokenPriceFromCryptoCom cfg js net asset fiatCurrency s))).
Proof.
  rewrite !getTokenPriceFromCryptoCom_unfold, loadTokenSlugMap_with_cache.
  destruct (loadTokenSlugMap net s) as [[dir|e] s1]; simpl; [|done].
  rewrite fetchTokenPrices_with_cache.
  destruct (fetchTokenPrices net (candidates asset dir) s1) as [[resps|e] s2]; simpl; [|done].
  destruct (List.find _ resps) as [tok|]; [|done].
  destruct (negb (status tok =? 200)%nat); [done|].
  case_bool_decide; [done|].
  rewrite getCryptoToFiatRate_with_cache.
  by destruct (getCryptoToFiatRateFromCoinbase net "USD" fiatCurrency s2) as [[rate|e] s3].
Qed.

Lemma getAssetPrice_with_cache m asset currency s :
  getAssetPrice cfg js net asset currency (with_cache m s) =
  (fst (getAssetPrice cfg js net asset currency s),
   with_cache m (snd (getAssetPrice cfg js net asset currency s))).
Proof.
  rewrite !getAssetPrice_unfold, getTokenPriceFromCryptoCom_with_cache.
  by destruct (getTokenPriceFromCryptoCom cfg js net asset currency s) as [[tp|e] s'].
Qed.

Lemma with_cache_id s : with_cache (TokenSlugMap s) s = s.
Proof. by destruct s. Qed.

(** *** Requests sent on behalf of a price lookup *)

Lemma feed_request_not_exchange_rate r :
  is_feed_request r -> is_exchange_rate_request r = false.
Proof. by intros [->|[x ->]]. Qed.

Lemma getTokenPriceFromCryptoCom_USD_logged asset s :
  logged is_feed_request s (snd (getTokenPriceFromCryptoCom cfg js net asset "USD" s)).
Proof.
  rewrite getTokenPriceFromCryptoCom_unfold.
  destruct (loadTokenSlugMap_effect s) as [_ H1].
  apply (logged_weaken _ is_feed_request) in H1; [|by left].
  destruct (loadTokenSlugMap net s) as [[dir|e] s1]; simpl in *; [|done].
  destruct (fetchTokenPrices_logged (candidates asset dir) s1) as (_ & _ & H2).
  apply (logged_weaken _ is_feed_request) in H2; [|by right].
  pose proof (logged_trans _ _ _ _ H1 H2) as H12.
  destruct (fetchTokenPrices net (candidates asset dir) s1) as [[resps|e] s2];
    simpl in *; [|done].
  destruct (List.find _ resps) as [tok|]; [|done].
  by destruct (negb (status tok =? 200)%nat).
Qed.

(** C1: [getAssetPrice] returns a record for every asset, currency and
    session, never an exception.  The record carries the asset's
    [mainnetSymbol], the requested currency and the asset type; whenever
    [getTokenPriceFromCryptoCom] throws its [price] and [dailyChange] are
    empty, and otherwise they are the computed fiat price and daily change.
    The named causes all end in the empty record: a failed or non-200
    directory fetch, a rejected token fetch, no candidate that matches, a
    winning candidate whose status is not 200, and a failed conversion. *)
Theorem getAssetPrice_never_throws asset requested s :
  (exists record,
      fst (getAssetPrice cfg js net asset requested s) = Ok record /\
      assetSymbol record = mainnetSymbol asset /\
      currency record = requested /\
      priceAssetType record = assetType asset) /\
  (forall e s',
      getTokenPriceFromCryptoCom cfg js net asset requested s = (Throw e, s') ->
      getAssetPrice cfg js net asset requested s = (Ok (emptyPrice asset requested), s')) /\
  (forall change fiatPrice s',
      getTokenPriceFromCryptoCom cfg js net asset requested s = (Ok (change, fiatPrice), s') ->
      getAssetPrice cfg js net asset requested s =
      (Ok {| assetSymbol := mainnetSymbol asset; currency := requested;
             dailyChange := change; price := fiatPrice;
             priceAssetType := assetType asset |}, s')) /\
  (forall e s1,
      loadTokenSlugMap net s = (Throw e, s1) ->
      getAssetPrice cfg js net asset requested s = (Ok (emptyPrice asset requested), s1)) /\
  (forall resp,
      tokenSlugMap s = None ->
      net_allTokens net (length (requests s)) = Ok resp ->
      status resp <> 200%nat ->
      fst (getAssetPrice cfg js net asset requested s) = Ok (emptyPrice asset requested)) /\
  (forall dir s1,
      loadTokenSlugMap net s = (Ok dir, s1) ->
      (forall e s2,
          fetchTokenPrices net (candidates asset dir) s1 = (Throw e, s2) ->
          getAssetPrice cfg js net asset requested s = (Ok (emptyPrice asset requested), s2)) /\
      (forall resps s2,
          fetchTokenPrices net (candidates asset dir) s1 = (Ok resps, s2) ->
          (List.find (fun token => supported cfg asset (data token)) resps = None ->
           getAssetPrice cfg js net asset requested s = (Ok (emptyPrice asset requested), s2)) /\
          (forall tok,
              List.find (fun token => supported cfg asset (data token)) resps = Some tok ->
              (status tok <> 200%nat ->
               getAssetPrice cfg js net asset requested s =
               (Ok (emptyPrice asset requested), s2)) /\
              (forall e s3,
                  status tok = 200%nat ->
                  requested <> "USD" ->
                  getCryptoToFiatRateFromCoinbase net "USD" requested s2 = (Throw e, s3) ->
                  getAssetPrice cfg js net asset requested s =
                  (Ok (emptyPrice asset requested), s3))))).
Proof.
  split; [|split; [|split; [|split; [|split]]]].
  - rewrite getAssetPrice_unfold.
    destruct (getTokenPriceFromCryptoCom cfg js net asset requested s) as [[tp|e] s'];
      eexists; simpl; eauto.
  - intros e s' H. by rewrite getAssetPrice_unfold, H.
  - intros change fiatPrice s' H. by rewrite getAssetPrice_unfold, H.
  - intros e s1 H. by rewrite getAssetPrice_unfold, getTokenPriceFromCryptoCom_unfold, H.
  - intros resp Hmemo Hnet Hst.
    rewrite getAssetPrice_unfold, getTokenPriceFromCryptoCom_unfold, loadTokenSlugMap_unfold.
    rewrite Hmemo, Hnet. simpl.
    destruct (Nat.eqb_spec (status resp) 200) as [|_]; [contradiction|]. reflexivity.
  - intros dir s1 Hload. split.
    + intros e s2 Hfetch.
      by rewrite getAssetPrice_unfold, getTokenPriceFromCryptoCom_unfold, Hload, Hfetch.
    + intros resps s2 Hfetch. split.
      * intros Hfind.
        by rewrite getAssetPrice_unfold, getTokenPriceFromCryptoCom_unfold,
          Hload, Hfetch, Hfind.
      * intros tok Hfind. split.
        -- intros Hst.
           rewrite getAssetPrice_unfold, getTokenPriceFromCryptoCom_unfold,
             Hload, Hfetch, Hfind.
           destruct (Nat.eqb_spec (status tok) 200) as [|_]; [contradiction|]. reflexivity.
        -- intros e s3 Hst Hcur Hrate.
           rewrite getAssetPrice_unfold, getTokenPriceFromCryptoCom_unfold,
             Hload, Hfetch, Hfind, Hst, Hrate.
           simpl. by rewrite bool_decide_eq_false_2.
Qed.

(** C8: a price lookup in USD sends requests to the primary feed only, the
    directory and the token endpoints, and none to the exchange-rate
    source.  Whenever a candidate is selected and its answer has status
    200, the lookup returns the price
    [String(Number(usd_price) * Number('1'))] of that candidate, with its
    daily change; in every other case the price is empty.  For any
    currency, an exchange-rate request among the requests of a lookup
    means that the currency is not USD. *)
Theorem getAssetPrice_USD_no_exchange_rate asset s :
  logged (fun r => is_exchange_rate_request r = false) s
         (snd (getAssetPrice cfg js net asset "USD" s)) /\
  (forall dir s1 resps s2 tok,
      loadTokenSlugMap net s = (Ok dir, s1) ->
      fetchTokenPrices net (candidates asset dir) s1 = (Ok resps, s2) ->
      List.find (fun token => supported cfg asset (data token)) resps = Some tok ->
      status tok = 200%nat ->
      getAssetPrice cfg js net asset "USD" s =
      (Ok {| assetSymbol := mainnetSymbol asset; currency := "USD";
             dailyChange := String_ js (usd_price_change_24h (data tok));
             price := String_of_number js
                        (js_mul js (Number js (usd_price (data tok)))
                                   (Number_of_string js "1"));
             priceAssetType := assetType asset |}, s2)) /\
  (fst (getAssetPrice cfg js net asset "USD" s) = Ok (emptyPrice asset "USD") \/
   exists dir s1 resps s2 tok,
     loadTokenSlugMap net s = (Ok dir, s1) /\
     fetchTokenPrices net (candidates asset dir) s1 = (Ok resps, s2) /\
     List.find (fun token => supported cfg asset (data token)) resps = Some tok /\
     status tok = 200%nat /\
     getAssetPrice cfg js net asset "USD" s =
     (Ok {| assetSymbol := mainnetSymbol asset; currency := "USD";
            dailyChange := String_ js (usd_price_change_24h (data tok));
            price := String_of_number js
                       (js_mul js (Number js (usd_price (data tok)))
                                  (Number_of_string js "1"));
            priceAssetType := assetType asset |}, s2)) /\
  (forall currency cryptoSymbol new,
      requests (snd (getAssetPrice cfg js net asset currency s)) = requests s ++ new ->
      ReqExchangeRates cryptoSymbol ∈ new ->
      currency <> "USD").
Proof.
  assert (Hlog : logged (fun r => is_exchange_rate_request r = false) s
                        (snd (getAssetPrice cfg js net asset "USD" s))).
  { rewrite getAssetPrice_unfold.
    pose proof (getTokenPriceFromCryptoCom_USD_logged asset s) as H.
    apply (logged_weaken _ _ _ _ feed_request_not_exchange_rate) in H.
    by destruct (getTokenPriceFromCryptoCom cfg js net asset "USD" s) as [[tp|e] s']. }
  split; [exact Hlog|]. split.
  { intros dir s1 resps s2 tok Hload Hfetch Hfind Hst.
    rewrite getAssetPrice_unfold, getTokenPriceFromCryptoCom_unfold.
    rewrite Hload, Hfetch, Hfind, Hst. reflexivity. }
  split.
  - rewrite getAssetPrice_unfold, getTokenPriceFromCryptoCom_unfold.
    destruct (loadTokenSlugMap net s) as [[dir|e] s1]; [|by left].
    destruct (fetchTokenPrices net (candidates asset dir) s1) as [[resps|e] s2] eqn:Hf;
      [|by left].
    destruct (List.find _ resps) as [tok|] eqn:Hfind; [|by left].
    destruct (Nat.eqb_spec (status tok) 200) as [Hst|Hst]; simpl; [|by left].
    right. exists dir, s1, resps, s2, tok. repeat split; auto.
  - intros currency c new Hreq Hin ->.
    destruct Hlog as (new' & Hreq' & Hall).
    rewrite Hreq in Hreq'. apply app_inv_head in Hreq'. subst new'.
    rewrite Forall_forall in Hall. by specialize (Hall _ Hin).
Qed.

(** C10: [getCryptoToFiatRateFromCoinbase] returns a rate exactly when
    the response has status 200, a body whose [data.currency] is the
    requested symbol, and a rate for the requested fiat currency; in every
    other case it throws.  So a lookup in a currency other than USD can
    end in the empty record although every feed answers with status 200. *)
Theorem getCryptoToFiatRateFromCoinbase_returns_iff cryptoSymbol fiatCurrency s :
  (forall rate,
      fst (getCryptoToFiatRateFromCoinbase net cryptoSymbol fiatCurrency s) = Ok rate <->
      exists resp body,
        net_exchangeRates net (length (requests s)) cryptoSymbol = Ok resp /\
        status resp = 200%nat /\
        data resp = Some body /\
        cb_currency body = cryptoSymbol /\
        cb_rates body !! fiatCurrency = Some rate) /\
  ((forall resp body,
       net_exchangeRates net (length (requests s)) cryptoSymbol = Ok resp ->
       status resp = 200%nat ->
       data resp = Some body ->
       cb_currency body = cryptoSymbol ->
       cb_rates body !! fiatCurrency = None) ->
   exists e, fst (getCryptoToFiatRateFromCoinbase net cryptoSymbol fiatCurrency s) = Throw e) /\
  (exists feed asset currency,
      currency <> "USD" /\
      (forall n, exists r, net_allTokens feed n = Ok r /\ status r = 200%nat) /\
      (forall n x, exists r, net_token feed n x = Ok r /\ status r = 200%nat) /\
      (forall n x, exists r, net_exchangeRates feed n x = Ok r /\ status r = 200%nat) /\
      fst (getAssetPrice cfg js feed asset currency initial) = Ok (emptyPrice asset currency)).
Proof.
  split; [|split].
  - intros rate. apply getCryptoToFiatRate_ok.
  - intros Hnone.
    destruct (fst (getCryptoToFiatRateFromCoinbase net cryptoSymbol fiatCurrency s))
      as [rate|e] eqn:Hr; [|by eexists].
    apply getCryptoToFiatRate_ok in Hr as (resp & body & H1 & H2 & H3 & H4 & H5).
    rewrite (Hnone resp body H1 H2 H3 H4) in H5. discriminate.
  - exists Scenario.feeds, Scenario.croAsset, "GBP".
    split; [done|].
    split; [intros; eexists; split; reflexivity|].
    split; [intros; eexists; split; reflexivity|].
    split; [intros; eexists; split; reflexivity|].
    vm_compute. reflexivity.
Qed.

(** *** The cache *)

Lemma getAssetPrice_cache asset currency s :
  TokenSlugMap (snd (getAssetPrice cfg js net asset currency s)) = TokenSlugMap s.
Proof.
  pose proof (getAssetPrice_with_cache (TokenSlugMap s) asset currency s) as H.
  rewrite with_cache_id in H.
  destruct (getAssetPrice cfg js net asset currency s) as [r s'].
  simpl in *. by injection H as ->.
Qed.

Lemma getTokenPriceFromCryptoCom_cache asset fiatCurrency s :
  TokenSlugMap (snd (getTokenPriceFromCryptoCom cfg js net asset fiatCurrency s)) =
  TokenSlugMap s.
Proof.
  pose proof (getTokenPriceFromCryptoCom_with_cache (TokenSlugMap s) asset fiatCurrency s) as H.
  rewrite with_cache_id in H.
  destruct (getTokenPriceFromCryptoCom cfg js net asset fiatCurrency s) as [r s'].
  simpl in *. by injection H as ->.
Qed.

(** What a run of [getTokenSlug] leaves in the cache. *)
Lemma getTokenSlug_cache asset s :
  match getTokenSlug cfg net asset s with
  | (Ok (Some found), s') =>
      found <> "" /\
      TokenSlugMap s' = <[identifier asset := found]> (TokenSlugMap s) /\
      (TokenSlugMap s !! identifier asset = Some found \/
       exists dir s1 responses s2 tokenPriceInUSD,
         loadTokenSlugMap net s = (Ok dir, s1) /\
         fetchTokenPrices net (candidates asset dir) s1 = (Ok responses, s2) /\
         List.find (supported cfg asset) (map data responses) = Some tokenPriceInUSD /\
         slug tokenPriceInUSD = found)
  | (_, s') => TokenSlugMap s' = TokenSlugMap s
  end.
Proof.
  rewrite getTokenSlug_unfold.
  assert (Hmiss :
    match
      match loadTokenSlugMap net s with
      | (Throw e, s1) => (Throw e, s1)
      | (Ok allTokensSlugMap, s1) =>
          match fetchTokenPrices net (candidates asset allTokensSlugMap) s1 with
          | (Throw e, s2) => (Throw e, s2)
          | (Ok responses, s2) =>
              match List.find (supported cfg asset) (map data responses) with
              | None => (Ok None, s2)
              | Some tokenPriceInUSD =>
                  match slug tokenPriceInUSD with
                  | EmptyString => (Ok None, s2)
                  | String c r =>
                      (Ok (Some (String c r)),
                       with_cache (<[identifier asset := String c r]> (TokenSlugMap s2)) s2)
                  end
              end
          end
      end
    with
    | (Ok (Some found), s') =>
        found <> "" /\
        TokenSlugMap s' = <[identifier asset := found]> (TokenSlugMap s) /\
        (TokenSlugMap s !! identifier asset = Some found \/
         exists dir s1 responses s2 tokenPriceInUSD,
           loadTokenSlugMap net s = (Ok dir, s1) /\
           fetchTokenPrices net (candidates asset dir) s1 = (Ok responses, s2) /\
           List.find (supported cfg asset) (map data responses) = Some tokenPriceInUSD /\
           slug tokenPriceInUSD = found)
    | (_, s') => TokenSlugMap s' = TokenSlugMap s
    end).
  { destruct (loadTokenSlugMap_effect s) as [H1 _].
    destruct (loadTokenSlugMap net s) as [[dir|e] s1] eqn:Hload; simpl in H1; [|done].
    destruct (fetchTokenPrices_logged (candidates asset dir) s1) as (H2 & _ & _).
    destruct (fetchTokenPrices net (candidates asset dir) s1) as [[resps|e] s2] eqn:Hfetch;
      simpl in H2; [|congruence].
    destruct (List.find _ (map data resps)) as [tok|] eqn:Hfind; [|congruence].
    destruct (slug tok) as [|c r] eqn:Hslug; [congruence|].
    split; [done|]. split; [simpl; congruence|].
    right. exists dir, s1, resps, s2, tok. by rewrite Hfetch. }
  destruct (TokenSlugMap s !! identifier asset) as [[|c r]|] eqn:Hc; try exact Hmiss.
  split; [done|]. split; [|by left]. by rewrite insert_id.
Qed.

Lemma getTokenPrices_cache asset fiatCurrency interval s :
  TokenSlugMap (snd (getTokenPrices cfg net asset fiatCurrency interval s)) =
  TokenSlugMap (snd (getTokenSlug cfg net asset s)).
Proof.
  unfold getTokenPrices, log. unfold bind at 1.
  destruct (getTokenSlug cfg net asset s) as [[[found|]|e] s']; try done.
  run.
  destruct (net_prices net (length (requests s')) interval found fiatCurrency) as [resp|e];
    simpl; [|done].
  destruct (negb (status resp =? 200)%nat); simpl; [done|].
  destruct (data resp) as [body|]; simpl; [|done].
  by destruct (prices body).
Qed.

(** An entry with a non-empty slug is never removed or replaced. *)
Lemma getTokenSlug_keeps asset s k v :
  TokenSlugMap s !! k = Some v -> v <> "" ->
  TokenSlugMap (snd (getTokenSlug cfg net asset s)) !! k = Some v.
Proof.
  intros Hk Hv.
  destruct (decide (k = identifier asset)) as [->|Hne].
  - by rewrite (getTokenSlug_cache_hit asset s v).
  - pose proof (getTokenSlug_cache asset s) as H.
    destruct (getTokenSlug cfg net asset s) as [[[found|]|e] s']; simpl;
      try (by rewrite H).
    destruct H as (_ & -> & _). by rewrite lookup_insert_ne.
Qed.

Lemma perform_keeps c s k v :
  TokenSlugMap s !! k = Some v -> v <> "" ->
  TokenSlugMap (perform cfg js net c s) !! k = Some v.
Proof.
  intros Hk Hv. destruct c; simpl.
  - by rewrite (proj1 (loadTokenSlugMap_effect s)).
  - by rewrite getAssetPrice_cache.
  - rewrite getTokenPrices_cache. by apply getTokenSlug_keeps.
  - by rewrite getTokenPriceFromCryptoCom_cache.
  - by rewrite getCryptoToFiatRate_effect.
Qed.

Lemma getTokenSlug_nonempty asset s :
  (forall k v, TokenSlugMap s !! k = Some v -> v <> "") ->
  forall k v, TokenSlugMap (snd (getTokenSlug cfg net asset s)) !! k = Some v -> v <> "".
Proof.
  intros Hinv k v.
  pose proof (getTokenSlug_cache asset s) as H.
  destruct (getTokenSlug cfg net asset s) as [[[found|]|e] s']; simpl;
    try (rewrite H; by apply Hinv).
  destruct H as (Hne & -> & _).
  destruct (decide (identifier asset = k)) as [->|Hk].
  - rewrite lookup_insert_eq. by intros [= <-].
  - rewrite lookup_insert_ne by done. apply Hinv.
Qed.

Lemma reachable_nonempty s :
  reachable cfg js net s -> forall k v, TokenSlugMap s !! k = Some v -> v <> "".
Proof.
  induction 1 as [|c s Hr IH];
    [intros k v H; simpl in H; by rewrite lookup_empty in H|].
  destruct c; simpl.
  - by rewrite (proj1 (loadTokenSlugMap_effect s)).
  - by rewrite getAssetPrice_cache.
  - rewrite getTokenPrices_cache. by apply getTokenSlug_nonempty.
  - by rewrite getTokenPriceFromCryptoCom_cache.
  - by rewrite getCryptoToFiatRate_effect.
Qed.

(** C9: [getTokenSlug] stores [identifier -> slug] only for a slug it
    returns, which is non-empty and is either the entry already cached or
    the slug of the winning candidate; when it returns null or throws the
    cache is left as it was, so the identifier has no usable entry and the
    next call resolves again.  Every entry of the cache of a session is a
    non-empty slug, no call of the class removes or replaces an entry, and
    for a cached identifier [getTokenSlug] returns the entry without
    sending a request. *)
Theorem getTokenSlug_caches_only_winners asset s :
  match getTokenSlug cfg net asset s with
  | (Ok (Some found), s') =>
      found <> "" /\
      TokenSlugMap s' = <[identifier asset := found]> (TokenSlugMap s) /\
      (TokenSlugMap s !! identifier asset = Some found \/
       exists dir s1 responses s2 tokenPriceInUSD,
         loadTokenSlugMap net s = (Ok dir, s1) /\
         fetchTokenPrices net (candidates asset dir) s1 = (Ok responses, s2) /\
         List.find (supported cfg asset) (map data responses) = Some tokenPriceInUSD /\
         slug tokenPriceInUSD = found) /\
      (forall later,
          TokenSlugMap later !! identifier asset = Some found ->
          getTokenSlug cfg net asset later = (Ok (Some found), later))
  | (_, s') =>
      TokenSlugMap s' = TokenSlugMap s /\
      (forall cached, TokenSlugMap s' !! identifier asset = Some cached -> cached = "")
  end /\
  (reachable cfg js net s ->
   forall k v, TokenSlugMap s !! k = Some v -> v <> "") /\
  (forall c k v,
      TokenSlugMap s !! k = Some v -> v <> "" ->
      TokenSlugMap (perform cfg js net c s) !! k = Some v).
Proof.
  split; [|split; [apply reachable_nonempty | intros c k v; apply perform_keeps]].
  pose proof (getTokenSlug_cache asset s) as H.
  destruct (getTokenSlug cfg net asset s) as [[[found|]|e] s'] eqn:Hrun.
  - destruct H as (Hne & Hc & Hw). repeat split; auto.
    intros later Hl. by apply getTokenSlug_cache_hit.
  - split; [done|]. intros cached Hc. rewrite H in Hc.
    destruct cached as [|c r]; [done|].
    by rewrite (getTokenSlug_cache_hit asset s (String c r)) in Hrun.
  - split; [done|]. intros cached Hc. rewrite H in Hc.
    destruct cached as [|c r]; [done|].
    by rewrite (getTokenSlug_cache_hit asset s (String c r)) in Hrun.
Qed.

(** C5 (amended): for an asset whose identifier has a non-empty slug in
    the cache, [getTokenSlug] returns that slug and sends no request at
    all, neither for the directory nor for a candidate: the session is
    left exactly as it was.  [getTokenPrices], which resolves through
    [getTokenSlug], then sends its price request only.  [getAssetPrice]
    resolves through [getTokenPriceFromCryptoCom]: it never reads or
    writes the cache, so its requests are the same with and without a
    cached slug. *)
Theorem cached_slug_sends_no_request asset s cachedSlug :
  TokenSlugMap s !! identifier asset = Some cachedSlug ->
  cachedSlug <> "" ->
  getTokenSlug cfg net asset s = (Ok (Some cachedSlug), s) /\
  (forall fiatCurrency interval,
      requests (snd (getTokenPrices cfg net asset fiatCurrency interval s)) =
      requests s ++ [ReqPrices interval cachedSlug fiatCurrency]) /\
  (forall currency m,
      getAssetPrice cfg js net asset currency (with_cache m s) =
      (fst (getAssetPrice cfg js net asset currency s),
       with_cache m (snd (getAssetPrice cfg js net asset currency s)))).
Proof.
  intros Hc Hne. split; [by apply getTokenSlug_cache_hit|]. split.
  - intros fiatCurrency interval.
    unfold getTokenPrices, log. unfold bind at 1.
    rewrite (getTokenSlug_cache_hit asset s cachedSlug Hc Hne). run.
    destruct (net_prices net (length (requests s)) interval cachedSlug fiatCurrency)
      as [resp|e]; simpl; [|done].
    destruct (negb (status resp =? 200)%nat); simpl; [done|].
    destruct (data resp) as [body|]; simpl; [|done].
    by destruct (prices body).
  - intros currency m. apply getAssetPrice_with_cache.
Qed.

(** *** Candidate selection *)

Lemma includes_spec {A} `{EqDecision A} (l : list A) (x : A) :
  includes l x = true <-> x ∈ l.
Proof. unfold includes. apply bool_decide_eq_true. Qed.

Lemma supported_qualifies asset token :
  supported cfg asset token = true <-> qualifies cfg asset token.
Proof.
  unfold supported, qualifies, nativeTokenSlug, tags_or_empty.
  rewrite !orb_true_iff, !andb_true_iff, !includes_spec, !bool_decide_eq_true.
  rewrite !elem_of_cons, elem_of_nil.
  destruct (tags token) as [t|].
  - split.
    + intros [[[H|H]|H]|H]; [left; tauto | right; left; tauto | | right; right; right; tauto].
      right; right; left. split; [tauto|]. exists t. tauto.
    + intros [H|[H|[[H (t' & [= <-] & Ht)]|H]]]; tauto.
  - rewrite elem_of_nil. split.
    + intros [[[H|H]|H]|H]; tauto.
    + intros [H|[H|[[H (t' & Ht & _)]|H]]]; [tauto | tauto | discriminate | tauto].
Qed.

Lemma find_first_match {A} (p : A -> bool) (P : A -> Prop) (l : list A) :
  (forall x, p x = true <-> P x) -> first_match P l (List.find p l).
Proof.
  intros Hp.
  assert (Hnot : forall y, p y = false -> ~ P y).
  { intros y Hy HP. apply Hp in HP. congruence. }
  destruct (List.find p l) as [x|] eqn:Hf; simpl.
  - apply find_split in Hf as (pre & post & -> & Hx & Hpre).
    exists pre, post. repeat split; [|by apply Hp].
    eapply Forall_impl; eauto.
  - apply find_none_Forall in Hf. eapply Forall_impl; eauto.
Qed.

(** C6: in [getTokenSlug] and in [getTokenPriceFromCryptoCom] the
    candidate that wins is the first of the fetched records that qualifies
    under (a) a native slug, (b) a CRC-20 asset with a whitelisted symbol,
    (c) a CRC-20 asset with the cronos-ecosystem tag, or (d) an ERC-20
    asset with a whitelisted upper-cased symbol; the fetched records are
    the responses to the requests for the candidates, in the order of their
    arrival.  A record without a tag list is judged as one with the empty
    list.  A record with a whitelisted symbol qualifies for a CRC-20 asset
    whatever its slug and tags are, so that with such a record among the
    fetched ones a candidate is selected and [getTokenSlug] returns a
    slug. *)
Theorem candidate_selection asset s dir s1 :
  loadTokenSlugMap net s = (Ok dir, s1) ->
  (forall token, supported cfg asset token = true <-> qualifies cfg asset token) /\
  (forall token, tags token = None ->
      supported cfg asset token =
      supported cfg asset
        {| slug := slug token; tp_symbol := tp_symbol token; usd_price := usd_price token;
           usd_price_change_24h := usd_price_change_24h token; tags := Some [] |}) /\
  (forall responses s2,
      fetchTokenPrices net (candidates asset dir) s1 = (Ok responses, s2) ->
      (forall cached, TokenSlugMap s !! identifier asset = Some cached -> cached = "") ->
      map Ok responses ≡ₚ
        imap (fun i slugInfo => net_token net (length (requests s1) + i) (si_slug slugInfo))
             (candidates asset dir) /\
      exists winner,
        first_match (qualifies cfg asset) (map data responses) winner /\
        getTokenSlug cfg net asset s =
        match winner with
        | None => (Ok None, s2)
        | Some tokenPriceInUSD =>
            match slug tokenPriceInUSD with
            | EmptyString => (Ok None, s2)
            | String c r =>
                (Ok (Some (String c r)),
                 with_cache (<[identifier asset := String c r]> (TokenSlugMap s2)) s2)
            end
        end) /\
  (forall fiatCurrency tokenPriceResponses s2,
      fetchTokenPrices net (candidates asset dir) s1 = (Ok tokenPriceResponses, s2) ->
      map Ok tokenPriceResponses ≡ₚ
        imap (fun i slugInfo => net_token net (length (requests s1) + i) (si_slug slugInfo))
             (candidates asset dir) /\
      exists winner,
        first_match (fun token => qualifies cfg asset (data token)) tokenPriceResponses winner /\
        getTokenPriceFromCryptoCom cfg js net asset fiatCurrency s =
        match winner with
        | None =>
            (Throw (Error_ ("Couldn't find a valid slug name for " ++ mainnetSymbol asset)), s2)
        | Some tokenPriceInUSD =>
            if negb (status tokenPriceInUSD =? 200)%nat
            then (Throw (Error_ "Could not fetch token price."), s2)
            else if bool_decide (fiatCurrency = "USD")
            then (Ok (String_ js (usd_price_change_24h (data tokenPriceInUSD)),
                      String_of_number js
                        (js_mul js (Number js (usd_price (data tokenPriceInUSD)))
                                   (Number_of_string js "1"))), s2)
            else
              match getCryptoToFiatRateFromCoinbase net "USD" fiatCurrency s2 with
              | (Throw e, s3) => (Throw e, s3)
              | (Ok rate, s3) =>
                  (Ok (String_ js (usd_price_change_24h (data tokenPriceInUSD)),
                       String_of_number js
                         (js_mul js (Number js (usd_price (data tokenPriceInUSD)))
                                    (Number js rate))), s3)
              end
        end) /\
  (assetType asset = CRC_20_TOKEN ->
   forall token,
     tp_symbol token ∈ CRC20MainnetTokenInfos_keys cfg ->
     qualifies cfg asset token /\
     (forall fetched,
         token ∈ fetched ->
         exists tokenPriceInUSD,
           List.find (supported cfg asset) fetched = Some tokenPriceInUSD) /\
     (forall responses s2,
         fetchTokenPrices net (candidates asset dir) s1 = (Ok responses, s2) ->
         token ∈ map data responses ->
         (forall record, record ∈ map data responses -> slug record <> "") ->
         exists found, found <> "" /\ fst (getTokenSlug cfg net asset s) = Ok (Some found))).
Proof.
  intros Hload.
  split; [apply supported_qualifies|].
  split; [intros token Ht; unfold supported, tags_or_empty; by rewrite Ht|].
  split; [|split].
  - intros responses s2 Hfetch Hmiss.
    split; [by apply fetchTokenPrices_responses in Hfetch|].
    exists (List.find (supported cfg asset) (map data responses)).
    split; [apply find_first_match, supported_qualifies|].
    rewrite getTokenSlug_unfold, Hload, Hfetch.
    destruct (TokenSlugMap s !! identifier asset) as [[|c r]|] eqn:Hc; try done.
    by specialize (Hmiss _ eq_refl).
  - intros fiatCurrency resps s2 Hfetch.
    split; [by apply fetchTokenPrices_responses in Hfetch|].
    exists (List.find (fun token => supported cfg asset (data token)) resps).
    split; [apply find_first_match; intros x; apply supported_qualifies|].
    by rewrite getTokenPriceFromCryptoCom_unfold, Hload, Hfetch.
  - intros Hcrc token Hsym.
    assert (Hq : qualifies cfg asset token) by (right; left; done).
    assert (Hsel : forall fetched, token ∈ fetched ->
              exists tok, List.find (supported cfg asset) fetched = Some tok).
    { intros fetched Hin.
      destruct (List.find (supported cfg asset) fetched) as [tok|] eqn:Hf; [by eexists|].
      apply find_none_Forall in Hf. rewrite Forall_forall in Hf.
      specialize (Hf _ Hin). apply supported_qualifies in Hq. congruence. }
    split; [done|]. split; [exact Hsel|].
    intros responses s2 Hfetch Hin Hslugs.
    destruct (Hsel _ Hin) as (tok & Htok).
    assert (Htokin : tok ∈ map data responses).
    { apply find_some in Htok as [H _]. by apply list_elem_of_In. }
    specialize (Hslugs _ Htokin).
    rewrite getTokenSlug_unfold, Hload, Hfetch, Htok.
    destruct (slug tok) as [|c r] eqn:Hs; [done|].
    destruct (TokenSlugMap s !! identifier asset) as [[|c' r']|]; simpl; eexists; split;
      try reflexivity; discriminate.
Qed.

End Facts.

(** *** Runs on the example feeds *)

Section Examples.
Context (cfg : TokenConfig) (js : JsRuntime).

(** The CRO asset priced in USD: the directory and the two candidates of
    symbol CRO are fetched, the native slug wins. *)
Example getAssetPrice_CRO_USD :
  getAssetPrice cfg js Scenario.feeds Scenario.croAsset "USD" initial =
  (Ok {| assetSymbol := "CRO"; currency := "USD";
         dailyChange := String_of_number js (Number_of_string js "0.01");
         price := String_of_number js
                    (js_mul js (Number_of_string js "0.08") (Number_of_string js "1"));
         priceAssetType := TENDERMINT |},
   {| TokenSlugMap := ∅;
      tokenSlugMap := Some Scenario.directory;
      requests := [ReqAllTokens; ReqToken "crypto-com-coin"; ReqToken "cro-clone"] |}).
Proof. vm_compute. reflexivity. Qed.

Example getAssetPrice_CRO_EUR :
  getAssetPrice cfg js Scenario.feeds Scenario.croAsset "EUR" initial =
  (Ok {| assetSymbol := "CRO"; currency := "EUR";
         dailyChange := String_of_number js (Number_of_string js "0.01");
         price := String_of_number js
                    (js_mul js (Number_of_string js "0.08") (Number_of_string js "0.9"));
         priceAssetType := TENDERMINT |},
   {| TokenSlugMap := ∅;
      tokenSlugMap := Some Scenario.directory;
      requests := [ReqAllTokens; ReqToken "crypto-com-coin"; ReqToken "cro-clone";
                   ReqExchangeRates "USD"] |}).
Proof. vm_compute. reflexivity. Qed.

End Examples.

(** The candidate whose response arrives first is the first in
    [tokenPriceResponses]. *)
Example getTokenSlug_first_arrived :
  fst (getTokenSlug Scenario.someTokens Scenario.racingFeeds Scenario.vvsAsset initial) =
  Ok (Some "vvs-clone").
Proof. vm_compute. reflexivity. Qed.

(** A resolution that finds no candidate is not cached and the next call
    resolves again. *)
Example getTokenSlug_retries :
  let first := getTokenSlug Scenario.someTokens Scenario.flakyFeeds Scenario.vvsAsset initial in
  let second := getTokenSlug Scenario.someTokens Scenario.flakyFeeds Scenario.vvsAsset
                  (snd first) in
  fst first = Ok None /\
  TokenSlugMap (snd first) = ∅ /\
  fst second = Ok (Some "vvs-finance") /\
  requests (snd second) = [ReqAllTokens; ReqToken "vvs-finance"; ReqToken "vvs-finance"].
Proof. repeat split; vm_compute; reflexivity. Qed.

Example toUpperCase_usdt : toUpperCase "usdt" = "USDT".
Proof. reflexivity. Qed.

(** *** The theorems at work on the example feeds *)

(** The cached session of the examples satisfies the hypotheses of
    [cached_slug_sends_no_request]. *)
Lemma cached_slug_sends_no_request_witness :
  TokenSlugMap Scenario.cachedSession !! identifier Scenario.croAsset = Some "crypto-com-coin" /\
  getTokenSlug Scenario.someTokens Scenario.feeds Scenario.croAsset Scenario.cachedSession =
  (Ok (Some "crypto-com-coin"), Scenario.cachedSession).
Proof.
  split; [vm_compute; reflexivity|].
  apply (cached_slug_sends_no_request Scenario.someTokens Scenario.symbolic Scenario.feeds
           Scenario.croAsset Scenario.cachedSession "crypto-com-coin");
    [vm_compute; reflexivity | discriminate].
Defined.

(** C5, as stated, fails: with the slug of the asset in the cache,
    [getAssetPrice] still fetches the directory and every candidate. *)
Lemma getAssetPrice_fetches_despite_cached_slug :
  TokenSlugMap Scenario.cachedSession !! identifier Scenario.croAsset = Some "crypto-com-coin" /\
  requests Scenario.cachedSession = [] /\
  requests (snd (getAssetPrice Scenario.someTokens Scenario.symbolic Scenario.feeds
                   Scenario.croAsset "USD" Scenario.cachedSession)) =
  [ReqAllTokens; ReqToken "crypto-com-coin"; ReqToken "cro-clone"].
Proof. repeat split; vm_compute; reflexivity. Qed.

(** With the example directory loaded, the VVS asset (CRC-20, whitelisted
    symbol, no native slug, no tags) selects its only candidate. *)
Lemma candidate_selection_witness :
  loadTokenSlugMap Scenario.feeds initial = (Ok Scenario.directory, Scenario.loadedSession) /\
  exists found,
    found <> "" /\
    fst (getTokenSlug Scenario.someTokens Scenario.feeds Scenario.vvsAsset initial) =
    Ok (Some found).
Proof.
  split; [vm_compute; reflexivity|].
  refine (proj2 (proj2 (proj2 (proj2 (proj2 (proj2
    (candidate_selection Scenario.someTokens Scenario.symbolic Scenario.feeds
       Scenario.vvsAsset initial Scenario.directory Scenario.loadedSession _))))
    eq_refl (Scenario.tokenOf "vvs-finance") _))
    [mkResp 200 (Scenario.tokenOf "vvs-finance")] _ _ _ _).
  - vm_compute; reflexivity.
  - vm_compute. set_solver.
  - vm_compute; reflexivity.
  - set_solver.
  - intros record Hin. apply list_elem_of_singleton in Hin. by subst record.
Defined.

End MarketApiFacts.

(** ** Properties of the Ledger branch of wallet creation *)
Module CreateFacts.
Import Create.

Section Facts.
Context (world : World).

(** *** The polling loop *)

Lemma polls_le fires from n : polls fires from n <= n.
Proof.
  revert from. induction n as [|n IH]; intros from; simpl; [lia|].
  destruct (fires from); [lia|]. specialize (IH (S from)). lia.
Qed.

Lemma polls_pos fires from n : 0 < n -> 1 <= polls fires from n.
Proof. destruct n; simpl; [lia|]. destruct (fires from); lia. Qed.

(** The loop ends before its last iteration only after a delay during
    which a handler fired. *)
Lemma polls_early fires from n :
  polls fires from n < n -> fires (from + polls fires from n - 1) = true.
Proof.
  revert from. induction n as [|n IH]; intros from; simpl; [lia|].
  destruct (fires from) eqn:Hf.
  - intros _. by replace (from + 1 - 1) with from by lia.
  - intros H. specialize (IH (S from)).
    replace (from + S (polls fires (S from) n) - 1)
      with (S from + polls fires (S from) n - 1); [apply IH; lia|].
    pose proof (polls_pos fires (S from) n). lia.
Qed.

(** No handler fired during the delays before the last one. *)
Lemma polls_quiet fires from n j :
  j + 1 < polls fires from n -> fires (from + j) = false.
Proof.
  revert from j. induction n as [|n IH]; intros from j; simpl; [lia|].
  destruct (fires from) eqn:Hf; [lia|].
  intros H. destruct j as [|j]; [by rewrite Nat.add_0_r|].
  replace (from + S j) with (S from + j) by lia. apply IH. lia.
Qed.

Lemma polls_exhausted fires from n :
  (forall j, j < n -> fires (from + j) = false) -> polls fires from n = n.
Proof.
  revert from. induction n as [|n IH]; intros from H; simpl; [done|].
  rewrite <- (Nat.add_0_r from) at 1. rewrite (H 0) by lia.
  f_equal. apply IH. intros j Hj.
  replace (S from + j) with (from + S j) by lia. apply H. lia.
Qed.

Lemma pollWaitFlag_run n s :
  waitFlag s = true ->
  pollWaitFlag world n s =
  (Ok tt,
   {| waitFlag := poll_flag (handlerFires world) (awaits s) n;
      awaits := polls (handlerFires world) (awaits s) n + awaits s;
      createdWallet := createdWallet s;
      events := events s ++ repeat (EvDelay 100%N) (polls (handlerFires world) (awaits s) n) |}).
Proof.
  revert s. induction n as [|n IH]; intros s Hflag; simpl.
  - unfold ret. destruct s; simpl in *. by rewrite Hflag, app_nil_r.
  - unfold delay, emit, suspend. run. rewrite Hflag. simpl.
    destruct (handlerFires world (awaits s)); simpl; [done|].
    rewrite IH by done. simpl. f_equal. f_equal; [lia|].
    by rewrite <- app_assoc.
Qed.

(** *** The Ledger branch, case by case

    What [ledgerDerivation] returns, the wallet object it leaves and the
    events it logs, by the answers of the device.  [k1] and [k2] are the
    numbers of polls of the two waits. *)
Lemma ledgerDerivation_outcome standard s cw :
  createdWallet s = Some cw ->
  let w := wallet cw in
  let k1 := polls (handlerFires world) (S (awaits s)) 600 in
  let k2 := polls (handlerFires world) (S (S (k1 + S (awaits s)))) 600 in
  let leaf r draft evs :=
    exists flag n,
      ledgerDerivation world standard s =
      (r, {| waitFlag := flag; awaits := n; createdWallet := Some draft;
             events := events s ++ evs |}) in
  match answer world (croCall w) with
  | Throw e => leaf (Throw e) cw (cro_events world w)
  | Ok a1 =>
      match assign_first isCroAsset a1 (assets cw) with
      | None => leaf (Throw undefinedAddress) cw (cro_events world w)
      | Some assets1 =>
          let w1 := set_walletAddress a1 w in
          let evs2 := cro_events world w ++ eth_events world w1 standard k1 in
          match answer world (ethCall w1 standard) with
          | Throw e => leaf (Throw e) {| wallet := w1; assets := assets1 |} evs2
          | Ok a2 =>
              let assets2 := assign_all isEvmAsset a2 assets1 in
              let evs3 := evs2 ++ cosmos_events world w1 k2 in
              match answer world (cosmosCall w1) with
              | Throw e => leaf (Throw e) {| wallet := w1; assets := assets2 |} evs3
              | Ok a3 =>
                  match assign_first isAtomAsset a3 assets2 with
                  | None =>
                      leaf (Throw undefinedAddress) {| wallet := w1; assets := assets2 |} evs3
                  | Some assets3 => leaf (Ok tt) {| wallet := w1; assets := assets3 |} evs3
                  end
              end
          end
      end
  end.
Proof.
  intros Hd. unfold ledgerDerivation, cro_events, eth_events, cosmos_events, settled.
  set (n := 600). clearbody n. cbv zeta.
  unfold deviceCall, assignFirst, assignAll, overrideMainAddress,
    readDraft, writeDraft, setWaitFlag, delay, emit, suspend, undefinedAddress.
  run. rewrite Hd. simpl.
  destruct (getAddress world _ _ CRYPTO_ORG _ _) as [a1|e] eqn:H1; simpl;
    [|eexists _, _; by rewrite <- !app_assoc].
  destruct (assign_first isCroAsset a1 (assets cw)) as [assets1|] eqn:H2; simpl;
    [|eexists _, _; by rewrite <- !app_assoc].
  rewrite pollWaitFlag_run by done. simpl.
  destruct (getEthAddress world _ _ _) as [a2|e] eqn:H3; simpl;
    [|eexists _, _; by rewrite <- !app_assoc].
  rewrite pollWaitFlag_run by done. simpl.
  destruct (getAddress world _ _ COSMOS_HUB _ _) as [a3|e] eqn:H4; simpl;
    [|eexists _, _; by rewrite <- !app_assoc].
  destruct (assign_first isAtomAsset a3 _) as [assets3|] eqn:H5; simpl;
    eexists _, _; by rewrite <- !app_assoc.
Qed.

(** *** The whole of [onWalletCreateFinishCore] for a Ledger wallet

    The wallet object and the log at the end of
    [onWalletCreateFinishCore], by the answers of the device and of the
    storage.  The function itself always returns. *)
Lemma finish_ledger_outcome form flag cw :
  creates world form cw ->
  walletType (wallet cw) = LEDGER_WALLET_TYPE ->
  exists createOptions,
    let standard := form_derivationPathStandard form in
    let w := wallet cw in
    let k1 := polls (handlerFires world) 2 600 in
    let k2 := polls (handlerFires world) (S (S (k1 + 2))) 600 in
    let final draft evs :=
      exists fl n,
        onWalletCreateFinishCore world form (initial flag) =
        (Ok tt, {| waitFlag := fl; awaits := n; createdWallet := Some draft;
                   events := [EvSet CreateLoading true; EvWalletCreate createOptions] ++ evs |}) in
    match answer world (croCall w) with
    | Throw e => final cw (cro_events world w ++ failure_events e)
    | Ok a1 =>
        match assign_first isCroAsset a1 (assets cw) with
        | None => final cw (cro_events world w ++ failure_events undefinedAddress)
        | Some assets1 =>
            let w1 := set_walletAddress a1 w in
            let evs2 := cro_events world w ++ eth_events world w standard k1 in
            match answer world (ethCall w standard) with
            | Throw e => final {| wallet := w1; assets := assets1 |} (evs2 ++ failure_events e)
            | Ok a2 =>
                let assets2 := assign_all isEvmAsset a2 assets1 in
                let evs3 := evs2 ++ cosmos_events world w k2 in
                match answer world (cosmosCall w) with
                | Throw e =>
                    final {| wallet := w1; assets := assets2 |} (evs3 ++ failure_events e)
                | Ok a3 =>
                    match assign_first isAtomAsset a3 assets2 with
                    | None =>
                        final {| wallet := w1; assets := assets2 |}
                              (evs3 ++ failure_events undefinedAddress)
                    | Some assets3 =>
                        match saveAssets world assets3 with
                        | Ok _ =>
                            final {| wallet := w1; assets := assets3 |}
                                  (evs3 ++ EvSaveAssets assets3 ::
                                        success_events w1 ++ [EvResetFields])
                        | Throw e =>
                            final {| wallet := w1; assets := assets3 |}
                                  (evs3 ++ EvSaveAssets assets3 :: failure_events e)
                        end
                    end
                end
            end
        end
    end.
Proof.
  intros (name & wt & network & selected & Hn & Hne & Hwt & Hnet & Hnete & Hsel & Hcreate)
         Hledger.
  eexists. cbv zeta.
  pose proof (fun s => ledgerDerivation_outcome (form_derivationPathStandard form) s cw) as Hout.
  cbv zeta in Hout.
  set (bound := 600) in *. clearbody bound.
  unfold onWalletCreateFinishCore. rewrite Hn, Hwt, Hnet.
  destruct name as [|c1 name]; [done|]. destruct network as [|c2 network]; [done|].
  rewrite Hsel.
  unfold createAndSave, walletCreate, saveAssetsCall, onCreateError, readDraft, writeDraft,
    emit, suspend.
  set (ld := ledgerDerivation world (form_derivationPathStandard form)) in *.
  unfold initial, bind, ret, throw, get, modify, settle, try_catch. simpl.
  rewrite Hcreate. simpl. rewrite Hledger. simpl.
  match goal with |- context [ld ?s0] => specialize (Hout s0 eq_refl) end.
  unfold failure_events, success_events.
  unfold cro_events, eth_events, cosmos_events, settled, answer,
    croCall, ethCall, cosmosCall in *.
  simpl in Hout |- *.
  destruct (getAddress world _ _ CRYPTO_ORG _ _) as [a1|e];
    [|destruct Hout as (fl & n & ->); simpl; eexists _, _; by rewrite <- ?app_assoc].
  destruct (assign_first isCroAsset a1 (assets cw)) as [assets1|];
    [|destruct Hout as (fl & n & ->); simpl; eexists _, _; by rewrite <- ?app_assoc].
  destruct (getEthAddress world _ _ _) as [a2|e];
    [|destruct Hout as (fl & n & ->); simpl; eexists _, _; by rewrite <- ?app_assoc].
  destruct (getAddress world _ _ COSMOS_HUB _ _) as [a3|e];
    [|destruct Hout as (fl & n & ->); simpl; eexists _, _; by rewrite <- ?app_assoc].
  destruct (assign_first isAtomAsset a3 _) as [assets3|];
    [|destruct Hout as (fl & n & ->); simpl; eexists _, _; by rewrite <- ?app_assoc].
  destruct Hout as (fl & n & ->). simpl.
  destruct (saveAssets world assets3) as [[]|e]; simpl;
    eexists _, _; by rewrite <- ?app_assoc.
Qed.

(** *** Reading the log of a run *)

Lemma device_calls_app l1 l2 :
  device_calls (l1 ++ l2) = device_calls l1 ++ device_calls l2.
Proof. apply omap_app. Qed.

Lemma saved_app l1 l2 : saved (l1 ++ l2) = saved l1 ++ saved l2.
Proof. apply omap_app. Qed.

Lemma device_calls_delays k : device_calls (repeat (EvDelay 100%N) k) = [].
Proof. induction k; simpl; auto. Qed.

Lemma saved_delays k : saved (repeat (EvDelay 100%N) k) = [].
Proof. induction k; simpl; auto. Qed.

Lemma device_calls_cro w : device_calls (cro_events world w) = [croCall w].
Proof. reflexivity. Qed.

Lemma device_calls_eth w standard k :
  device_calls (eth_events world w standard k) = [ethCall w standard].
Proof.
  unfold eth_events. change (EvSet IsEthModalVisible true :: ?l) with ([EvSet IsEthModalVisible true] ++ l).
  by rewrite !device_calls_app, device_calls_delays.
Qed.

Lemma device_calls_cosmos w k : device_calls (cosmos_events world w k) = [cosmosCall w].
Proof.
  unfold cosmos_events. by rewrite !device_calls_app, device_calls_delays.
Qed.

Lemma saved_cro w : saved (cro_events world w) = [].
Proof. reflexivity. Qed.

Lemma saved_eth w standard k : saved (eth_events world w standard k) = [].
Proof.
  unfold eth_events. change (EvSet IsEthModalVisible true :: ?l) with ([EvSet IsEthModalVisible true] ++ l).
  by rewrite !saved_app, saved_delays.
Qed.

Lemma saved_cosmos w k : saved (cosmos_events world w k) = [].
Proof. unfold cosmos_events. by rewrite !saved_app, saved_delays. Qed.

Lemma one_in_flight_delays k r :
  one_in_flight None r -> one_in_flight None (repeat (EvDelay 100%N) k ++ r).
Proof. induction k; simpl; auto. Qed.

Lemma one_in_flight_cro w r :
  one_in_flight None r -> one_in_flight None (cro_events world w ++ r).
Proof. simpl. auto. Qed.

Lemma one_in_flight_eth w standard k r :
  one_in_flight None r -> one_in_flight None (eth_events world w standard k ++ r).
Proof.
  intros H. unfold eth_events. simpl. rewrite <- app_assoc.
  apply one_in_flight_delays. simpl. auto.
Qed.

Lemma one_in_flight_cosmos w k r :
  one_in_flight None r -> one_in_flight None (cosmos_events world w k ++ r).
Proof.
  intros H. unfold cosmos_events. simpl. rewrite <- app_assoc.
  apply one_in_flight_delays. simpl. auto.
Qed.

Lemma one_in_flight_start opts r :
  one_in_flight None r ->
  one_in_flight None ([EvSet CreateLoading true; EvWalletCreate opts] ++ r).
Proof. simpl. auto. Qed.

Lemma one_in_flight_failure e : one_in_flight None (failure_events e).
Proof. simpl. auto. Qed.

Lemma assign_first_None p addr l :
  assign_first p addr l = None <-> first_asset p l = None.
Proof.
  unfold first_asset. induction l as [|a l IH]; simpl; [done|].
  destruct (p a); [done|].
  destruct (assign_first p addr l); split; intros H; try done.
  - by apply IH in H.
  - by apply IH.
Qed.

Lemma settlements_app l1 l2 : settlements (l1 ++ l2) = settlements l1 ++ settlements l2.
Proof. apply omap_app. Qed.

Lemma settlements_delays k : settlements (repeat (EvDelay 100%N) k) = [].
Proof. induction k; simpl; auto. Qed.

Lemma settlements_cro w :
  settlements (cro_events world w) = [(croCall w, answer world (croCall w))].
Proof. reflexivity. Qed.

Lemma settlements_eth w standard k :
  settlements (eth_events world w standard k) =
  [(ethCall w standard, answer world (ethCall w standard))].
Proof.
  unfold eth_events.
  change (EvSet IsEthModalVisible true :: ?l) with ([EvSet IsEthModalVisible true] ++ l).
  by rewrite !settlements_app, settlements_delays.
Qed.

Lemma settlements_cosmos w k :
  settlements (cosmos_events world w k) = [(cosmosCall w, answer world (cosmosCall w))].
Proof. unfold cosmos_events. by rewrite !settlements_app, settlements_delays. Qed.

Lemma elem_of_settlements c r tr :
  EvDeviceSettled c r ∈ tr -> (c, r) ∈ settlements tr.
Proof.
  intros H. unfold settlements. apply list_elem_of_omap.
  exists (EvDeviceSettled c r). by split.
Qed.

(** Each step's log ends with the settlement of its device call. *)
Lemma cro_events_last w :
  exists pre, cro_events world w =
              pre ++ [EvDeviceSettled (croCall w) (answer world (croCall w))].
Proof. by exists [EvCreateLedgerDevice; EvDeviceCall (croCall w)]. Qed.

Lemma eth_events_last w standard k :
  exists pre, eth_events world w standard k =
              pre ++ [EvDeviceSettled (ethCall w standard) (answer world (ethCall w standard))].
Proof.
  exists (EvSet IsEthModalVisible true :: repeat (EvDelay 100%N) k ++
          [EvDeviceCall (ethCall w standard)]).
  unfold eth_events, settled. simpl. by rewrite <- app_assoc.
Qed.

Lemma cosmos_events_last w k :
  exists pre, cosmos_events world w k =
              pre ++ [EvDeviceSettled (cosmosCall w) (answer world (cosmosCall w))].
Proof.
  exists ([EvSet IsLedgerEthAppConnected true; EvDelay 3000%N;
           EvSet IsEthModalVisible false; EvSet IsCosmosModalVisible true] ++
          repeat (EvDelay 100%N) k ++
          [EvSet IsLedgerCosmosAppConnected true; EvDeviceCall (cosmosCall w)]).
  unfold cosmos_events, settled. simpl. rewrite <- !app_assoc. reflexivity.
Qed.

(** *** Writing addresses *)

Lemma isCroAsset_stable : stable isCroAsset.
Proof. by intros addr []. Qed.

Lemma isEvmAsset_stable : stable isEvmAsset.
Proof. by intros addr []. Qed.

Lemma isAtomAsset_stable : stable isAtomAsset.
Proof. by intros addr []. Qed.

Lemma assign_first_find p addr l l' :
  stable p ->
  assign_first p addr l = Some l' ->
  exists x, first_asset p l = Some x /\ first_asset p l' = Some (set_address addr x).
Proof.
  intros Hp. unfold first_asset. revert l'.
  induction l as [|a l IH]; intros l'; simpl; [discriminate|].
  destruct (p a) eqn:Ha.
  - intros [= <-]. exists a. simpl. by rewrite Hp, Ha.
  - destruct (assign_first p addr l) as [r|]; [|discriminate].
    intros [= <-]. destruct (IH r eq_refl) as (x & Hx & Hx').
    exists x. simpl. by rewrite Ha.
Qed.

Lemma assign_all_find p q addr l :
  stable p ->
  first_asset p (assign_all q addr l) =
  (fun x => if q x then set_address addr x else x) <$> first_asset p l.
Proof.
  intros Hp. unfold first_asset, assign_all.
  induction l as [|a l IH]; simpl; [done|].
  destruct (q a) eqn:Hq.
  - rewrite Hp. destruct (p a); simpl; [by rewrite Hq | exact IH].
  - destruct (p a); simpl; [by rewrite Hq | exact IH].
Qed.

Lemma assign_first_find_other p q addr l l' x :
  stable p ->
  assign_first q addr l = Some l' ->
  first_asset p l = Some x ->
  q x = false ->
  first_asset p l' = Some x.
Proof.
  intros Hp. unfold first_asset. revert l'.
  induction l as [|a l IH]; intros l'; simpl; [discriminate|].
  destruct (q a) eqn:Hq.
  - intros [= <-]. simpl. rewrite Hp.
    destruct (p a); [|done]. intros [= ->]. congruence.
  - destruct (assign_first q addr l) as [r|]; [|discriminate].
    intros [= <-]. simpl. destruct (p a); [done|]. by apply IH.
Qed.

Lemma elem_of_assign_first q addr l l' x :
  assign_first q addr l = Some l' ->
  x ∈ l' ->
  x ∈ l \/ exists y, y ∈ l /\ q y = true /\ x = set_address addr y.
Proof.
  revert l'. induction l as [|a l IH]; intros l'; simpl; [discriminate|].
  destruct (q a) eqn:Hq.
  - intros [= <-]. rewrite !elem_of_cons. intros [->|H].
    + right. exists a. rewrite elem_of_cons. auto.
    + left. by right.
  - destruct (assign_first q addr l) as [r|]; [|discriminate].
    intros [= <-]. rewrite !elem_of_cons. intros [->|H]; [left; by left|].
    destruct (IH r eq_refl H) as [H'|(y & Hy & Hqy & ->)].
    + left. by right.
    + right. exists y. rewrite elem_of_cons. auto.
Qed.

Lemma elem_of_assign_all q addr l x :
  x ∈ assign_all q addr l ->
  exists y, y ∈ l /\ x = if q y then set_address addr y else y.
Proof.
  unfold assign_all. intros H. apply list_elem_of_fmap in H as (y & -> & Hy). eauto.
Qed.

Lemma first_asset_true p l x : first_asset p l = Some x -> p x = true.
Proof. intros H. by apply find_some in H as [_ H]. Qed.

(** From here on the segments of a log are kept folded. *)
Local Arguments cro_events : simpl never.
Local Arguments eth_events : simpl never.
Local Arguments cosmos_events : simpl never.
Local Arguments failure_events : simpl never.
Local Arguments success_events : simpl never.

(** C2: for a Ledger wallet, the device calls of a run of
    [onWalletCreateFinishCore] are an initial part of: [getAddress] for
    CRYPTO_ORG, [getEthAddress], [getAddress] for COSMOS_HUB, in this order;
    they are exactly these three as soon as the first two calls return and
    the CRO asset exists; and no call is issued while an earlier one has
    not settled. *)
Theorem device_calls_in_order form flag cw :
  creates world form cw ->
  walletType (wallet cw) = LEDGER_WALLET_TYPE ->
  let final := snd (onWalletCreateFinishCore world form (initial flag)) in
  let w := wallet cw in
  let steps :=
    [GetAddress (addressIndex w) (network_addressPrefix (config w)) CRYPTO_ORG
                (derivationPathStandard w) false;
     GetEthAddress (addressIndex w) (form_derivationPathStandard form) false;
     GetAddress (addressIndex w) "cosmos" COSMOS_HUB (derivationPathStandard w) false] in
  device_calls (events final) `prefix_of` steps /\
  one_in_flight None (events final) /\
  (forall a1 a2,
      getAddress world (addressIndex w) (network_addressPrefix (config w)) CRYPTO_ORG
                 (derivationPathStandard w) false = Ok a1 ->
      is_Some (first_asset isCroAsset (assets cw)) ->
      getEthAddress world (addressIndex w) (form_derivationPathStandard form) false = Ok a2 ->
      device_calls (events final) = steps).
Proof.
  intros Hc Hl. cbv zeta.
  destruct (finish_ledger_outcome form flag cw Hc Hl) as (opts & Hout). cbv zeta in Hout.
  set (bound := 600) in *. clearbody bound.
  destruct (answer world (croCall (wallet cw))) as [a1|e] eqn:H1.
  2:{ destruct Hout as (fl & n & ->). cbn [events snd]. split; [|split].
      - rewrite !device_calls_app, device_calls_cro. by eexists [_; _].
      - apply one_in_flight_start, one_in_flight_cro, one_in_flight_failure.
      - intros a1' a2' H. unfold answer, croCall in H1. congruence. }
  destruct (assign_first isCroAsset a1 (assets cw)) as [assets1|] eqn:H2.
  2:{ destruct Hout as (fl & n & ->). cbn [events snd]. split; [|split].
      - rewrite !device_calls_app, device_calls_cro. by eexists [_; _].
      - apply one_in_flight_start, one_in_flight_cro, one_in_flight_failure.
      - intros a1' a2' _ [x Hx]. apply assign_first_None in H2. congruence. }
  destruct (answer world (ethCall _ _)) as [a2|e] eqn:H3.
  2:{ destruct Hout as (fl & n & ->). cbn [events snd]. split; [|split].
      - rewrite !device_calls_app, device_calls_cro, device_calls_eth. by eexists [_].
      - apply one_in_flight_start. rewrite <- app_assoc.
        apply one_in_flight_cro, one_in_flight_eth, one_in_flight_failure.
      - intros a1' a2' _ _ H. unfold answer, ethCall in H3. simpl in H3. congruence. }
  assert (Hcalls : forall k1 k2 r,
    device_calls r = [] ->
    device_calls
      ([EvSet CreateLoading true; EvWalletCreate opts] ++
       ((cro_events world (wallet cw) ++
         eth_events world (wallet cw) (form_derivationPathStandard form) k1) ++
        cosmos_events world (wallet cw) k2) ++ r) =
    [GetAddress (addressIndex (wallet cw)) (network_addressPrefix (config (wallet cw)))
                CRYPTO_ORG (derivationPathStandard (wallet cw)) false;
     GetEthAddress (addressIndex (wallet cw)) (form_derivationPathStandard form) false;
     GetAddress (addressIndex (wallet cw)) "cosmos" COSMOS_HUB
                (derivationPathStandard (wallet cw)) false]).
  { intros k1 k2 r Hr.
    rewrite !device_calls_app, device_calls_cro, device_calls_eth, device_calls_cosmos, Hr.
    reflexivity. }
  assert (Hflight : forall k1 k2 r,
    one_in_flight None r ->
    one_in_flight None
      ([EvSet CreateLoading true; EvWalletCreate opts] ++
       ((cro_events world (wallet cw) ++
         eth_events world (wallet cw) (form_derivationPathStandard form) k1) ++
        cosmos_events world (wallet cw) k2) ++ r)).
  { intros k1 k2 r Hr. apply one_in_flight_start. rewrite <- !app_assoc.
    by apply one_in_flight_cro, one_in_flight_eth, one_in_flight_cosmos. }
  destruct (answer world (cosmosCall _)) as [a3|e] eqn:H4.
  2:{ destruct Hout as (fl & n & ->). cbn [events snd].
      rewrite Hcalls by done. split; [done|]. split; [|done].
      apply Hflight, one_in_flight_failure. }
  destruct (assign_first isAtomAsset a3 _) as [assets3|] eqn:H5.
  2:{ destruct Hout as (fl & n & ->). cbn [events snd].
      rewrite Hcalls by done. split; [done|]. split; [|done].
      apply Hflight, one_in_flight_failure. }
  destruct (saveAssets world assets3) as [[]|e] eqn:H6;
    destruct Hout as (fl & n & ->); cbn [events snd];
    (rewrite Hcalls by done); (split; [done|]); (split; [|done]);
    apply Hflight; simpl; auto.
Qed.

Lemma settlements_start opts r :
  settlements ([EvSet CreateLoading true; EvWalletCreate opts] ++ r) = settlements r.
Proof. reflexivity. Qed.

Lemma settlements_failure e : settlements (failure_events e) = [].
Proof. reflexivity. Qed.

Lemma settlements_saved l w r :
  settlements (EvSaveAssets l :: success_events w ++ r) = settlements r.
Proof. reflexivity. Qed.

Lemma saved_start opts r :
  saved ([EvSet CreateLoading true; EvWalletCreate opts] ++ r) = saved r.
Proof. reflexivity. Qed.

Lemma saved_failure e : saved (failure_events e) = [].
Proof. reflexivity. Qed.

Lemma device_calls_start opts r :
  device_calls ([EvSet CreateLoading true; EvWalletCreate opts] ++ r) = device_calls r.
Proof. reflexivity. Qed.

Lemma device_calls_failure e : device_calls (failure_events e) = [].
Proof. reflexivity. Qed.

(** C3: when the device call [c] of a step has thrown [e], the run has
    not called [saveAssets]; after the settlement of [c] the log holds the
    [catch] block only, so no later device call was issued; and the wallet
    object in memory keeps what the earlier steps wrote.  If [c] is the
    first call nothing was written; if it is the EVM call, the CRO asset
    and the wallet carry the Crypto.org address, the device calls are the
    first two, and the Cosmos Hub call was not made; if it is the Cosmos Hub
    call, the EVM assets carry the Ethereum address as well. *)
Theorem failed_step_stops_run form flag cw c e :
  creates world form cw ->
  walletType (wallet cw) = LEDGER_WALLET_TYPE ->
  let final := snd (onWalletCreateFinishCore world form (initial flag)) in
  let w := wallet cw in
  let standard := form_derivationPathStandard form in
  EvDeviceSettled c (Throw e) ∈ events final ->
  saved (events final) = [] /\
  (exists pre, events final = pre ++ EvDeviceSettled c (Throw e) :: failure_events e) /\
  ((c = croCall w /\
    device_calls (events final) = [croCall w] /\
    createdWallet final = Some cw) \/
   (c = ethCall w standard /\
    device_calls (events final) = [croCall w; ethCall w standard] /\
    exists a1 assets1,
      answer world (croCall w) = Ok a1 /\
      assign_first isCroAsset a1 (assets cw) = Some assets1 /\
      createdWallet final = Some {| wallet := set_walletAddress a1 w; assets := assets1 |}) \/
   (c = cosmosCall w /\
    device_calls (events final) = [croCall w; ethCall w standard; cosmosCall w] /\
    exists a1 assets1 a2,
      answer world (croCall w) = Ok a1 /\
      assign_first isCroAsset a1 (assets cw) = Some assets1 /\
      answer world (ethCall w standard) = Ok a2 /\
      createdWallet final =
      Some {| wallet := set_walletAddress a1 w;
              assets := assign_all isEvmAsset a2 assets1 |})).
Proof.
  intros Hc Hl. cbv zeta.
  destruct (finish_ledger_outcome form flag cw Hc Hl) as (opts & Hout). cbv zeta in Hout.
  set (bound := 600) in *. clearbody bound.
  destruct (answer world (croCall (wallet cw))) as [a1|e1] eqn:H1.
  2:{ destruct Hout as (fl & n & ->). cbn [events createdWallet snd]. intros Hin.
      apply elem_of_settlements in Hin.
      rewrite settlements_start, settlements_app, settlements_cro, settlements_failure, H1 in Hin.
      apply list_elem_of_singleton in Hin. injection Hin as -> ->.
      split; [by rewrite saved_start, saved_app, saved_cro, saved_failure|].
      split.
      - destruct (cro_events_last (wallet cw)) as (pre & ->). rewrite H1.
        exists ([EvSet CreateLoading true; EvWalletCreate opts] ++ pre).
        by rewrite <- !app_assoc.
      - left. split; [done|]. split; [|done].
        by rewrite device_calls_start, device_calls_app, device_calls_cro, device_calls_failure. }
  destruct (assign_first isCroAsset a1 (assets cw)) as [assets1|] eqn:H2.
  2:{ destruct Hout as (fl & n & ->). cbn [events createdWallet snd]. intros Hin.
      apply elem_of_settlements in Hin.
      rewrite settlements_start, settlements_app, settlements_cro, settlements_failure, H1 in Hin.
      apply list_elem_of_singleton in Hin. discriminate. }
  destruct (answer world (ethCall _ _)) as [a2|e2] eqn:H3.
  2:{ destruct Hout as (fl & n & ->). cbn [events createdWallet snd]. intros Hin.
      apply elem_of_settlements in Hin.
      rewrite settlements_start, !settlements_app, settlements_cro, settlements_eth,
        settlements_failure, H1, H3 in Hin.
      simpl in Hin. rewrite !elem_of_cons, elem_of_nil in Hin.
      destruct Hin as [Hin|[Hin|[]]]; [discriminate|]. injection Hin as -> ->.
      split; [by rewrite saved_start, !saved_app, saved_cro, saved_eth, saved_failure|].
      split.
      - destruct (eth_events_last (wallet cw)
                    (form_derivationPathStandard form) (polls (handlerFires world) 2 bound))
          as (pre & ->). rewrite H3.
        exists ([EvSet CreateLoading true; EvWalletCreate opts] ++
                cro_events world (wallet cw) ++ pre).
        by rewrite <- !app_assoc.
      - right; left. split; [done|]. split; [|by exists a1, assets1].
        by rewrite device_calls_start, !device_calls_app, device_calls_cro,
          device_calls_eth, device_calls_failure. }
  destruct (answer world (cosmosCall _)) as [a3|e3] eqn:H4.
  2:{ destruct Hout as (fl & n & ->). cbn [events createdWallet snd]. intros Hin.
      apply elem_of_settlements in Hin.
      rewrite settlements_start, !settlements_app, settlements_cro, settlements_eth,
        settlements_cosmos, settlements_failure, H1, H3, H4 in Hin.
      simpl in Hin. rewrite !elem_of_cons, elem_of_nil in Hin.
      destruct Hin as [Hin|[Hin|[Hin|[]]]]; [discriminate|discriminate|].
      injection Hin as -> ->.
      split; [by rewrite saved_start, !saved_app, saved_cro, saved_eth, saved_cosmos,
                saved_failure|].
      split.
      - destruct (cosmos_events_last (wallet cw)
                    (polls (handlerFires world)
                       (S (S (polls (handlerFires world) 2 bound + 2))) bound))
          as (pre & ->). rewrite H4.
        eexists ([EvSet CreateLoading true; EvWalletCreate opts] ++
                 (cro_events world (wallet cw) ++ eth_events world _ _ _) ++ pre).
        by rewrite <- !app_assoc.
      - right; right. split; [done|]. split; [|by exists a1, assets1, a2].
        by rewrite device_calls_start, !device_calls_app, device_calls_cro,
          device_calls_eth, device_calls_cosmos, device_calls_failure. }
  assert (Hnone : forall k1 k2 r,
    settlements r = [] ->
    EvDeviceSettled c (Throw e) ∈
      [EvSet CreateLoading true; EvWalletCreate opts] ++
      ((cro_events world (wallet cw) ++
        eth_events world (wallet cw) (form_derivationPathStandard form) k1) ++
       cosmos_events world (wallet cw) k2) ++ r ->
    False).
  { intros k1 k2 r Hr Hin. apply elem_of_settlements in Hin.
    rewrite settlements_start, !settlements_app, settlements_cro, settlements_eth,
      settlements_cosmos, Hr, H1, H3, H4 in Hin.
    simpl in Hin. rewrite !elem_of_cons, elem_of_nil in Hin.
    destruct Hin as [Hin|[Hin|[Hin|[]]]]; discriminate. }
  destruct (assign_first isAtomAsset a3 _) as [assets3|] eqn:H5.
  2:{ destruct Hout as (fl & n & ->). cbn [events createdWallet snd]. intros Hin.
      by apply Hnone in Hin. }
  destruct (saveAssets world assets3) as [[]|e6] eqn:H6;
    destruct Hout as (fl & n & ->); cbn [events createdWallet snd]; intros Hin;
    by apply Hnone in Hin.
Qed.

(** C4: when the Ledger branch has run to its end, so that [saveAssets]
    was called with [persisted], the three device calls returned addresses
    and the wallet object holds them: the wallet's own address is the
    Crypto.org address, the CRO Tendermint asset carries the same address,
    every EVM asset carries the Ethereum address and the Cosmos Hub asset
    carries the Cosmos Hub address.  With non-empty device answers all these
    assets have a non-empty address.  The CRO asset and the Cosmos Hub asset
    are the ones the page selects, the first of their kind, and they are
    taken to be different assets. *)
Theorem successful_run_assigns_addresses form flag cw persisted :
  creates world form cw ->
  walletType (wallet cw) = LEDGER_WALLET_TYPE ->
  (forall x, first_asset isCroAsset (assets cw) = Some x -> isAtomAsset x = false) ->
  let final := snd (onWalletCreateFinishCore world form (initial flag)) in
  let w := wallet cw in
  let standard := form_derivationPathStandard form in
  EvSaveAssets persisted ∈ events final ->
  exists croAddress ethAddress cosmosHubAddress draft croAsset atomAsset,
    answer world (croCall w) = Ok croAddress /\
    answer world (ethCall w standard) = Ok ethAddress /\
    answer world (cosmosCall w) = Ok cosmosHubAddress /\
    createdWallet final = Some draft /\
    assets draft = persisted /\
    walletAddress (wallet draft) = croAddress /\
    first_asset isCroAsset persisted = Some croAsset /\
    address croAsset = Some croAddress /\
    (forall asset, asset ∈ persisted -> assetType asset = EVM ->
                   address asset = Some ethAddress) /\
    first_asset isAtomAsset persisted = Some atomAsset /\
    address atomAsset = Some cosmosHubAddress /\
    (croAddress <> "" -> ethAddress <> "" -> cosmosHubAddress <> "" ->
     forall asset,
       asset = croAsset \/ asset = atomAsset \/ (asset ∈ persisted /\ assetType asset = EVM) ->
       nonEmptyAddress asset).
Proof.
  intros Hc Hl Hdistinct. cbv zeta.
  destruct (finish_ledger_outcome form flag cw Hc Hl) as (opts & Hout). cbv zeta in Hout.
  set (bound := 600) in *. clearbody bound.
  assert (Hsaved : forall l, EvSaveAssets persisted ∈ l -> persisted ∈ saved l).
  { intros l H. unfold saved. apply list_elem_of_omap. exists (EvSaveAssets persisted). by split. }
  destruct (answer world (croCall (wallet cw))) as [a1|e1] eqn:H1.
  2:{ destruct Hout as (fl & n & ->). cbn [events createdWallet snd]. intros Hin.
      apply Hsaved in Hin.
      rewrite saved_start, saved_app, saved_cro, saved_failure in Hin.
      by apply elem_of_nil in Hin. }
  destruct (assign_first isCroAsset a1 (assets cw)) as [assets1|] eqn:H2.
  2:{ destruct Hout as (fl & n & ->). cbn [events createdWallet snd]. intros Hin.
      apply Hsaved in Hin.
      rewrite saved_start, saved_app, saved_cro, saved_failure in Hin.
      by apply elem_of_nil in Hin. }
  destruct (answer world (ethCall _ _)) as [a2|e2] eqn:H3.
  2:{ destruct Hout as (fl & n & ->). cbn [events createdWallet snd]. intros Hin.
      apply Hsaved in Hin.
      rewrite saved_start, !saved_app, saved_cro, saved_eth, saved_failure in Hin.
      by apply elem_of_nil in Hin. }
  destruct (answer world (cosmosCall _)) as [a3|e3] eqn:H4.
  2:{ destruct Hout as (fl & n & ->). cbn [events createdWallet snd]. intros Hin.
      apply Hsaved in Hin.
      rewrite saved_start, !saved_app, saved_cro, saved_eth, saved_cosmos, saved_failure in Hin.
      by apply elem_of_nil in Hin. }
  destruct (assign_first isAtomAsset a3 _) as [assets3|] eqn:H5.
  2:{ destruct Hout as (fl & n & ->). cbn [events createdWallet snd]. intros Hin.
      apply Hsaved in Hin.
      rewrite saved_start, !saved_app, saved_cro, saved_eth, saved_cosmos, saved_failure in Hin.
      by apply elem_of_nil in Hin. }
  assert (Hfinal : exists fl n r,
    saved r = [assets3] /\
    onWalletCreateFinishCore world form (initial flag) =
    (Ok tt, {| waitFlag := fl; awaits := n;
               createdWallet := Some {| wallet := set_walletAddress a1 (wallet cw);
                                        assets := assets3 |};
               events := [EvSet CreateLoading true; EvWalletCreate opts] ++
                         ((cro_events world (wallet cw) ++
                           eth_events world (wallet cw) (form_derivationPathStandard form)
                             (polls (handlerFires world) 2 bound)) ++
                          cosmos_events world (wallet cw)
                            (polls (handlerFires world)
                               (S (S (polls (handlerFires world) 2 bound + 2))) bound)) ++
                         r |})).
  { destruct (saveAssets world assets3) as [[]|e6];
      destruct Hout as (fl & n & ->); eexists fl, n, _; (split; [|reflexivity]);
      reflexivity. }
  clear Hout. destruct Hfinal as (fl & n & r & Hr & ->).
  cbn [events createdWallet snd]. intros Hin. apply Hsaved in Hin.
  rewrite saved_start, !saved_app, saved_cro, saved_eth, saved_cosmos, Hr in Hin.
  apply list_elem_of_singleton in Hin. subst persisted.
  (* the CRO asset *)
  destruct (assign_first_find _ _ _ _ isCroAsset_stable H2) as (cro0 & Hcro0 & Hcro1).
  assert (Hcro2 : first_asset isCroAsset (assign_all isEvmAsset a2 assets1) =
                  Some (set_address a1 cro0)).
  { rewrite (assign_all_find _ _ _ _ isCroAsset_stable), Hcro1. simpl.
    rewrite isEvmAsset_stable.
    apply first_asset_true in Hcro0. unfold isCroAsset in Hcro0. unfold isEvmAsset.
    apply andb_true_iff in Hcro0 as [Ht _]. apply bool_decide_eq_true in Ht.
    rewrite Ht. reflexivity. }
  assert (Hcro3 : first_asset isCroAsset assets3 = Some (set_address a1 cro0)).
  { apply (assign_first_find_other _ _ _ _ _ _ isCroAsset_stable H5 Hcro2).
    rewrite isAtomAsset_stable. by apply Hdistinct. }
  (* the Cosmos Hub asset *)
  destruct (assign_first_find _ _ _ _ isAtomAsset_stable H5) as (atom0 & Hatom0 & Hatom1).
  (* the EVM assets *)
  assert (Hevm : forall asset, asset ∈ assets3 -> assetType asset = EVM ->
                               address asset = Some a2).
  { intros asset Hin Hty.
    destruct (elem_of_assign_first _ _ _ _ _ H5 Hin) as [Hin2|(y & Hy & Hqy & ->)].
    - apply elem_of_assign_all in Hin2 as (y & Hy & ->).
      unfold isEvmAsset in *. case_bool_decide as Hq; [done|]. contradiction.
    - unfold isAtomAsset in Hqy. apply andb_true_iff in Hqy as [Ht _].
      apply bool_decide_eq_true in Ht. simpl in Hty. congruence. }
  exists a1, a2, a3, {| wallet := set_walletAddress a1 (wallet cw); assets := assets3 |},
         (set_address a1 cro0), (set_address a3 atom0).
  repeat (split; [done|]).
  intros Hn1 Hn2 Hn3 asset [->|[->|[Hin Hty]]].
  - by exists a1.
  - by exists a3.
  - exists a2. split; [by apply Hevm | done].
Qed.

(** C7: each of the two waits of the Ledger branch performs [k] delays of
    100 milliseconds with [1 <= k <= 600]; it stops before the 600th only
    after a delay during which a handler cleared [waitFlag], and no handler
    ran during the delays before the last one, so the loop ends as soon as
    the flag is cleared; with no handler at all it performs all 600.  In
    either case the log continues with the step's device call, which is
    issued whatever ended the loop. *)
Theorem app_switch_wait_is_bounded form flag cw a1 :
  creates world form cw ->
  walletType (wallet cw) = LEDGER_WALLET_TYPE ->
  answer world (croCall (wallet cw)) = Ok a1 ->
  is_Some (first_asset isCroAsset (assets cw)) ->
  let final := snd (onWalletCreateFinishCore world form (initial flag)) in
  let w := wallet cw in
  let standard := form_derivationPathStandard form in
  let fires := handlerFires world in
  let bounded from k :=
    1 <= k <= 600 /\
    (k < 600 -> fires (from + k - 1) = true) /\
    (forall j, j + 1 < k -> fires (from + j) = false) /\
    ((forall j, j < 600 -> fires (from + j) = false) -> k = 600) in
  let k1 := polls fires 2 600 in
  let k2 := polls fires (k1 + 4) 600 in
  bounded 2 k1 /\
  (exists pre post,
      events final =
      pre ++ EvSet IsEthModalVisible true :: repeat (EvDelay 100%N) k1 ++
             EvDeviceCall (ethCall w standard) :: post) /\
  (forall a2,
      answer world (ethCall w standard) = Ok a2 ->
      bounded (k1 + 4) k2 /\
      exists pre post,
        events final =
        pre ++ EvSet IsCosmosModalVisible true :: repeat (EvDelay 100%N) k2 ++
               EvSet IsLedgerCosmosAppConnected true ::
               EvDeviceCall (cosmosCall w) :: post).
Proof.
  intros Hc Hl H1 Hcro. cbv zeta.
  destruct (finish_ledger_outcome form flag cw Hc Hl) as (opts & Hout). cbv zeta in Hout.
  assert (Hpos : 0 < 600) by lia.
  set (bound := 600) in *. clearbody bound.
  assert (Hbounded : forall from,
    1 <= polls (handlerFires world) from bound <= bound /\
    (polls (handlerFires world) from bound < bound ->
     handlerFires world (from + polls (handlerFires world) from bound - 1) = true) /\
    (forall j, j + 1 < polls (handlerFires world) from bound ->
               handlerFires world (from + j) = false) /\
    ((forall j, j < bound -> handlerFires world (from + j) = false) ->
     polls (handlerFires world) from bound = bound)).
  { intros from. split; [split; [by apply polls_pos | apply polls_le]|].
    split; [apply polls_early|]. split; [apply polls_quiet | apply polls_exhausted]. }
  replace (polls (handlerFires world) 2 bound + 4)
    with (S (S (polls (handlerFires world) 2 bound + 2))) by lia.
  set (k1 := polls (handlerFires world) 2 bound) in *.
  set (k2 := polls (handlerFires world) (S (S (k1 + 2))) bound) in *.
  rewrite H1 in Hout. cbv beta iota in Hout.
  destruct (assign_first isCroAsset a1 (assets cw)) as [assets1|] eqn:H2.
  2:{ apply assign_first_None in H2. destruct Hcro as [x Hx]. congruence. }
  split; [apply Hbounded|].
  assert (Heth : forall r,
    exists pre post,
      [EvSet CreateLoading true; EvWalletCreate opts] ++
      (cro_events world (wallet cw) ++
       eth_events world (wallet cw) (form_derivationPathStandard form) k1) ++ r =
      pre ++ EvSet IsEthModalVisible true :: repeat (EvDelay 100%N) k1 ++
             EvDeviceCall (ethCall (wallet cw) (form_derivationPathStandard form)) :: post).
  { intros r. eexists ([_; _] ++ cro_events world (wallet cw)), _.
    unfold eth_events, settled. rewrite <- !app_assoc. simpl. rewrite <- !app_assoc.
    reflexivity. }
  assert (Hcosmos : forall r,
    exists pre post,
      [EvSet CreateLoading true; EvWalletCreate opts] ++
      ((cro_events world (wallet cw) ++
        eth_events world (wallet cw) (form_derivationPathStandard form) k1) ++
       cosmos_events world (wallet cw) k2) ++ r =
      pre ++ EvSet IsCosmosModalVisible true :: repeat (EvDelay 100%N) k2 ++
             EvSet IsLedgerCosmosAppConnected true ::
             EvDeviceCall (cosmosCall (wallet cw)) :: post).
  { intros r.
    eexists ([_; _] ++ (cro_events world (wallet cw) ++ eth_events world _ _ _) ++ [_; _; _]), _.
    unfold cosmos_events, settled. rewrite <- !app_assoc. simpl. rewrite <- !app_assoc.
    reflexivity. }
  destruct (answer world (ethCall (wallet cw) _)) as [a2|e2] eqn:H3.
  2:{ destruct Hout as (fl & n & ->). cbn [events snd].
      split; [apply Heth | intros; discriminate]. }
  assert (Hboth : forall r,
    (exists pre post,
        [EvSet CreateLoading true; EvWalletCreate opts] ++
        ((cro_events world (wallet cw) ++
          eth_events world (wallet cw) (form_derivationPathStandard form) k1) ++
         cosmos_events world (wallet cw) k2) ++ r =
        pre ++ EvSet IsEthModalVisible true :: repeat (EvDelay 100%N) k1 ++
               EvDeviceCall (ethCall (wallet cw) (form_derivationPathStandard form)) :: post) /\
    (forall a3 : string,
        Ok a2 = Ok a3 ->
        (1 <= k2 <= bound /\
         (k2 < bound -> handlerFires world (S (S (k1 + 2)) + k2 - 1) = true) /\
         (forall j, j + 1 < k2 -> handlerFires world (S (S (k1 + 2)) + j) = false) /\
         ((forall j, j < bound -> handlerFires world (S (S (k1 + 2)) + j) = false) ->
          k2 = bound)) /\
        exists pre post,
          [EvSet CreateLoading true; EvWalletCreate opts] ++
          ((cro_events world (wallet cw) ++
            eth_events world (wallet cw) (form_derivationPathStandard form) k1) ++
           cosmos_events world (wallet cw) k2) ++ r =
          pre ++ EvSet IsCosmosModalVisible true :: repeat (EvDelay 100%N) k2 ++
                 EvSet IsLedgerCosmosAppConnected true ::
                 EvDeviceCall (cosmosCall (wallet cw)) :: post)).
  { intros r. split.
    - rewrite <- (app_assoc _ (cosmos_events world (wallet cw) k2) r). apply Heth.
    - intros a3 _. split; [apply Hbounded | apply Hcosmos]. }
  destruct (answer world (cosmosCall (wallet cw))) as [a3|e3] eqn:H4.
  2:{ destruct Hout as (fl & n & ->). cbn [events snd]. apply Hboth. }
  destruct (assign_first isAtomAsset a3 _) as [assets3|] eqn:H5.
  2:{ destruct Hout as (fl & n & ->). cbn [events snd]. apply Hboth. }
  destruct (saveAssets world assets3) as [[]|e6];
    destruct Hout as (fl & n & ->); cbn [events snd]; apply Hboth.
Qed.

End Facts.

(** *** Runs of the example page *)

Example ledger_run_log :
  events (snd (onWalletCreateFinishCore Scenario.ledgerWorld Scenario.ledgerForm
                 (initial false))) =
  let w := set_walletAddress "cro1ledger" Scenario.ledgerWallet in
  let persisted :=
    [set_address "cro1ledger" Scenario.croAsset; set_address "0xledger" Scenario.cronosAsset;
     set_address "0xledger" Scenario.ethAsset; set_address "cosmos1ledger" Scenario.atomAsset] in
  [EvSet CreateLoading true;
   EvWalletCreate {| co_walletName := "My Ledger"; co_config := Scenario.mainnet;
                     co_walletType := LEDGER_WALLET_TYPE; co_addressIndex := Some 0%Z;
                     co_derivationPathStandard := BIP44 |};
   EvCreateLedgerDevice;
   EvDeviceCall (GetAddress 0 "cro" CRYPTO_ORG BIP44 false);
   EvDeviceSettled (GetAddress 0 "cro" CRYPTO_ORG BIP44 false) (Ok "cro1ledger");
   EvSet IsEthModalVisible true;
   EvDelay 100; EvDelay 100; EvDelay 100;
   EvDeviceCall (GetEthAddress 0 BIP44 false);
   EvDeviceSettled (GetEthAddress 0 BIP44 false) (Ok "0xledger");
   EvSet IsLedgerEthAppConnected true;
   EvDelay 3000;
   EvSet IsEthModalVisible false;
   EvSet IsCosmosModalVisible true;
   EvDelay 100; EvDelay 100; EvDelay 100;
   EvSet IsLedgerCosmosAppConnected true;
   EvDeviceCall (GetAddress 0 "cosmos" COSMOS_HUB BIP44 false);
   EvDeviceSettled (GetAddress 0 "cosmos" COSMOS_HUB BIP44 false) (Ok "cosmos1ledger");
   EvSaveAssets persisted;
   EvSetWalletTempBackupSeed w; EvSetWallet w;
   EvSet CreateLoading false; EvSet IsLedgerCroAppConnected false;
   EvSet IsLedgerEthAppConnected false; EvSet IsLedgerCosmosAppConnected false;
   EvSet IsModalVisible true;
   EvResetFields].
Proof. vm_compute. reflexivity. Qed.

Example eth_app_closed_log :
  events (snd (onWalletCreateFinishCore Scenario.ethAppClosed Scenario.ledgerForm
                 (initial false))) =
  let e := Rejected "Ledger device: UNKNOWN_ERROR (0x6511)" in
  [EvSet CreateLoading true;
   EvWalletCreate {| co_walletName := "My Ledger"; co_config := Scenario.mainnet;
                     co_walletType := LEDGER_WALLET_TYPE; co_addressIndex := Some 0%Z;
                     co_derivationPathStandard := BIP44 |};
   EvCreateLedgerDevice;
   EvDeviceCall (GetAddress 0 "cro" CRYPTO_ORG BIP44 false);
   EvDeviceSettled (GetAddress 0 "cro" CRYPTO_ORG BIP44 false) (Ok "cro1ledger");
   EvSet IsEthModalVisible true;
   EvDelay 100; EvDelay 100; EvDelay 100;
   EvDeviceCall (GetEthAddress 0 BIP44 false);
   EvDeviceSettled (GetEthAddress 0 BIP44 false) (Throw e);
   EvConsoleError e;
   EvSet CreateLoading false; EvSet IsLedgerCroAppConnected false;
   EvSet IsLedgerEthAppConnected false; EvSet IsLedgerCosmosAppConnected false;
   EvSet IsErrorModalVisible true].
Proof. vm_compute. reflexivity. Qed.

(** For a software wallet the Ledger branch is skipped: the device is not
    called and the assets are saved as created. *)
Example normal_wallet_log :
  let final := snd (onWalletCreateFinishCore Scenario.normalWorld Scenario.ledgerForm
                      (initial false)) in
  device_calls (events final) = [] /\ saved (events final) = [[Scenario.croAsset]].
Proof. split; vm_compute; reflexivity. Qed.

(** *** The theorems at work on the example page *)

(** On the example page the three calls are issued, in order. *)
Lemma device_calls_in_order_witness :
  Create.device_calls
    (events (snd (onWalletCreateFinishCore Scenario.ledgerWorld Scenario.ledgerForm
                    (initial false)))) =
  [GetAddress 0 "cro" CRYPTO_ORG BIP44 false;
   GetEthAddress 0 BIP44 false;
   GetAddress 0 "cosmos" COSMOS_HUB BIP44 false].
Proof.
  refine (proj2 (proj2 (device_calls_in_order Scenario.ledgerWorld Scenario.ledgerForm false
                          Scenario.ledgerDraft _ _)) "cro1ledger" "0xledger" _ _ _).
  - exists "My Ledger", LEDGER_WALLET_TYPE, "MAINNET", Scenario.mainnet.
    repeat split; try reflexivity; discriminate.
  - reflexivity.
  - reflexivity.
  - eexists. reflexivity.
  - reflexivity.
Defined.

(** With the Ethereum app closed the settlement of [getEthAddress] with
    an exception is in the log, and nothing was saved. *)
Lemma failed_step_stops_run_witness :
  saved (events (snd (onWalletCreateFinishCore Scenario.ethAppClosed Scenario.ledgerForm
                        (initial false)))) = [].
Proof.
  refine (proj1 (failed_step_stops_run Scenario.ethAppClosed Scenario.ledgerForm false
                   Scenario.ledgerDraft (GetEthAddress 0 BIP44 false)
                   (Rejected "Ledger device: UNKNOWN_ERROR (0x6511)") _ _ _)).
  - exists "My Ledger", LEDGER_WALLET_TYPE, "MAINNET", Scenario.mainnet.
    repeat split; try reflexivity; discriminate.
  - reflexivity.
  - apply list_elem_of_In. vm_compute.
    do 10 right. left. reflexivity.
Defined.

(** On the example page [saveAssets] receives the four assets with their
    derived addresses. *)
Lemma successful_run_assigns_addresses_witness :
  exists draft,
    createdWallet (snd (onWalletCreateFinishCore Scenario.ledgerWorld Scenario.ledgerForm
                          (initial false))) = Some draft /\
    assets draft =
    [set_address "cro1ledger" Scenario.croAsset; set_address "0xledger" Scenario.cronosAsset;
     set_address "0xledger" Scenario.ethAsset; set_address "cosmos1ledger" Scenario.atomAsset] /\
    walletAddress (wallet draft) = "cro1ledger".
Proof.
  destruct (successful_run_assigns_addresses Scenario.ledgerWorld Scenario.ledgerForm false
              Scenario.ledgerDraft
              [set_address "cro1ledger" Scenario.croAsset;
               set_address "0xledger" Scenario.cronosAsset;
               set_address "0xledger" Scenario.ethAsset;
               set_address "cosmos1ledger" Scenario.atomAsset])
    as (a1 & a2 & a3 & draft & c & t & H1 & _ & _ & Hd & Ha & Hw & _).
  - exists "My Ledger", LEDGER_WALLET_TYPE, "MAINNET", Scenario.mainnet.
    repeat split; try reflexivity; discriminate.
  - reflexivity.
  - intros x [= <-]. reflexivity.
  - apply list_elem_of_In. vm_compute.
    do 21 right. left. reflexivity.
  - exists draft. injection H1 as <-. auto.
Defined.

(** On the example page the first wait ends within its 600 polls. *)
Lemma app_switch_wait_is_bounded_witness :
  1 <= polls (handlerFires Scenario.ledgerWorld) 2 600 <= 600.
Proof.
  refine (proj1 (proj1 (app_switch_wait_is_bounded Scenario.ledgerWorld Scenario.ledgerForm
                          false Scenario.ledgerDraft "cro1ledger" _ _ _ _))).
  - exists "My Ledger", LEDGER_WALLET_TYPE, "MAINNET", Scenario.mainnet.
    repeat split; try reflexivity; discriminate.
  - reflexivity.
  - reflexivity.
  - eexists. reflexivity.
Defined.

End CreateFacts.

(** ** More properties of CroMarketApi *)
Module MarketApiSessionFacts.
Import MarketApi MarketApiSession MarketApiFacts.

Section Facts.
Context (cfg : TokenConfig) (js : JsRuntime) (net : Net).

(** *** The directory *)

(** What a call of [loadTokenSlugMap] returns and leaves behind. *)
Lemma loadTokenSlugMap_memoizes_aux s :
  match loadTokenSlugMap net s with
  | (Ok dir, s') =>
      dir <> [] /\
      tokenSlugMap s' = Some dir /\
      TokenSlugMap s' = TokenSlugMap s /\
      (tokenSlugMap s = Some dir /\ s' = s \/
       (tokenSlugMap s = None \/ tokenSlugMap s = Some []) /\
       requests s' = requests s ++ [ReqAllTokens] /\
       exists resp,
         net_allTokens net (length (requests s)) = Ok resp /\
         status resp = 200%nat /\ data resp = dir) /\
      loadTokenSlugMap net s' = (Ok dir, s')
  | (Throw e, s') =>
      (tokenSlugMap s = None \/ tokenSlugMap s = Some []) /\
      s' = {| TokenSlugMap := TokenSlugMap s; tokenSlugMap := tokenSlugMap s;
              requests := requests s ++ [ReqAllTokens] |} /\
      (net_allTokens net (length (requests s)) = Throw e \/
       exists resp,
         net_allTokens net (length (requests s)) = Ok resp /\
         (status resp <> 200%nat \/ data resp = []) /\
         e = Error_ "Could not fetch Token Slug list.")
  end.
Proof.
  assert (Hfetch : tokenSlugMap s = None \/ tokenSlugMap s = Some [] ->
    match
      match net_allTokens net (length (requests s)) with
      | Ok resp =>
          if negb (status resp =? 200)%nat || (length (data resp) <? 1)%nat
          then (Throw (Error_ "Could not fetch Token Slug list."),
                {| TokenSlugMap := TokenSlugMap s; tokenSlugMap := tokenSlugMap s;
                   requests := requests s ++ [ReqAllTokens] |})
          else (Ok (data resp),
                {| TokenSlugMap := TokenSlugMap s; tokenSlugMap := Some (data resp);
                   requests := requests s ++ [ReqAllTokens] |})
      | Throw e => (Throw e,
                    {| TokenSlugMap := TokenSlugMap s; tokenSlugMap := tokenSlugMap s;
                       requests := requests s ++ [ReqAllTokens] |})
      end
    with
    | (Ok dir, s') =>
        dir <> [] /\
        tokenSlugMap s' = Some dir /\
        TokenSlugMap s' = TokenSlugMap s /\
        (tokenSlugMap s = Some dir /\ s' = s \/
         (tokenSlugMap s = None \/ tokenSlugMap s = Some []) /\
         requests s' = requests s ++ [ReqAllTokens] /\
         exists resp,
           net_allTokens net (length (requests s)) = Ok resp /\
           status resp = 200%nat /\ data resp = dir) /\
        loadTokenSlugMap net s' = (Ok dir, s')
    | (Throw e, s') =>
        (tokenSlugMap s = None \/ tokenSlugMap s = Some []) /\
        s' = {| TokenSlugMap := TokenSlugMap s; tokenSlugMap := tokenSlugMap s;
                requests := requests s ++ [ReqAllTokens] |} /\
        (net_allTokens net (length (requests s)) = Throw e \/
         exists resp,
           net_allTokens net (length (requests s)) = Ok resp /\
           (status resp <> 200%nat \/ data resp = []) /\
           e = Error_ "Could not fetch Token Slug list.")
    end).
  { intros Hempty.
    destruct (net_allTokens net (length (requests s))) as [resp|e] eqn:Hnet.
    - destruct (Nat.eqb_spec (status resp) 200) as [Hst|Hst]; simpl.
      + destruct (data resp) as [|i m] eqn:Hd; simpl.
        * split; [done|]. split; [done|]. right. exists resp. auto.
        * split; [done|]. split; [done|]. split; [done|]. split.
          -- right. split; [done|]. split; [done|]. exists resp. auto.
          -- rewrite loadTokenSlugMap_unfold. reflexivity.
      + split; [done|]. split; [done|]. right. exists resp. auto.
    - split; [done|]. split; [done|]. by left. }
  rewrite loadTokenSlugMap_unfold.
  destruct (tokenSlugMap s) as [[|i m]|] eqn:Hmemo; cbv zeta.
  - apply Hfetch. by right.
  - split; [done|]. split; [done|]. split; [done|]. split; [by left|].
    rewrite loadTokenSlugMap_unfold, Hmemo. reflexivity.
  - apply Hfetch. by left.
Qed.

(** X1: [loadTokenSlugMap] returns a directory with at least one entry and
    leaves it in the field [tokenSlugMap]: either the field already held
    it, and then nothing is sent and nothing changes, or the field was
    empty, one request for the directory was sent and the feed answered
    it with status 200.  A second call then returns the same directory
    without a request.  When it throws (the request was rejected, its
    status is not 200 or the list is empty) the field was empty and stays
    as it was, so that the next call asks again. *)
Theorem loadTokenSlugMap_memoizes s :
  match loadTokenSlugMap net s with
  | (Ok dir, s') =>
      dir <> [] /\
      tokenSlugMap s' = Some dir /\
      TokenSlugMap s' = TokenSlugMap s /\
      (tokenSlugMap s = Some dir /\ s' = s \/
       (tokenSlugMap s = None \/ tokenSlugMap s = Some []) /\
       requests s' = requests s ++ [ReqAllTokens] /\
       exists resp,
         net_allTokens net (length (requests s)) = Ok resp /\
         status resp = 200%nat /\ data resp = dir) /\
      loadTokenSlugMap net s' = (Ok dir, s')
  | (Throw e, s') =>
      (tokenSlugMap s = None \/ tokenSlugMap s = Some []) /\
      s' = {| TokenSlugMap := TokenSlugMap s; tokenSlugMap := tokenSlugMap s;
              requests := requests s ++ [ReqAllTokens] |} /\
      (net_allTokens net (length (requests s)) = Throw e \/
       exists resp,
         net_allTokens net (length (requests s)) = Ok resp /\
         (status resp <> 200%nat \/ data resp = []) /\
         e = Error_ "Could not fetch Token Slug list.")
  end.
Proof. apply loadTokenSlugMap_memoizes_aux. Qed.


(** *** What a call does about the directory *)

Lemma quiet_refl s : quiet s s.
Proof. split; [done|]. exists []. split; [by rewrite app_nil_r | apply not_elem_of_nil]. Qed.

Lemma quiet_trans s1 s2 s3 : quiet s1 s2 -> quiet s2 s3 -> quiet s1 s3.
Proof.
  intros (Hm1 & m1 & Hr1 & Hn1) (Hm2 & m2 & Hr2 & Hn2). split; [congruence|].
  exists (m1 ++ m2). split; [by rewrite Hr2, Hr1, app_assoc|].
  rewrite elem_of_app. tauto.
Qed.

Lemma directory_step_quiet s1 s2 s3 :
  directory_step net s1 s2 -> quiet s2 s3 -> directory_step net s1 s3.
Proof.
  intros [Hq|(rest & Hempty & Hreq & Hrest & Hmemo)] Hq2.
  - left. by eapply quiet_trans.
  - destruct Hq2 as (Hm & more & Hr & Hn). right. exists (rest ++ more).
    split; [done|]. split; [by rewrite Hr, Hreq, <- app_assoc|].
    split; [rewrite elem_of_app; tauto|].
    rewrite Hm. exact Hmemo.
Qed.

Lemma not_directory_token_requests l : ReqAllTokens ∉ token_requests l.
Proof.
  unfold token_requests. intros Hin. apply list_elem_of_fmap in Hin as (i & Hi & _).
  discriminate.
Qed.

Lemma loadTokenSlugMap_step s : directory_step net s (snd (loadTokenSlugMap net s)).
Proof.
  pose proof (loadTokenSlugMap_memoizes_aux s) as H.
  destruct (loadTokenSlugMap net s) as [[dir|e] s']; simpl.
  - destruct H as (Hne & Hmemo & _ & [[_ ->]|(Hempty & Hreq & resp & Hnet & Hst & Hd)] & _).
    + left. apply quiet_refl.
    + right. exists []. split; [done|]. split; [done|]. split; [apply not_elem_of_nil|].
      left. split.
      * exists resp. rewrite Hd. auto.
      * exists resp. rewrite Hd. auto.
  - destruct H as (Hempty & -> & Hfail). right. exists [].
    split; [done|]. split; [done|]. split; [apply not_elem_of_nil|].
    right. split; [|done].
    intros (resp & Hnet & Hst & Hd).
    destruct Hfail as [Hf|(resp' & Hnet' & [Hs|Hs] & _)]; congruence.
Qed.

Lemma fetchTokenPrices_quiet l s : quiet s (snd (fetchTokenPrices net l s)).
Proof.
  rewrite fetchTokenPrices_effect. split; [done|].
  exists (token_requests l). split; [done | apply not_directory_token_requests].
Qed.

Lemma getCryptoToFiatRate_quiet cryptoSymbol fiatCurrency s :
  quiet s (snd (getCryptoToFiatRateFromCoinbase net cryptoSymbol fiatCurrency s)).
Proof.
  rewrite getCryptoToFiatRate_effect. split; [done|].
  exists [ReqExchangeRates cryptoSymbol]. split; [done|].
  intros Hin. apply list_elem_of_singleton in Hin. discriminate.
Qed.

Lemma with_cache_quiet m s : quiet s (with_cache m s).
Proof. split; [done|]. exists []. split; [by rewrite app_nil_r | apply not_elem_of_nil]. Qed.

Lemma getTokenPriceFromCryptoCom_step asset fiatCurrency s :
  directory_step net s (snd (getTokenPriceFromCryptoCom cfg js net asset fiatCurrency s)).
Proof.
  rewrite getTokenPriceFromCryptoCom_unfold.
  pose proof (loadTokenSlugMap_step s) as H1.
  destruct (loadTokenSlugMap net s) as [[dir|e] s1]; simpl in *; [|done].
  pose proof (fetchTokenPrices_quiet (candidates asset dir) s1) as H2.
  pose proof (directory_step_quiet _ _ _ H1 H2) as H12.
  destruct (fetchTokenPrices net (candidates asset dir) s1) as [[resps|e] s2];
    simpl in *; [|done].
  destruct (List.find _ resps) as [tok|]; [|done].
  destruct (negb (status tok =? 200)%nat); [done|].
  case_bool_decide; [done|].
  pose proof (getCryptoToFiatRate_quiet "USD" fiatCurrency s2) as H3.
  pose proof (directory_step_quiet _ _ _ H12 H3) as H123.
  by destruct (getCryptoToFiatRateFromCoinbase net "USD" fiatCurrency s2) as [[rate|e] s3].
Qed.

Lemma getAssetPrice_step asset currency s :
  directory_step net s (snd (getAssetPrice cfg js net asset currency s)).
Proof.
  rewrite getAssetPrice_unfold.
  pose proof (getTokenPriceFromCryptoCom_step asset currency s) as H.
  by destruct (getTokenPriceFromCryptoCom cfg js net asset currency s) as [[tp|e] s'].
Qed.

Lemma getTokenSlug_step asset s :
  directory_step net s (snd (getTokenSlug cfg net asset s)).
Proof.
  rewrite getTokenSlug_unfold.
  assert (Hmiss : directory_step net s
    (snd match loadTokenSlugMap net s with
         | (Throw e, s1) => (Throw e, s1)
         | (Ok allTokensSlugMap, s1) =>
             match fetchTokenPrices net (candidates asset allTokensSlugMap) s1 with
             | (Throw e, s2) => (Throw e, s2)
             | (Ok responses, s2) =>
                 match List.find (supported cfg asset) (map data responses) with
                 | None => (Ok None, s2)
                 | Some tokenPriceInUSD =>
                     match slug tokenPriceInUSD with
                     | EmptyString => (Ok None, s2)
                     | String c r =>
                         (Ok (Some (String c r)),
                          with_cache (<[identifier asset := String c r]> (TokenSlugMap s2)) s2)
                     end
                 end
             end
         end)).
  { pose proof (loadTokenSlugMap_step s) as H1.
    destruct (loadTokenSlugMap net s) as [[dir|e] s1]; simpl in *; [|done].
    pose proof (fetchTokenPrices_quiet (candidates asset dir) s1) as H2.
    pose proof (directory_step_quiet _ _ _ H1 H2) as H12.
    destruct (fetchTokenPrices net (candidates asset dir) s1) as [[resps|e] s2];
      simpl in *; [|done].
    destruct (List.find _ (map data resps)) as [tok|]; [|done].
    destruct (slug tok) as [|c r]; [done|].
    simpl. eapply directory_step_quiet; [exact H12 | apply with_cache_quiet]. }
  destruct (TokenSlugMap s !! identifier asset) as [[|c r]|]; try exact Hmiss.
  left. apply quiet_refl.
Qed.

Lemma getTokenPrices_step asset fiatCurrency interval s :
  directory_step net s (snd (getTokenPrices cfg net asset fiatCurrency interval s)).
Proof.
  unfold getTokenPrices, log. unfold bind at 1.
  pose proof (getTokenSlug_step asset s) as H.
  destruct (getTokenSlug cfg net asset s) as [[[found|]|e] s']; simpl in *; try done.
  assert (Hq : forall r,
    quiet s' {| TokenSlugMap := TokenSlugMap s'; tokenSlugMap := tokenSlugMap s';
                requests := requests s' ++ [r] |} ->
    directory_step net s {| TokenSlugMap := TokenSlugMap s'; tokenSlugMap := tokenSlugMap s';
                           requests := requests s' ++ [r] |}).
  { intros r. by apply directory_step_quiet. }
  specialize (Hq (ReqPrices interval found fiatCurrency)).
  assert (Hquiet : quiet s' {| TokenSlugMap := TokenSlugMap s'; tokenSlugMap := tokenSlugMap s';
                               requests := requests s' ++ [ReqPrices interval found fiatCurrency] |}).
  { split; [done|]. eexists. split; [done|].
    intros Hin. apply list_elem_of_singleton in Hin. discriminate. }
  specialize (Hq Hquiet).
  run.
  destruct (net_prices net (length (requests s')) interval found fiatCurrency) as [resp|e];
    simpl; [|done].
  destruct (negb (status resp =? 200)%nat); simpl; [done|].
  destruct (data resp) as [body|]; simpl; [|done].
  by destruct (prices body).
Qed.

Lemma perform_step c s : directory_step net s (perform cfg js net c s).
Proof.
  destruct c; simpl.
  - apply loadTokenSlugMap_step.
  - apply getAssetPrice_step.
  - apply getTokenPrices_step.
  - apply getTokenPriceFromCryptoCom_step.
  - left. apply getCryptoToFiatRate_quiet.
Qed.

(** *** Where the cached slugs come from *)

Lemma directory_step_requests s s' :
  directory_step net s s' -> exists new, requests s' = requests s ++ new.
Proof.
  intros [(_ & more & Hreq & _)|(rest & _ & Hreq & _)]; by eexists.
Qed.

Lemma slug_fetched_later s s' found :
  (exists new, requests s' = requests s ++ new) ->
  slug_fetched net s found -> slug_fetched net s' found.
Proof.
  intros (new & Hreq) (n & requested & resp & Hn & Hnet & Hslug).
  exists n, requested, resp. rewrite Hreq. split; [by apply lookup_app_l_Some | done].
Qed.

(** Every record that [fetchTokenPrices] returns answers one of the
    requests it has sent. *)
Lemma fetchTokenPrices_provenance l s responses s2 :
  fetchTokenPrices net l s = (Ok responses, s2) ->
  forall r, r ∈ responses ->
    exists i slugInfo,
      l !! i = Some slugInfo /\
      requests s2 !! (length (requests s) + i) = Some (ReqToken (si_slug slugInfo)) /\
      net_token net (length (requests s) + i) (si_slug slugInfo) = Ok r.
Proof.
  intros Hfetch r Hr.
  pose proof (fetchTokenPrices_responses net l s responses s2 Hfetch) as Hperm.
  pose proof (fetchTokenPrices_effect net l s) as Heff. rewrite Hfetch in Heff. simpl in Heff.
  assert (Hin : Ok r ∈ map Ok responses).
  { apply list_elem_of_fmap. by exists r. }
  rewrite Hperm in Hin. apply elem_of_lookup_imap in Hin as (i & slugInfo & Heq & Hi).
  exists i, slugInfo. split; [done|]. split; [|done].
  rewrite Heff. simpl. rewrite lookup_app_r by lia.
  replace (length (requests s) + i - length (requests s)) with i by lia.
  unfold token_requests. change (map ?f ?l) with (f <$> l).
  by rewrite list_lookup_fmap, Hi.
Qed.

Lemma getTokenSlug_provenance asset s :
  (forall k v, TokenSlugMap s !! k = Some v -> slug_fetched net s v) ->
  forall k v,
    TokenSlugMap (snd (getTokenSlug cfg net asset s)) !! k = Some v ->
    slug_fetched net (snd (getTokenSlug cfg net asset s)) v.
Proof.
  intros Hinv.
  pose proof (directory_step_requests _ _ (getTokenSlug_step asset s)) as Hgrow.
  assert (Hold : forall k v,
    TokenSlugMap s !! k = Some v -> slug_fetched net (snd (getTokenSlug cfg net asset s)) v).
  { intros k v Hk. eapply slug_fetched_later; [exact Hgrow | by eapply Hinv]. }
  revert Hold. clear Hgrow.
  rewrite getTokenSlug_unfold.
  destruct (TokenSlugMap s !! identifier asset) as [[|c0 r0]|] eqn:Hc; try (intros Hold; exact Hold).
  all: pose proof (loadTokenSlugMap_effect net s) as [Hc1 _];
    destruct (loadTokenSlugMap net s) as [[dir|e] s1]; simpl in Hc1;
      [|intros Hold k v; simpl; rewrite Hc1; apply Hold];
    pose proof (fetchTokenPrices_logged net (candidates asset dir) s1) as (Hc2 & _ & _);
    pose proof (fetchTokenPrices_provenance (candidates asset dir) s1) as Hprov;
    destruct (fetchTokenPrices net (candidates asset dir) s1) as [[resps|e] s2];
      simpl in Hc2;
      [|intros Hold k v; simpl; rewrite Hc2, Hc1; apply Hold];
    specialize (Hprov resps s2 eq_refl);
    destruct (List.find _ (map data resps)) as [tok|] eqn:Hfind;
      [|intros Hold k v; simpl; rewrite Hc2, Hc1; apply Hold];
    destruct (slug tok) as [|c r] eqn:Hslug;
      [intros Hold k v; simpl; rewrite Hc2, Hc1; apply Hold|];
    intros Hold k v; simpl;
    (destruct (decide (identifier asset = k)) as [<-|Hk];
       [rewrite lookup_insert_eq; intros [= <-];
        apply find_some in Hfind as [Hin _];
        apply list_elem_of_In, list_elem_of_fmap in Hin as (resp & -> & Hresp);
        destruct (Hprov resp Hresp) as (i & slugInfo & _ & Hreq & Hnet);
        by exists (length (requests s1) + i), (si_slug slugInfo), resp
       |rewrite lookup_insert_ne by done; rewrite Hc2, Hc1; apply Hold]).
Qed.

Lemma getTokenPrices_requests asset fiatCurrency interval s :
  exists more,
    requests (snd (getTokenPrices cfg net asset fiatCurrency interval s)) =
    requests (snd (getTokenSlug cfg net asset s)) ++ more.
Proof.
  unfold getTokenPrices, log. unfold bind at 1.
  destruct (getTokenSlug cfg net asset s) as [[[found|]|e] s']; simpl;
    try (exists []; by rewrite app_nil_r).
  exists [ReqPrices interval found fiatCurrency]. run.
  destruct (net_prices net (length (requests s')) interval found fiatCurrency) as [resp|e];
    simpl; [|done].
  destruct (negb (status resp =? 200)%nat); simpl; [done|].
  destruct (data resp) as [body|]; simpl; [|done].
  by destruct (prices body).
Qed.

(** X3: every slug in the cache of a session is the [slug] field of a
    record that the token endpoint returned to a request of this session.
    The cache holds nothing that the feed has not said: not the slug of a
    directory entry, nor the slug a request was made for, unless the
    answer repeats it. *)
Theorem cached_slugs_were_fetched s :
  reachable cfg js net s ->
  forall k v, TokenSlugMap s !! k = Some v -> slug_fetched net s v.
Proof.
  induction 1 as [|c s Hr IH]; intros k v.
  - simpl. by rewrite lookup_empty.
  - assert (Hkeep : TokenSlugMap (perform cfg js net c s) = TokenSlugMap s ->
              TokenSlugMap (perform cfg js net c s) !! k = Some v ->
              slug_fetched net (perform cfg js net c s) v).
    { intros -> Hk. eapply slug_fetched_later; [|by eapply IH].
      apply directory_step_requests, perform_step. }
    destruct c as [|asset currency|asset fiatCurrency interval|asset fiatCurrency|c1 c2].
    + apply Hkeep. simpl. apply (loadTokenSlugMap_effect net s).
    + apply Hkeep. simpl. apply getAssetPrice_cache.
    + simpl. rewrite getTokenPrices_cache. intros Hk.
      eapply slug_fetched_later; [apply getTokenPrices_requests|].
      by eapply getTokenSlug_provenance.
    + apply Hkeep. simpl. apply getTokenPriceFromCryptoCom_cache.
    + apply Hkeep. simpl. by rewrite getCryptoToFiatRate_effect.
Qed.

(** *** [getTokenPrices] *)

(** The steps of [getTokenPrices], sub-call by sub-call. *)
Lemma getTokenPrices_unfold asset fiatCurrency interval s :
  getTokenPrices cfg net asset fiatCurrency interval s =
  match getTokenSlug cfg net asset s with
  | (Throw e, s1) => (Throw e, s1)
  | (Ok None, s1) =>
      (Throw (Error_ ("Couldn't find a valid slug name for " ++ symbol asset)), s1)
  | (Ok (Some found), s1) =>
      let s2 := {| TokenSlugMap := TokenSlugMap s1; tokenSlugMap := tokenSlugMap s1;
                   requests := requests s1 ++ [ReqPrices interval found fiatCurrency] |} in
      match net_prices net (length (requests s1)) interval found fiatCurrency with
      | Throw e => (Throw e, s2)
      | Ok response =>
          if negb (status response =? 200)%nat
          then (Throw (Error_ "Could not find requested token price info from Crypto.com"), s2)
          else
            match data response with
            | Some body =>
                match prices body with
                | Some _ => (Ok body, s2)
                | None =>
                    (Throw (Error_ "Could not find requested token price info from Crypto.com"),
                     s2)
                end
            | None =>
                (Throw (Error_ "Could not find requested token price info from Crypto.com"), s2)
            end
      end
  end.
Proof.
  unfold getTokenPrices, log. unfold bind at 1.
  destruct (getTokenSlug cfg net asset s) as [[[found|]|e] s1]; try done.
  run.
  destruct (net_prices net (length (requests s1)) interval found fiatCurrency) as [resp|e];
    simpl; [|done].
  destruct (negb (status resp =? 200)%nat); simpl; [done|].
  destruct (data resp) as [body|]; simpl; [|done].
  by destruct (prices body).
Qed.

(** X4: [getTokenPrices] returns the body of the feed's answer exactly
    when [getTokenSlug] found a slug and the answer to the one request
    [/{interval}/{slug}/?convert={fiatCurrency}] has status 200, a body
    and a [prices] field.  Without a slug it throws the error that names
    [asset.symbol] and sends no price request; an exception of
    [getTokenSlug] is passed on; with a slug the price request is the
    only request added, for this slug, whatever the outcome. *)
Theorem getTokenPrices_returns_iff asset fiatCurrency interval s :
  (forall body,
      fst (getTokenPrices cfg net asset fiatCurrency interval s) = Ok body <->
      exists found s1 response,
        getTokenSlug cfg net asset s = (Ok (Some found), s1) /\
        net_prices net (length (requests s1)) interval found fiatCurrency = Ok response /\
        status response = 200%nat /\
        data response = Some body /\
        is_Some (prices body)) /\
  (forall s1,
      getTokenSlug cfg net asset s = (Ok None, s1) ->
      getTokenPrices cfg net asset fiatCurrency interval s =
      (Throw (Error_ ("Couldn't find a valid slug name for " ++ symbol asset)), s1)) /\
  (forall e s1,
      getTokenSlug cfg net asset s = (Throw e, s1) ->
      getTokenPrices cfg net asset fiatCurrency interval s = (Throw e, s1)) /\
  (forall found s1,
      getTokenSlug cfg net asset s = (Ok (Some found), s1) ->
      snd (getTokenPrices cfg net asset fiatCurrency interval s) =
      {| TokenSlugMap := TokenSlugMap s1; tokenSlugMap := tokenSlugMap s1;
         requests := requests s1 ++ [ReqPrices interval found fiatCurrency] |}).
Proof.
  rewrite getTokenPrices_unfold.
  destruct (getTokenSlug cfg net asset s) as [[[found|]|e] s1] eqn:Hslug; cbv zeta.
  - split; [|split; [|split]]; try (intros; discriminate).
    + intros body.
      destruct (net_prices net (length (requests s1)) interval found fiatCurrency)
        as [resp|e] eqn:Hnet.
      * destruct (Nat.eqb_spec (status resp) 200) as [Hst|Hst]; simpl.
        -- destruct (data resp) as [b|] eqn:Hd.
           ++ destruct (prices b) as [p|] eqn:Hp; simpl.
              ** split.
                 --- intros [= <-]. exists found, s1, resp. rewrite Hp. eauto.
                 --- intros (f & s1' & r & [= <- <-] & Hr & _ & Hd' & _). congruence.
              ** split; [discriminate|].
                 intros (f & s1' & r & [= <- <-] & Hr & _ & Hd' & [p Hp']).
                 assert (r = resp) as -> by congruence. congruence.
           ++ split; [discriminate|].
              intros (f & s1' & r & [= <- <-] & Hr & _ & Hd' & _). congruence.
        -- split; [discriminate|].
           intros (f & s1' & r & [= <- <-] & Hr & Hst' & _). congruence.
      * split; [discriminate|].
        intros (f & s1' & r & [= <- <-] & Hr & _). congruence.
    + intros f s1' [= <- <-].
      destruct (net_prices net (length (requests s1)) interval found fiatCurrency)
        as [resp|e]; [|done].
      destruct (negb (status resp =? 200)%nat); [done|].
      destruct (data resp) as [b|]; [|done]. by destruct (prices b).
  - split; [|split; [|split]]; try (intros; discriminate).
    + intros body. split; [discriminate|]. intros (f & s1' & r & H & _). discriminate.
    + by intros s1' [= <-].
  - split; [|split; [|split]]; try (intros; discriminate).
    + intros body. split; [discriminate|]. intros (f & s1' & r & H & _). discriminate.
    + by intros e' s1' [= <- <-].
Qed.

(** *** The requests of a price lookup *)

Lemma loadTokenSlugMap_requests s :
  exists directory,
    requests (snd (loadTokenSlugMap net s)) = requests s ++ directory /\
    (directory = [] \/ directory = [ReqAllTokens]).
Proof.
  pose proof (loadTokenSlugMap_memoizes_aux s) as H.
  destruct (loadTokenSlugMap net s) as [[dir|e] s']; simpl.
  - destruct H as (_ & _ & _ & [[_ ->]|(_ & Hreq & _)] & _).
    + exists []. split; [by rewrite app_nil_r | by left].
    + exists [ReqAllTokens]. split; [done | by right].
  - destruct H as (_ & -> & _). exists [ReqAllTokens]. split; [done | by right].
Qed.

(** X5: the requests of [getTokenPriceFromCryptoCom], in the order in
    which they are sent: at most one for the directory, then one for each
    directory entry whose symbol is the asset's [mainnetSymbol], in the
    order of the directory, then at most one to the exchange-rate source,
    for the rates of USD.  The exchange-rate source is asked exactly when
    the currency is not USD and a candidate was selected whose answer has
    status 200: a lookup that fails at the primary feed does not reach
    it. *)
Theorem exchange_rate_asked_last asset fiatCurrency s :
  exists directory tokens rate,
    requests (snd (getTokenPriceFromCryptoCom cfg js net asset fiatCurrency s)) =
      requests s ++ directory ++ tokens ++ rate /\
    (directory = [] \/ directory = [ReqAllTokens]) /\
    (forall dir s1,
        loadTokenSlugMap net s = (Ok dir, s1) ->
        tokens = token_requests (candidates asset dir)) /\
    (forall e s1,
        loadTokenSlugMap net s = (Throw e, s1) -> tokens = [] /\ rate = []) /\
    (rate = [] \/ rate = [ReqExchangeRates "USD"]) /\
    (rate = [ReqExchangeRates "USD"] <->
     fiatCurrency <> "USD" /\
     exists dir s1 responses s2 tokenPriceInUSD,
       loadTokenSlugMap net s = (Ok dir, s1) /\
       fetchTokenPrices net (candidates asset dir) s1 = (Ok responses, s2) /\
       List.find (fun token => supported cfg asset (data token)) responses =
         Some tokenPriceInUSD /\
       status tokenPriceInUSD = 200%nat).
Proof.
  rewrite getTokenPriceFromCryptoCom_unfold.
  destruct (loadTokenSlugMap_requests s) as (directory & Hdir & Hshape).
  destruct (loadTokenSlugMap net s) as [[dir|e] s1] eqn:Hload; simpl in Hdir.
  2:{ exists directory, [], []. simpl. rewrite !app_nil_r.
      repeat split; auto; try discriminate.
      intros (_ & d & s1' & r & s2 & t & H & _). discriminate. }
  pose proof (fetchTokenPrices_effect net (candidates asset dir) s1) as Heff.
  assert (Hno : forall rate,
    (forall responses s2 tok,
        fetchTokenPrices net (candidates asset dir) s1 = (Ok responses, s2) ->
        List.find (fun token => supported cfg asset (data token)) responses = Some tok ->
        status tok = 200%nat -> fiatCurrency = "USD") ->
    rate = [] ->
    (forall d s1', (Ok dir, s1) = (Ok d, s1') ->
        token_requests (candidates asset dir) = token_requests (candidates asset d)) /\
    (forall e s1', (Ok dir, s1) = (Throw e, s1') ->
        token_requests (candidates asset dir) = [] /\ rate = []) /\
    (rate = [] \/ rate = [ReqExchangeRates "USD"]) /\
    (rate = [ReqExchangeRates "USD"] <->
     fiatCurrency <> "USD" /\
     exists d s1' responses s2 tokenPriceInUSD,
       (Ok dir, s1) = (Ok d, s1') /\
       fetchTokenPrices net (candidates asset d) s1' = (Ok responses, s2) /\
       List.find (fun token => supported cfg asset (data token)) responses =
         Some tokenPriceInUSD /\
       status tokenPriceInUSD = 200%nat)).
  { intros rate Hwhy ->. split; [by intros d s1' [= <- <-]|].
    split; [discriminate|]. split; [by left|]. split; [discriminate|].
    intros (Hcur & d & s1' & r & s2 & t & [= <- <-] & Hf & Hfind & Hst).
    exfalso. apply Hcur. by eapply Hwhy. }
  destruct (fetchTokenPrices net (candidates asset dir) s1) as [[resps|e] s2] eqn:Hfetch;
    simpl in Heff.
  2:{ exists directory, (token_requests (candidates asset dir)), [].
      split; [rewrite Heff; simpl; by rewrite Hdir, app_nil_r, app_assoc|].
      split; [done|]. apply Hno; [discriminate | done]. }
  destruct (List.find _ resps) as [tok|] eqn:Hfind.
  2:{ exists directory, (token_requests (candidates asset dir)), [].
      split; [rewrite Heff; simpl; by rewrite Hdir, app_nil_r, app_assoc|].
      split; [done|]. apply Hno; [|done]. intros r s2' t [= <- <-]. congruence. }
  destruct (Nat.eqb_spec (status tok) 200) as [Hst|Hst]; simpl.
  2:{ exists directory, (token_requests (candidates asset dir)), [].
      split; [rewrite Heff; simpl; by rewrite Hdir, app_nil_r, app_assoc|].
      split; [done|]. apply Hno; [|done]. intros r s2' t [= <- <-]. congruence. }
  case_bool_decide as Hcur.
  { exists directory, (token_requests (candidates asset dir)), [].
    split; [rewrite Heff; simpl; by rewrite Hdir, app_nil_r, app_assoc|].
    split; [done|]. by apply Hno. }
  pose proof (getCryptoToFiatRate_effect net "USD" fiatCurrency s2) as Hrate.
  exists directory, (token_requests (candidates asset dir)), [ReqExchangeRates "USD"].
  split.
  { destruct (getCryptoToFiatRateFromCoinbase net "USD" fiatCurrency s2) as [[rate|e] s3];
      simpl in *; rewrite Hrate; simpl; rewrite Heff; simpl;
      by rewrite Hdir, <- !app_assoc. }
  split; [done|]. split; [by intros d s1' [= <- <-]|].
  split; [discriminate|]. split; [by right|]. split; [|done].
  intros _. split; [done|]. by exists dir, s1, resps, s2, tok.
Qed.

(** *** A candidate whose request is rejected *)

Lemma all_settled_Throw {A} (l : list (Result A)) e : all_settled l = Throw e -> Throw e ∈ l.
Proof.
  induction l as [|[a|e'] l IH]; simpl; [discriminate| |].
  - destruct (all_settled l) as [v|e'']; [discriminate|].
    intros [= ->]. right. by apply IH.
  - intros [= ->]. left.
Qed.

Lemma all_settled_rejects {A} (l : list (Result A)) e :
  Throw e ∈ l -> exists e', all_settled l = Throw e'.
Proof.
  induction l as [|[a|e'] l IH]; simpl; intros Hin.
  - by apply elem_of_nil in Hin.
  - apply elem_of_cons in Hin as [Hin|Hin]; [discriminate|].
    destruct (IH Hin) as (e'' & ->). by eexists.
  - by eexists.
Qed.

(** What [fetchTokenPrices] returns: the answers in the order of their
    arrival, up to the first rejection. *)
Lemma fetchTokenPrices_fst l s :
  exists arrived,
    arrived ≡ₚ token_answers net (length (requests s)) l /\
    fst (fetchTokenPrices net l s) = all_settled arrived.
Proof.
  unfold fetchTokenPrices, bind, settle.
  pose proof (issueTokenRequests_results net l s) as Hres.
  destruct (issueTokenRequests net l s) as [[inflight|e] s']; simpl in Hres; [|discriminate].
  injection Hres as ->. eexists. split; [|reflexivity].
  rewrite completion_order_perm.
  change (map snd) with (fmap (M:=list) (@snd nat (Result (AxiosResponse CryptoTokenPriceAPIResponse)))).
  by rewrite fmap_imap.
Qed.

(** X6: when the request for one of the candidates is rejected, the whole
    lookup fails, whatever the other candidates answer: all the token
    requests have been sent, [getTokenPriceFromCryptoCom] throws the
    rejection, among those of the candidates, that arrives first,
    [getAssetPrice] returns the empty record, and [getTokenSlug] throws
    as well and caches nothing. *)
Theorem rejected_candidate_fails_lookup asset fiatCurrency s dir s1 i slugInfo e :
  loadTokenSlugMap net s = (Ok dir, s1) ->
  candidates asset dir !! i = Some slugInfo ->
  net_token net (length (requests s1) + i) (si_slug slugInfo) = Throw e ->
  exists rejection s2,
    Throw rejection ∈ token_answers net (length (requests s1)) (candidates asset dir) /\
    requests s2 = requests s1 ++ token_requests (candidates asset dir) /\
    TokenSlugMap s2 = TokenSlugMap s /\
    getTokenPriceFromCryptoCom cfg js net asset fiatCurrency s = (Throw rejection, s2) /\
    getAssetPrice cfg js net asset fiatCurrency s = (Ok (emptyPrice asset fiatCurrency), s2) /\
    (uncached asset s -> getTokenSlug cfg net asset s = (Throw rejection, s2)).
Proof.
  intros Hload Hi Hnet.
  destruct (fetchTokenPrices_fst (candidates asset dir) s1) as (arrived & Hperm & Hfst).
  assert (Hin : Throw e ∈ arrived).
  { rewrite Hperm. unfold token_answers. apply elem_of_lookup_imap.
    exists i, slugInfo. by rewrite Hnet. }
  destruct (all_settled_rejects _ _ Hin) as (rejection & Hrej).
  pose proof (fetchTokenPrices_effect net (candidates asset dir) s1) as Heff.
  pose proof (loadTokenSlugMap_effect net s) as [Hcache _]. rewrite Hload in Hcache.
  simpl in Hcache.
  destruct (fetchTokenPrices net (candidates asset dir) s1) as [r s2] eqn:Hfetch.
  simpl in Hfst, Heff. rewrite Hrej in Hfst. subst r.
  exists rejection, s2. split.
  { rewrite <- Hperm. by apply all_settled_Throw. }
  split; [by rewrite Heff|]. split; [by rewrite Heff|]. split; [|split].
  - by rewrite getTokenPriceFromCryptoCom_unfold, Hload, Hfetch.
  - by rewrite getAssetPrice_unfold, getTokenPriceFromCryptoCom_unfold, Hload, Hfetch.
  - intros Hmiss. rewrite getTokenSlug_unfold, Hload, Hfetch.
    destruct (TokenSlugMap s !! identifier asset) as [[|c r]|] eqn:Hc; try done.
    by specialize (Hmiss _ Hc).
Qed.

(** *** An asset the directory does not list *)

Lemma candidates_none asset dir :
  (forall slugInfo, slugInfo ∈ dir -> si_symbol slugInfo <> mainnetSymbol asset) ->
  candidates asset dir = [].
Proof.
  unfold candidates. induction dir as [|x dir IH]; intros H; [done|].
  rewrite filter_cons. destruct (decide (si_symbol x = mainnetSymbol asset)) as [Hx|Hx].
  - exfalso. by apply (H x); [left|].
  - apply IH. intros y Hy. apply H. by right.
Qed.

(** X7: when no entry of the directory has the asset's [mainnetSymbol]
    (the comparison is exact), no token request is sent;
    [getTokenPriceFromCryptoCom] throws the error that names the
    [mainnetSymbol], [getAssetPrice] returns the empty record,
    [getTokenSlug] returns null and caches nothing, and [getTokenPrices]
    throws the error that names [asset.symbol]. *)
Theorem unlisted_symbol_sends_no_token_request asset fiatCurrency interval s dir s1 :
  loadTokenSlugMap net s = (Ok dir, s1) ->
  (forall slugInfo, slugInfo ∈ dir -> si_symbol slugInfo <> mainnetSymbol asset) ->
  getTokenPriceFromCryptoCom cfg js net asset fiatCurrency s =
    (Throw (Error_ ("Couldn't find a valid slug name for " ++ mainnetSymbol asset)), s1) /\
  getAssetPrice cfg js net asset fiatCurrency s = (Ok (emptyPrice asset fiatCurrency), s1) /\
  (uncached asset s ->
   getTokenSlug cfg net asset s = (Ok None, s1) /\
   getTokenPrices cfg net asset fiatCurrency interval s =
     (Throw (Error_ ("Couldn't find a valid slug name for " ++ symbol asset)), s1)).
Proof.
  intros Hload Hnone.
  assert (Hprice : getTokenPriceFromCryptoCom cfg js net asset fiatCurrency s =
    (Throw (Error_ ("Couldn't find a valid slug name for " ++ mainnetSymbol asset)), s1)).
  { rewrite getTokenPriceFromCryptoCom_unfold, Hload, (candidates_none _ _ Hnone).
    reflexivity. }
  split; [exact Hprice|]. split; [by rewrite getAssetPrice_unfold, Hprice|].
  intros Hmiss.
  assert (Hslug : getTokenSlug cfg net asset s = (Ok None, s1)).
  { rewrite getTokenSlug_unfold, Hload, (candidates_none _ _ Hnone).
    destruct (TokenSlugMap s !! identifier asset) as [[|c r]|] eqn:Hc; try done.
    by specialize (Hmiss _ Hc). }
  split; [exact Hslug|]. by rewrite getTokenPrices_unfold, Hslug.
Qed.

(** *** The order of arrival *)

Lemma find_unique_perm {A} (p : A -> bool) (l l' : list A) :
  l ≡ₚ l' ->
  (forall x y, x ∈ l -> y ∈ l -> p x = true -> p y = true -> x = y) ->
  List.find p l = List.find p l'.
Proof.
  intros Hperm Huniq.
  destruct (List.find p l) as [x|] eqn:Hx; destruct (List.find p l') as [y|] eqn:Hy; try done.
  - apply find_some in Hx as [Hx1 Hx2]. apply find_some in Hy as [Hy1 Hy2].
    apply list_elem_of_In in Hx1, Hy1. rewrite <- Hperm in Hy1.
    f_equal. by apply Huniq.
  - apply find_some in Hx as [Hx1 Hx2]. apply list_elem_of_In in Hx1.
    rewrite Hperm in Hx1. apply list_elem_of_In in Hx1.
    by rewrite (find_none _ _ Hy _ Hx1) in Hx2.
  - apply find_some in Hy as [Hy1 Hy2]. apply list_elem_of_In in Hy1.
    rewrite <- Hperm in Hy1. apply list_elem_of_In in Hy1.
    by rewrite (find_none _ _ Hx _ Hy1) in Hy2.
Qed.

Lemma all_settled_map_Ok {A} (v : list A) : all_settled (map Ok v) = Ok v.
Proof. induction v as [|a v IH]; simpl; [done|]. by rewrite IH. Qed.

Lemma fetchTokenPrices_with_latency latency l s responses s2 :
  fetchTokenPrices net l s = (Ok responses, s2) ->
  exists responses',
    responses' ≡ₚ responses /\
    fetchTokenPrices (with_latency latency net) l s = (Ok responses', s2).
Proof.
  intros Hfetch.
  pose proof (fetchTokenPrices_effect net l s) as Heff. rewrite Hfetch in Heff. simpl in Heff.
  pose proof (fetchTokenPrices_effect (with_latency latency net) l s) as Heff'.
  destruct (fetchTokenPrices_fst l s) as (arrived & Hperm & Hfst).
  rewrite Hfetch in Hfst. simpl in Hfst. symmetry in Hfst. apply all_settled_Ok in Hfst.
  assert (Hfst' : exists arrived',
    arrived' ≡ₚ token_answers net (length (requests s)) l /\
    fst (fetchTokenPrices (with_latency latency net) l s) = all_settled arrived').
  { unfold fetchTokenPrices, bind, settle.
    pose proof (issueTokenRequests_results (with_latency latency net) l s) as Hres.
    destruct (issueTokenRequests (with_latency latency net) l s) as [[inflight|e] s'];
      simpl in Hres; [|discriminate].
    injection Hres as ->. eexists. split; [|reflexivity].
    rewrite completion_order_perm.
    change (map snd) with
      (fmap (M:=list) (@snd nat (Result (AxiosResponse CryptoTokenPriceAPIResponse)))).
    by rewrite fmap_imap. }
  destruct Hfst' as (arrived' & Hperm' & Hfst').
  assert (Hboth : arrived' ≡ₚ map Ok responses) by (by rewrite Hperm', <- Hperm, Hfst).
  apply Permutation_map_inv in Hboth as (responses' & -> & Hp).
  rewrite all_settled_map_Ok in Hfst'.
  exists responses'. split; [done|].
  destruct (fetchTokenPrices (with_latency latency net) l s) as [r s2'].
  simpl in *. by subst.
Qed.

(** X8: when all the records fetched for the candidates that qualify are
    one and the same record, the order in which the answers arrive does
    not matter: under any other timing of the network
    [getTokenPriceFromCryptoCom], [getAssetPrice] and [getTokenSlug] return
    the same result and leave the same session. *)
Theorem single_match_ignores_arrival_order asset fiatCurrency latency s dir s1 responses s2 :
  loadTokenSlugMap net s = (Ok dir, s1) ->
  fetchTokenPrices net (candidates asset dir) s1 = (Ok responses, s2) ->
  (forall x y, x ∈ responses -> y ∈ responses ->
               supported cfg asset (data x) = true -> supported cfg asset (data y) = true ->
               x = y) ->
  getTokenPriceFromCryptoCom cfg js (with_latency latency net) asset fiatCurrency s =
    getTokenPriceFromCryptoCom cfg js net asset fiatCurrency s /\
  getAssetPrice cfg js (with_latency latency net) asset fiatCurrency s =
    getAssetPrice cfg js net asset fiatCurrency s /\
  getTokenSlug cfg (with_latency latency net) asset s = getTokenSlug cfg net asset s.
Proof.
  intros Hload Hfetch Huniq.
  assert (Hload' : loadTokenSlugMap (with_latency latency net) s = (Ok dir, s1)).
  { rewrite loadTokenSlugMap_unfold. rewrite loadTokenSlugMap_unfold in Hload. exact Hload. }
  destruct (fetchTokenPrices_with_latency latency _ _ _ _ Hfetch)
    as (responses' & Hperm & Hfetch').
  assert (Hfind :
    List.find (fun token => supported cfg asset (data token)) responses' =
    List.find (fun token => supported cfg asset (data token)) responses).
  { symmetry. apply find_unique_perm; [done | exact Huniq]. }
  assert (Hfind2 :
    List.find (supported cfg asset) (map data responses') =
    List.find (supported cfg asset) (map data responses)).
  { symmetry. apply find_unique_perm; [by apply Permutation_map|].
    intros x y Hx Hy Hpx Hpy.
    apply list_elem_of_fmap in Hx as (x' & -> & Hx). apply list_elem_of_fmap in Hy as (y' & -> & Hy).
    f_equal. by apply Huniq. }
  assert (Hprice :
    getTokenPriceFromCryptoCom cfg js (with_latency latency net) asset fiatCurrency s =
    getTokenPriceFromCryptoCom cfg js net asset fiatCurrency s).
  { rewrite !getTokenPriceFromCryptoCom_unfold, Hload, Hload', Hfetch, Hfetch', Hfind.
    reflexivity. }
  split; [exact Hprice|]. split.
  - by rewrite !getAssetPrice_unfold, Hprice.
  - by rewrite !getTokenSlug_unfold, Hload, Hload', Hfetch, Hfetch', Hfind2.
Qed.

(** *** The record priced and the slug resolved *)



(** *** Assets that are not tokens *)

(** X10: for an asset that is neither a CRC-20 nor an ERC-20 token the
    whitelists and the tags play no part: a record qualifies exactly when
    its slug is crypto-com-coin, ethereum or cosmos.  A slug that
    [getTokenSlug] resolves for such an asset is one of these three, and a
    price is returned for such an asset only from a record with one of
    these slugs. *)
Theorem native_slugs_only asset s :
  assetType asset <> CRC_20_TOKEN ->
  assetType asset <> ERC_20_TOKEN ->
  (forall token,
      supported cfg asset token = true <->
      slug token = "crypto-com-coin" \/ slug token = "ethereum" \/ slug token = "cosmos") /\
  (forall found s',
      uncached asset s ->
      getTokenSlug cfg net asset s = (Ok (Some found), s') ->
      found = "crypto-com-coin" \/ found = "ethereum" \/ found = "cosmos") /\
  (forall fiatCurrency tokenPrice s',
      getTokenPriceFromCryptoCom cfg js net asset fiatCurrency s = (Ok tokenPrice, s') ->
      exists dir s1 responses s2 tokenPriceInUSD,
        loadTokenSlugMap net s = (Ok dir, s1) /\
        fetchTokenPrices net (candidates asset dir) s1 = (Ok responses, s2) /\
        tokenPriceInUSD ∈ responses /\
        (slug (data tokenPriceInUSD) = "crypto-com-coin" \/
         slug (data tokenPriceInUSD) = "ethereum" \/
         slug (data tokenPriceInUSD) = "cosmos")).
Proof.
  intros Hcrc Herc.
  assert (Hsup : forall token,
    supported cfg asset token = true <->
    slug token = "crypto-com-coin" \/ slug token = "ethereum" \/ slug token = "cosmos").
  { intros token. rewrite supported_qualifies. unfold qualifies. split.
    - intros [H|[[H _]|[[H _]|[H _]]]]; [done|contradiction..].
    - intros H. by left. }
  split; [exact Hsup|]. split.
  - intros found s' Hmiss Hrun.
    pose proof (getTokenSlug_cache cfg net asset s) as H. rewrite Hrun in H.
    destruct H as (Hne & _ & [Hc|(dir & s1 & resps & s2 & tok & _ & _ & Hfind & <-)]).
    + by specialize (Hmiss _ Hc).
    + apply find_some in Hfind as [_ Hp]. by apply Hsup.
  - intros fiatCurrency tokenPrice s'. rewrite getTokenPriceFromCryptoCom_unfold.
    destruct (loadTokenSlugMap net s) as [[dir|e] s1]; [|discriminate].
    destruct (fetchTokenPrices net (candidates asset dir) s1) as [[resps|e] s2] eqn:Hfetch;
      [|discriminate].
    destruct (List.find _ resps) as [tok|] eqn:Hfind; [|discriminate].
    intros _. apply find_some in Hfind as [Hin Hp].
    exists dir, s1, resps, s2, tok.
    split; [done|]. split; [done|]. split; [by apply list_elem_of_In | by apply Hsup].
Qed.

(** *** The constructor *)

(** X11: [new CroMarketApi()] succeeds whatever the feed does.  Once the
    promise that it starts has settled, one request for the directory has
    been sent, the cache of slugs is as it was, and the field holds the
    directory exactly when the answer has status 200 and at least one
    entry; otherwise the field stays null and the first lookup asks
    again.  With this load settled, the instance that the module exports
    is a state of [reachable]. *)
Theorem constructor_loads_directory s :
  fst (constructor net s) = Ok tt /\
  TokenSlugMap (snd (constructor net s)) = TokenSlugMap s /\
  requests (snd (constructor net s)) = requests s ++ [ReqAllTokens] /\
  tokenSlugMap (snd (constructor net s)) =
    match net_allTokens net (length (requests s)) with
    | Ok resp =>
        if (status resp =? 200)%nat && (1 <=? length (data resp))%nat
        then Some (data resp) else None
    | Throw _ => None
    end /\
  croMarketPriceApi net = perform cfg js net CallLoadTokenSlugMap initial /\
  reachable cfg js net (croMarketPriceApi net).
Proof.
  assert (Hrun : forall s0,
    constructor net s0 =
    (Ok tt,
     {| TokenSlugMap := TokenSlugMap s0;
        tokenSlugMap :=
          match net_allTokens net (length (requests s0)) with
          | Ok resp =>
              if (status resp =? 200)%nat && (1 <=? length (data resp))%nat
              then Some (data resp) else None
          | Throw _ => None
          end;
        requests := requests s0 ++ [ReqAllTokens] |})).
  { intros s0. unfold constructor. unfold bind at 1, modify at 1, try_catch, bind at 1.
    rewrite loadTokenSlugMap_unfold. simpl.
    destruct (net_allTokens net (length (requests s0))) as [resp|e]; simpl; [|done].
    destruct (Nat.eqb_spec (status resp) 200) as [Hst|Hst]; simpl; [|done].
    destruct (data resp) as [|i m]; simpl; done. }
  rewrite Hrun. simpl. repeat (split; [done|]).
  assert (Heq : croMarketPriceApi net = perform cfg js net CallLoadTokenSlugMap initial).
  { unfold croMarketPriceApi. rewrite Hrun. simpl. rewrite loadTokenSlugMap_unfold. simpl.
    destruct (net_allTokens net 0) as [resp|e]; simpl; [|done].
    destruct (Nat.eqb_spec (status resp) 200) as [Hst|Hst]; simpl; [|done].
    destruct (data resp) as [|i m]; simpl; done. }
  split; [exact Heq|]. rewrite Heq. apply reach_call, reach_initial.
Qed.

End Facts.

(** *** The theorems at work on the example feeds *)

(** The slug cached for VVS in the example session was fetched. *)
Lemma cached_slugs_were_fetched_witness :
  TokenSlugMap MarketScenario.vvsSession !! "vvs-cronos" = Some "vvs-finance" /\
  slug_fetched Scenario.feeds MarketScenario.vvsSession "vvs-finance".
Proof.
  split; [vm_compute; reflexivity|].
  apply (cached_slugs_were_fetched Scenario.someTokens Scenario.symbolic Scenario.feeds
           MarketScenario.vvsSession
           (reach_call Scenario.someTokens Scenario.symbolic Scenario.feeds
              (CallGetTokenPrices Scenario.vvsAsset "USD" "1d") initial
              (reach_initial Scenario.someTokens Scenario.symbolic Scenario.feeds))
           "vvs-cronos" "vvs-finance").
  vm_compute; reflexivity.
Defined.

(** With the request for cro-clone rejected, the price of CRO is empty
    although the native candidate has answered. *)
Lemma rejected_candidate_fails_lookup_witness :
  net_token MarketScenario.brokenFeeds 1 "crypto-com-coin" = Ok (mkResp 200 Scenario.croToken) /\
  exists s2,
    getAssetPrice Scenario.someTokens Scenario.symbolic MarketScenario.brokenFeeds
      Scenario.croAsset "USD" initial =
    (Ok (emptyPrice Scenario.croAsset "USD"), s2).
Proof.
  split; [reflexivity|].
  destruct (rejected_candidate_fails_lookup Scenario.someTokens Scenario.symbolic
              MarketScenario.brokenFeeds Scenario.croAsset "USD" initial
              Scenario.directory Scenario.loadedSession 1
              (mkSlugInfo "cro-clone" "CRO") (Rejected "Network Error"))
    as (rejection & s2 & _ & _ & _ & _ & H & _).
  - vm_compute; reflexivity.
  - vm_compute; reflexivity.
  - vm_compute; reflexivity.
  - by exists s2.
Defined.

(** DOGE is not in the example directory. *)
Lemma unlisted_symbol_sends_no_token_request_witness :
  getAssetPrice Scenario.someTokens Scenario.symbolic Scenario.feeds
    MarketScenario.dogeAsset "USD" initial =
  (Ok (emptyPrice MarketScenario.dogeAsset "USD"), Scenario.loadedSession).
Proof.
  refine (proj1 (proj2 (unlisted_symbol_sends_no_token_request Scenario.someTokens
                          Scenario.symbolic Scenario.feeds MarketScenario.dogeAsset
                          "USD" "1d" initial Scenario.directory Scenario.loadedSession _ _))).
  - vm_compute; reflexivity.
  - intros slugInfo Hin. vm_compute in Hin.
    repeat (apply elem_of_cons in Hin as [->|Hin]; [discriminate|]).
    by apply elem_of_nil in Hin.
Defined.

(** Of the two records fetched for CRO only the native one qualifies:
    the price does not depend on which of the two arrives first. *)
Lemma single_match_ignores_arrival_order_witness :
  getAssetPrice Scenario.someTokens Scenario.symbolic
    (with_latency (fun n => 10 - n) Scenario.feeds) Scenario.croAsset "EUR" initial =
  getAssetPrice Scenario.someTokens Scenario.symbolic Scenario.feeds
    Scenario.croAsset "EUR" initial.
Proof.
  refine (proj1 (proj2 (single_match_ignores_arrival_order Scenario.someTokens
                          Scenario.symbolic Scenario.feeds Scenario.croAsset "EUR"
                          (fun n => 10 - n) initial Scenario.directory Scenario.loadedSession
                          [mkResp 200 Scenario.croToken;
                           mkResp 200 (Scenario.otherToken "cro-clone" "CRO")]
                          _ _ _ _))).
  - vm_compute; reflexivity.
  - vm_compute; reflexivity.
  - intros x y Hx Hy Hpx Hpy.
    apply elem_of_cons in Hx as [->|Hx]; apply elem_of_cons in Hy as [->|Hy]; try done.
    + apply list_elem_of_singleton in Hy as ->. vm_compute in Hpy. discriminate.
    + apply list_elem_of_singleton in Hx as ->. vm_compute in Hpx. discriminate.
    + apply list_elem_of_singleton in Hx as ->. vm_compute in Hpx. discriminate.
Defined.


(** The CRO asset of the examples is a Tendermint asset. *)
Lemma native_slugs_only_witness :
  supported Scenario.someTokens Scenario.croAsset (Scenario.otherToken "cro-clone" "CRO") = true <->
  "cro-clone" = "crypto-com-coin" \/ "cro-clone" = "ethereum" \/ "cro-clone" = "cosmos".
Proof.
  refine (proj1 (native_slugs_only Scenario.someTokens Scenario.symbolic Scenario.feeds
                   Scenario.croAsset initial _ _) (Scenario.otherToken "cro-clone" "CRO"));
    discriminate.
Defined.

End MarketApiSessionFacts.

(** ** The directory when loads overlap *)
Module MarketApiOverlapFacts.
Import MarketApi MarketApiSession MarketApiFacts MarketApiOverlap.

Section Facts.
Context (net : Net).

Lemma run_app schedule more p :
  run net (schedule ++ more) p = run net more (run net schedule p).
Proof. apply fold_left_app. Qed.

Lemma directory_fetched_later s s' dir :
  (exists new, requests s' = requests s ++ new) ->
  directory_fetched net s dir -> directory_fetched net s' dir.
Proof.
  intros (new & Hreq) (n & resp & Hn & Hnet & Hst & Hdata & Hne).
  exists n, resp. split; [|done]. rewrite Hreq. by apply lookup_app_l_Some.
Qed.

Lemma directory_fetched_nonempty s dir : directory_fetched net s dir -> dir <> [].
Proof. by intros (n & resp & _ & _ & _ & _ & Hne). Qed.

(** The answer to request [n] is kept by a load exactly when it is
    usable. *)
Lemma kept_answer n resp :
  net_allTokens net n = Ok resp ->
  negb (status resp =? 200)%nat || (length (data resp) <? 1)%nat = false ->
  directory_answered net n /\ status resp = 200%nat /\ data resp <> [].
Proof.
  intros Hnet Hok. apply orb_false_iff in Hok as [Hst Hlen].
  apply negb_false_iff, Nat.eqb_eq in Hst. apply Nat.ltb_ge in Hlen.
  assert (data resp <> []) by (intros H; rewrite H in Hlen; simpl in Hlen; lia).
  split; [by exists resp|done].
Qed.

Lemma dropped_answer n :
  match net_allTokens net n with
  | Throw _ => True
  | Ok resp => negb (status resp =? 200)%nat || (length (data resp) <? 1)%nat = true
  end ->
  ~ directory_answered net n.
Proof.
  intros H (resp & Hnet & Hst & Hne). rewrite Hnet in H.
  apply orb_true_iff in H as [H|H].
  - apply negb_true_iff, Nat.eqb_neq in H. contradiction.
  - apply Nat.ltb_lt in H. destruct (data resp); [done|simpl in H; lia].
Qed.

Lemma elem_of_rest {A} (l : list A) k x :
  x ∈ take k l ++ drop (S k) l -> x ∈ l.
Proof.
  intros H. apply elem_of_app in H as [H|H].
  - rewrite <- (take_drop k l). apply elem_of_app. by left.
  - rewrite <- (take_drop (S k) l). apply elem_of_app. by right.
Qed.

(** *** Whatever the schedule *)

Lemma coherent_constructed : coherent net constructed.
Proof.
  split; [|split]; cbn.
  - intros who n H. apply list_elem_of_singleton in H as [= _ ->]. reflexivity.
  - intros dir H. discriminate.
  - intros dir H. discriminate.
Qed.

Lemma coherent_step a p : coherent net p -> coherent net (step net a p).
Proof.
  intros Hco. pose proof Hco as (Hfl & Hfield & Hthen).
  destruct a as [|k| |sent cache]; cbn [step].
  - unfold startLoad.
    assert (Hsend : coherent net
      {| store := {| TokenSlugMap := TokenSlugMap (store p);
                     tokenSlugMap := tokenSlugMap (store p);
                     requests := requests (store p) ++ [ReqAllTokens] |};
         inflight := inflight p ++ [(ByMethod, length (requests (store p)))];
         continuation := continuation p |}).
    { split; [|split]; cbn.
      - intros who n H. apply elem_of_app in H as [H|H].
        + apply lookup_app_l_Some. by apply (Hfl who).
        + apply list_elem_of_singleton in H as [= _ ->].
          rewrite lookup_app_r by lia. by rewrite Nat.sub_diag.
      - intros dir H. eapply directory_fetched_later; [|by apply Hfield]. by eexists.
      - intros dir H. eapply directory_fetched_later; [|by apply Hthen]. by eexists. }
    destruct (tokenSlugMap (store p)) as [[|x m]|] eqn:Hf; [exact Hsend| |exact Hsend].
    split; [|split]; cbn; [exact Hfl| |exact Hthen].
    intros dir H. apply Hfield. by rewrite <- Hf.
  - unfold answerLoad. destruct (inflight p !! k) as [[who n]|] eqn:Hk; [|exact Hco].
    assert (Hrest : forall who' n',
      (who', n') ∈ take k (inflight p) ++ drop (S k) (inflight p) ->
      requests (store p) !! n' = Some ReqAllTokens).
    { intros who' n' H. apply (Hfl who'). by eapply elem_of_rest. }
    assert (Hdrop : coherent net
      {| store := store p; inflight := take k (inflight p) ++ drop (S k) (inflight p);
         continuation := continuation p |}) by (by split).
    destruct (net_allTokens net n) as [resp|e] eqn:Hnet; [|exact Hdrop].
    destruct (negb (status resp =? 200)%nat || (length (data resp) <? 1)%nat) eqn:Hok;
      [exact Hdrop|].
    destruct (kept_answer n resp Hnet Hok) as (_ & Hst & Hne).
    assert (Hnew : directory_fetched net (store p) (data resp)).
    { exists n, resp. split; [|done]. apply (Hfl who). by eapply list_elem_of_lookup_2. }
    split; [|split]; cbn.
    + exact Hrest.
    + by intros dir [= <-].
    + destruct who; [by intros dir [= <-]|exact Hthen].
  - unfold runThen. destruct (continuation p) as [slugMap|] eqn:Hc; [|exact Hco].
    split; [|split]; cbn; [exact Hfl| |done].
    intros dir [= <-]. by apply Hthen.
  - unfold otherwise. split; [|split]; cbn.
    + intros who n H. apply lookup_app_l_Some. by apply (Hfl who).
    + intros dir H. eapply directory_fetched_later; [|by apply Hfield]. by eexists.
    + intros dir H. eapply directory_fetched_later; [|by apply Hthen]. by eexists.
Qed.

Lemma coherent_run schedule p : coherent net p -> coherent net (run net schedule p).
Proof.
  revert p. induction schedule as [|a schedule IH]; intros p H; [done|].
  apply IH. by apply coherent_step.
Qed.

(** *** Once the field holds a directory *)

Lemma not_all_tokens_filter sent :
  ReqAllTokens ∉ List.filter (fun r => negb (isAllTokens r)) sent.
Proof.
  intros H. apply list_elem_of_In, filter_In in H as [_ H]. discriminate.
Qed.

(** A step from a pool whose field holds a directory: the field still
    holds one, and the requests sent are not for the directory. *)
Lemma loaded_step a p dir :
  coherent net p ->
  tokenSlugMap (store p) = Some dir ->
  (exists dir', tokenSlugMap (store (step net a p)) = Some dir') /\
  (exists new, requests (store (step net a p)) = requests (store p) ++ new /\
               (ReqAllTokens ∉ new)) /\
  (inflight p = [] -> continuation p = None ->
   tokenSlugMap (store (step net a p)) = Some dir /\
   inflight (step net a p) = [] /\ continuation (step net a p) = None).
Proof.
  intros (Hfl & Hfield & Hthen) Hdir.
  pose proof (directory_fetched_nonempty _ _ (Hfield dir Hdir)) as Hne.
  assert (Hsame : exists new : list Request,
    requests (store p) = requests (store p) ++ new /\ (ReqAllTokens ∉ new)).
  { exists []. split; [by rewrite app_nil_r|apply not_elem_of_nil]. }
  destruct a as [|k| |sent cache]; cbn [step].
  - unfold startLoad. rewrite Hdir. destruct dir as [|x m]; [done|]. cbn.
    split; [by eexists|]. split; [exact Hsame|]. intros Hi Hc. split; [done|split; done].
  - unfold answerLoad. destruct (inflight p !! k) as [[who n]|] eqn:Hk.
    2:{ split; [by exists dir|]. split; [exact Hsame|]. intros Hi Hc. split; [done|split; done]. }
    assert (Hbusy : inflight p = [] -> False) by (intros H; by rewrite H in Hk).
    destruct (net_allTokens net n) as [resp|e].
    2:{ cbn. split; [by exists dir|]. split; [exact Hsame|]. intros H. by destruct Hbusy. }
    destruct (negb (status resp =? 200)%nat || (length (data resp) <? 1)%nat); cbn.
    + split; [by exists dir|]. split; [exact Hsame|]. intros H. by destruct Hbusy.
    + split; [by eexists|]. split; [exact Hsame|]. intros H. by destruct Hbusy.
  - unfold runThen. destruct (continuation p) as [slugMap|] eqn:Hc0; cbn.
    + split; [by eexists|]. split; [exact Hsame|]. intros Hi Hc. discriminate.
    + split; [by exists dir|]. split; [exact Hsame|]. intros Hi Hc. split; [done|split; done].
  - unfold otherwise. cbn. split; [by exists dir|]. split; [|intros Hi Hc; split; [done|split; done]].
    eexists. split; [reflexivity|apply not_all_tokens_filter].
Qed.

Lemma loaded_run schedule p dir :
  coherent net p ->
  tokenSlugMap (store p) = Some dir ->
  (exists dir', tokenSlugMap (store (run net schedule p)) = Some dir') /\
  (exists new, requests (store (run net schedule p)) = requests (store p) ++ new /\
               (ReqAllTokens ∉ new)) /\
  (inflight p = [] -> continuation p = None ->
   tokenSlugMap (store (run net schedule p)) = Some dir).
Proof.
  revert p dir. induction schedule as [|a schedule IH]; intros p dir Hco Hdir.
  { split; [by eexists|]. split; [|done].
    exists []. split; [by rewrite app_nil_r|apply not_elem_of_nil]. }
  destruct (loaded_step a p dir Hco Hdir) as ((dir1 & Hdir1) & (new1 & Hreq1 & Hnew1) & Hq).
  pose proof (coherent_step a p Hco) as Hco1.
  destruct (IH (step net a p) dir1 Hco1 Hdir1) as (Hdir2 & (new2 & Hreq2 & Hnew2) & Hq2).
  cbn [run fold_left]. fold (run net schedule (step net a p)).
  split; [exact Hdir2|]. split.
  - exists (new1 ++ new2). split; [by rewrite Hreq2, Hreq1, app_assoc|].
    intros H. apply elem_of_app in H as [H|H]; contradiction.
  - intros Hi Hc. destruct (Hq Hi Hc) as (Hd & Hi1 & Hc1).
    destruct (IH (step net a p) dir Hco1 Hd) as (_ & _ & Hq3). by apply Hq3.
Qed.

(** *** When loads do not overlap *)

Lemma usable_request_later s s' n :
  (exists new, requests s' = requests s ++ new /\ (ReqAllTokens ∉ new)) ->
  usable_request net s' n -> usable_request net s n.
Proof.
  intros (new & Hreq & Hnew) [Hn Hans]. split; [|done].
  rewrite Hreq in Hn. apply lookup_app_Some in Hn as [Hn|[_ Hn]]; [done|].
  apply list_elem_of_lookup_2 in Hn. contradiction.
Qed.

Lemma one_at_a_time_constructed : one_at_a_time net constructed.
Proof.
  split; [|split]; cbn.
  - lia.
  - intros n m [Hn _] [Hm _]. destruct n as [|n], m as [|m]; done.
  - intros _ n [Hn _]. destruct n as [|n]; [|done]. exists ByConstructor.
    by apply list_elem_of_singleton.
Qed.

Lemma one_at_a_time_step a p :
  coherent net p ->
  one_at_a_time net p ->
  (a = Load -> inflight p = []) ->
  one_at_a_time net (step net a p).
Proof.
  intros (Hfl & Hfield & Hthen) Hoat Hserial. pose proof Hoat as (Hlen & Hone & Hwait).
  destruct a as [|k| |sent cache]; cbn [step].
  - specialize (Hserial eq_refl). unfold startLoad.
    assert (Hsend : (tokenSlugMap (store p) = None \/ tokenSlugMap (store p) = Some []) ->
      one_at_a_time net
        {| store := {| TokenSlugMap := TokenSlugMap (store p);
                       tokenSlugMap := tokenSlugMap (store p);
                       requests := requests (store p) ++ [ReqAllTokens] |};
           inflight := inflight p ++ [(ByMethod, length (requests (store p)))];
           continuation := continuation p |}).
    { intros Hempty.
      assert (Hnone : forall n, usable_request net (store p) n -> False).
      { intros n Hn. destruct (Hwait Hempty n Hn) as (who & Hin).
        rewrite Hserial in Hin. by apply elem_of_nil in Hin. }
      assert (Hlast : forall n,
        usable_request net
          {| TokenSlugMap := TokenSlugMap (store p);
             tokenSlugMap := tokenSlugMap (store p);
             requests := requests (store p) ++ [ReqAllTokens] |} n ->
        n = length (requests (store p))).
      { intros n [Hn Hans]. cbn in Hn.
        apply lookup_app_Some in Hn as [Hn|[Hge Hn]].
        - destruct (Hnone n). by split.
        - apply lookup_lt_Some in Hn. simpl in Hn. lia. }
      split; [|split]; cbn.
      - rewrite Hserial. simpl. lia.
      - intros n m Hn Hm. by rewrite (Hlast n Hn), (Hlast m Hm).
      - intros _ n Hn. exists ByMethod. rewrite (Hlast n Hn).
        apply elem_of_app. right. by apply list_elem_of_singleton. }
    destruct (tokenSlugMap (store p)) as [[|x m]|] eqn:Hf; [by apply Hsend; right| |by apply Hsend; left].
    split; [|split]; cbn; [exact Hlen|exact Hone|].
    rewrite Hf. intros [H|H]; discriminate.
  - unfold answerLoad. destruct (inflight p !! k) as [[who n]|] eqn:Hk; [|exact Hoat].
    assert (Hall : inflight p = [(who, n)]).
    { destruct (inflight p) as [|x [|y l]]; simpl in Hlen; [done| |lia].
      destruct k as [|k]; [by injection Hk as ->|done]. }
    assert (Hrest : take k (inflight p) ++ drop (S k) (inflight p) = []).
    { rewrite Hall in Hk |- *. destruct k as [|k]; [done|]. discriminate. }
    rewrite Hrest.
    assert (Hdrop : ~ directory_answered net n ->
      one_at_a_time net
        {| store := store p; inflight := []; continuation := continuation p |}).
    { intros Hbad. split; [|split]; cbn; [lia|exact Hone|].
      intros Hempty m Hm. destruct (Hwait Hempty m Hm) as (who' & Hin).
      rewrite Hall in Hin. apply list_elem_of_singleton in Hin as [= _ ->].
      destruct Hm as [_ Hm]. contradiction. }
    destruct (net_allTokens net n) as [resp|e] eqn:Hnet.
    2:{ apply Hdrop, dropped_answer. by rewrite Hnet. }
    destruct (negb (status resp =? 200)%nat || (length (data resp) <? 1)%nat) eqn:Hok.
    { apply Hdrop, dropped_answer. by rewrite Hnet. }
    destruct (kept_answer n resp Hnet Hok) as (_ & _ & Hne).
    split; [|split]; cbn; [lia|exact Hone|].
    intros [H|H]; [discriminate|]. injection H as H. contradiction.
  - unfold runThen. destruct (continuation p) as [slugMap|] eqn:Hc; [|exact Hoat].
    pose proof (directory_fetched_nonempty _ _ (Hthen slugMap eq_refl)) as Hne.
    split; [|split]; cbn; [exact Hlen|exact Hone|].
    intros [H|H]; [discriminate|]. injection H as H. contradiction.
  - unfold otherwise.
    assert (Hback : forall n,
      usable_request net
        {| TokenSlugMap := cache; tokenSlugMap := tokenSlugMap (store p);
           requests := requests (store p) ++
                       List.filter (fun r => negb (isAllTokens r)) sent |} n ->
      usable_request net (store p) n).
    { intros n. apply usable_request_later. eexists. split; [reflexivity|].
      apply not_all_tokens_filter. }
    split; [|split]; cbn; [exact Hlen| |].
    + intros n m Hn Hm. apply Hone; by apply Hback.
    + intros Hempty n Hn. apply (Hwait Hempty). by apply Hback.
Qed.

Lemma one_at_a_time_run schedule p :
  coherent net p ->
  one_at_a_time net p ->
  serial net schedule p ->
  one_at_a_time net (run net schedule p).
Proof.
  revert p. induction schedule as [|a schedule IH]; intros p Hco Hone Hs; [done|].
  destruct Hs as [Ha Hs]. apply IH; [by apply coherent_step| |done].
  by apply one_at_a_time_step.
Qed.

(** *** The steps run back to back *)

Lemma load_steps p :
  store (answerLoad net (length (inflight p)) (startLoad ByMethod p)) =
  snd (loadTokenSlugMap net (store p)).
Proof.
  rewrite loadTokenSlugMap_unfold. unfold startLoad, answerLoad.
  destruct p as [[cache field reqs] fl c]. cbn [store inflight continuation
    tokenSlugMap TokenSlugMap requests].
  assert (Hmiss : fl !! length fl = None) by (apply lookup_ge_None; lia).
  assert (Hhit : forall x, (fl ++ [x]) !! length fl = Some x).
  { intros x. rewrite lookup_app_r by lia. by rewrite Nat.sub_diag. }
  destruct field as [[|x m]|]; cbn [store inflight continuation requests tokenSlugMap].
  - rewrite Hhit. by destruct (net_allTokens net (length reqs)) as [resp|e];
      [destruct (negb (status resp =? 200)%nat || (length (data resp) <? 1)%nat)|].
  - by rewrite Hmiss.
  - rewrite Hhit. by destruct (net_allTokens net (length reqs)) as [resp|e];
      [destruct (negb (status resp =? 200)%nat || (length (data resp) <? 1)%nat)|].
Qed.

Lemma constructor_steps :
  store (runThen (answerLoad net 0 constructed)) = croMarketPriceApi net.
Proof.
  unfold croMarketPriceApi, constructor, constructed, startLoad, answerLoad, runThen, fresh,
    initial.
  unfold bind, modify, try_catch, ret. rewrite loadTokenSlugMap_unfold.
  cbn [store inflight continuation tokenSlugMap TokenSlugMap requests lookup list_lookup
       app length fst snd take drop].
  by destruct (net_allTokens net 0) as [resp|e];
    [destruct (negb (status resp =? 200)%nat || (length (data resp) <? 1)%nat)|].
Qed.

(** A usable answer is kept. *)
Lemma answerLoad_kept k p who n resp :
  inflight p !! k = Some (who, n) ->
  net_allTokens net n = Ok resp ->
  status resp = 200%nat ->
  data resp <> [] ->
  answerLoad net k p =
  {| store := {| TokenSlugMap := TokenSlugMap (store p);
                 tokenSlugMap := Some (data resp);
                 requests := requests (store p) |};
     inflight := take k (inflight p) ++ drop (S k) (inflight p);
     continuation := match who with
                     | ByConstructor => Some (data resp)
                     | ByMethod => continuation p
                     end |}.
Proof.
  intros Hk Hnet Hst Hne. unfold answerLoad. rewrite Hk, Hnet, Hst.
  by destruct (data resp).
Qed.

(** X2: the directory when loads overlap.  [loadTokenSlugMap] is split at
    its [await] and the parts of the loads in flight, the [then] callback
    of the constructor and the other work of the methods run in any
    order, starting when the constructor has returned with its load in
    flight.  Run back to back, the two parts are [loadTokenSlugMap], and
    the constructor with its callback is [croMarketPriceApi].  Whatever
    the order: a directory held in the field is the answer, with status
    200 and at least one entry, to a request of this session; once the
    field holds a directory it holds one for ever, possibly another one
    that was in flight, and no request for the directory is sent any
    more; and when, in addition, no load is in flight and the callback
    has run, the directory is never replaced.  When no load starts while
    another is in flight, at most one request for the directory is
    answered usably.  When loads do overlap this fails: a method called
    before the constructor's answer arrives sends a second request, both
    answers are stored in turn, and the callback then puts the first one
    back. *)
Theorem directory_under_overlapping_loads :
  (forall p,
      store (answerLoad net (length (inflight p)) (startLoad ByMethod p)) =
      snd (loadTokenSlugMap net (store p))) /\
  store (runThen (answerLoad net 0 constructed)) = croMarketPriceApi net /\
  (forall schedule,
      let p := run net schedule constructed in
      (forall dir,
          tokenSlugMap (store p) = Some dir -> directory_fetched net (store p) dir) /\
      (forall dir more,
          tokenSlugMap (store p) = Some dir ->
          let p' := run net more p in
          (exists dir',
              tokenSlugMap (store p') = Some dir' /\
              directory_fetched net (store p') dir') /\
          (exists new,
              requests (store p') = requests (store p) ++ new /\ (ReqAllTokens ∉ new)) /\
          (inflight p = [] -> continuation p = None ->
           tokenSlugMap (store p') = Some dir)) /\
      (serial net schedule constructed ->
       forall n m,
         usable_request net (store p) n -> usable_request net (store p) m -> n = m)) /\
  (forall first second,
      net_allTokens net 0 = Ok first -> status first = 200%nat -> data first <> [] ->
      net_allTokens net 1 = Ok second -> status second = 200%nat -> data second <> [] ->
      let p := run net [Load; Answer 0; Answer 0] constructed in
      requests (store p) = [ReqAllTokens; ReqAllTokens] /\
      usable_request net (store p) 0 /\
      usable_request net (store p) 1 /\
      tokenSlugMap (store p) = Some (data second) /\
      tokenSlugMap (store (step net RunThen p)) = Some (data first)).
Proof.
  split; [apply load_steps|]. split; [apply constructor_steps|]. split.
  - intros schedule. cbv zeta.
    pose proof (coherent_run schedule constructed coherent_constructed) as Hco.
    split; [exact (proj1 (proj2 Hco))|]. split.
    + intros dir more Hdir.
      destruct (loaded_run more _ dir Hco Hdir) as ((dir' & Hdir') & Hreq & Hquiet).
      split; [|split; [exact Hreq|exact Hquiet]].
      exists dir'. split; [exact Hdir'|].
      exact (proj1 (proj2 (coherent_run more _ Hco)) dir' Hdir').
    + intros Hserial.
      exact (proj1 (proj2 (one_at_a_time_run schedule constructed coherent_constructed
                             one_at_a_time_constructed Hserial))).
  - intros first second H0 Hst0 Hne0 H1 Hst1 Hne1. cbv zeta.
    change (run net [Load; Answer 0; Answer 0] constructed)
      with (answerLoad net 0 (answerLoad net 0
              {| store := {| TokenSlugMap := ∅; tokenSlugMap := None;
                             requests := [ReqAllTokens; ReqAllTokens] |};
                 inflight := [(ByConstructor, 0); (ByMethod, 1)];
                 continuation := None |})).
    rewrite (answerLoad_kept 0
               {| store := {| TokenSlugMap := ∅; tokenSlugMap := None;
                              requests := [ReqAllTokens; ReqAllTokens] |};
                  inflight := [(ByConstructor, 0); (ByMethod, 1)];
                  continuation := None |}
               ByConstructor 0 first eq_refl H0 Hst0 Hne0).
    cbn [store inflight continuation tokenSlugMap TokenSlugMap requests take drop app].
    rewrite (answerLoad_kept 0
               {| store := {| TokenSlugMap := ∅; tokenSlugMap := Some (data first);
                              requests := [ReqAllTokens; ReqAllTokens] |};
                  inflight := [(ByMethod, 1)];
                  continuation := Some (data first) |}
               ByMethod 1 second eq_refl H1 Hst1 Hne1).
    cbn [store inflight continuation tokenSlugMap TokenSlugMap requests take drop app
         step runThen].
    split; [done|]. split; [by split; [|exists first]|].
    split; [by split; [|exists second]|]. split; done.
Qed.

End Facts.

Lemma directory_under_overlapping_loads_witness :
  let p := run Scenario.feeds [Load; Answer 0; Answer 0] constructed in
  requests (store p) = [ReqAllTokens; ReqAllTokens] /\
  usable_request Scenario.feeds (store p) 0 /\
  usable_request Scenario.feeds (store p) 1 /\
  tokenSlugMap (store p) = Some Scenario.directory /\
  tokenSlugMap (store (step Scenario.feeds RunThen p)) = Some Scenario.directory.
Proof.
  apply (proj2 (proj2 (proj2 (directory_under_overlapping_loads Scenario.feeds)))
           (mkResp 200 Scenario.directory) (mkResp 200 Scenario.directory));
    done.
Defined.

End MarketApiOverlapFacts.

(** ** More properties of wallet creation *)
Module CreateRunsFacts.
Import Create CreateRuns CreateFacts.

Section Facts.
Context (world : World).

(** *** Every run of [onWalletCreateFinishCore], case by case *)

Lemma form_cases form :
  rejected_form world form \/ exists createOptions, accepted_form world form createOptions.
Proof.
  unfold rejected_form, accepted_form.
  destruct (form_name form) as [[|c1 name]|] eqn:Hn; [tauto| |tauto].
  destruct (form_walletType form) as [wt|] eqn:Hwt; [|tauto].
  destruct (form_network form) as [[|c2 network]|] eqn:Hnet; [tauto| |tauto].
  destruct (getSelectedNetwork world (String c2 network)) as [selected|] eqn:Hsel.
  - right. eexists. exists (String c1 name), wt, (String c2 network), selected.
    repeat split; try done.
  - left. do 5 right. by eexists.
Qed.

Lemma creates_accepted form cw :
  creates world form cw <->
  exists createOptions,
    accepted_form world form createOptions /\ create world createOptions = Ok cw.
Proof.
  unfold creates, accepted_form. split.
  - intros (name & wt & network & selected & Hn & Hne & Hwt & Hnet & Hnete & Hsel & Hc).
    eexists. split; [|exact Hc]. exists name, wt, network, selected. by repeat split.
  - intros (opts & (name & wt & network & selected & Hn & Hne & Hwt & Hnet & Hnete & Hsel & ->)
            & Hc).
    exists name, wt, network, selected. by repeat split.
Qed.

Lemma accepted_form_unique form o1 o2 :
  accepted_form world form o1 -> accepted_form world form o2 -> o1 = o2.
Proof.
  intros (n1 & w1 & k1 & c1 & Hn1 & _ & Hw1 & Hk1 & _ & Hc1 & ->)
         (n2 & w2 & k2 & c2 & Hn2 & _ & Hw2 & Hk2 & _ & Hc2 & ->).
  congruence.
Qed.

Lemma accepted_not_rejected form createOptions :
  accepted_form world form createOptions -> ~ rejected_form world form.
Proof.
  intros (name & wt & network & selected & Hn & Hne & Hwt & Hnet & Hnete & Hsel & _)
         [H|[H|[H|[H|[H|(network' & H1 & H2)]]]]]; congruence.
Qed.

Lemma rejected_run form flag :
  rejected_form world form ->
  onWalletCreateFinishCore world form (initial flag) =
  (Ok tt, {| waitFlag := flag; awaits := 0; createdWallet := None;
             events := [EvSet CreateLoading true] |}).
Proof.
  intros Hrej. unfold onWalletCreateFinishCore, emit, initial.
  unfold bind at 1, modify at 1. simpl.
  destruct Hrej as [H|[H|[H|[H|[H|(network & H1 & H2)]]]]].
  - rewrite H. reflexivity.
  - rewrite H. reflexivity.
  - rewrite H. by destruct (form_name form) as [[|c n]|].
  - rewrite H. by destruct (form_name form) as [[|c n]|]; destruct (form_walletType form).
  - rewrite H. by destruct (form_name form) as [[|c n]|]; destruct (form_walletType form).
  - rewrite H1. destruct (form_name form) as [[|c n]|]; try done.
    destruct (form_walletType form); try done.
    destruct network as [|c2 network]; [done|]. by rewrite H2.
Qed.

Lemma failed_create_run form flag createOptions e :
  accepted_form world form createOptions ->
  create world createOptions = Throw e ->
  onWalletCreateFinishCore world form (initial flag) =
  (Ok tt, {| waitFlag := flag && negb (handlerFires world 0); awaits := 1;
             createdWallet := None;
             events := [EvSet CreateLoading true; EvWalletCreate createOptions] ++
                       failure_events e |}).
Proof.
  intros (name & wt & network & selected & Hn & Hne & Hwt & Hnet & Hnete & Hsel & ->) Hcreate.
  unfold onWalletCreateFinishCore. rewrite Hn, Hwt, Hnet.
  destruct name as [|c1 name]; [done|]. destruct network as [|c2 network]; [done|].
  rewrite Hsel.
  unfold createAndSave, walletCreate, onCreateError, emit, suspend, initial.
  unfold bind, ret, throw, get, modify, settle, try_catch. simpl.
  rewrite Hcreate. reflexivity.
Qed.

Lemma software_run form flag createOptions cw :
  accepted_form world form createOptions ->
  create world createOptions = Ok cw ->
  walletType (wallet cw) = NORMAL_WALLET_TYPE ->
  onWalletCreateFinishCore world form (initial flag) =
  (Ok tt, {| waitFlag := flag && negb (handlerFires world 0) && negb (handlerFires world 1);
             awaits := 2;
             createdWallet := Some cw;
             events := [EvSet CreateLoading true; EvWalletCreate createOptions;
                        EvSaveAssets (assets cw)] ++
                       match saveAssets world (assets cw) with
                       | Ok _ => success_events (wallet cw) ++ [EvResetFields]
                       | Throw e => failure_events e
                       end |}).
Proof.
  intros (name & wt & network & selected & Hn & Hne & Hwt & Hnet & Hnete & Hsel & ->)
         Hcreate Hnormal.
  unfold onWalletCreateFinishCore. rewrite Hn, Hwt, Hnet.
  destruct name as [|c1 name]; [done|]. destruct network as [|c2 network]; [done|].
  rewrite Hsel.
  unfold createAndSave, walletCreate, saveAssetsCall, onCreateError, readDraft, writeDraft,
    emit, suspend, initial.
  unfold bind, ret, throw, get, modify, settle, try_catch. simpl.
  rewrite Hcreate. simpl. rewrite Hnormal. simpl.
  by destruct (saveAssets world (assets cw)) as [[]|e].
Qed.

(** The Ledger branch, as in [finish_ledger_outcome], with the options
    given to the creator spelled out. *)
Lemma ledger_run form flag createOptions cw :
  accepted_form world form createOptions ->
  create world createOptions = Ok cw ->
  walletType (wallet cw) = LEDGER_WALLET_TYPE ->
  let standard := form_derivationPathStandard form in
  let w := wallet cw in
  let k1 := polls (handlerFires world) 2 600 in
  let k2 := polls (handlerFires world) (S (S (k1 + 2))) 600 in
  let final draft evs :=
    exists fl n,
      onWalletCreateFinishCore world form (initial flag) =
      (Ok tt, {| waitFlag := fl; awaits := n; createdWallet := Some draft;
                 events := [EvSet CreateLoading true; EvWalletCreate createOptions] ++ evs |}) in
  match answer world (croCall w) with
  | Throw e => final cw (cro_events world w ++ failure_events e)
  | Ok a1 =>
      match assign_first isCroAsset a1 (assets cw) with
      | None => final cw (cro_events world w ++ failure_events undefinedAddress)
      | Some assets1 =>
          let w1 := set_walletAddress a1 w in
          let evs2 := cro_events world w ++ eth_events world w standard k1 in
          match answer world (ethCall w standard) with
          | Throw e => final {| wallet := w1; assets := assets1 |} (evs2 ++ failure_events e)
          | Ok a2 =>
              let assets2 := assign_all isEvmAsset a2 assets1 in
              let evs3 := evs2 ++ cosmos_events world w k2 in
              match answer world (cosmosCall w) with
              | Throw e =>
                  final {| wallet := w1; assets := assets2 |} (evs3 ++ failure_events e)
              | Ok a3 =>
                  match assign_first isAtomAsset a3 assets2 with
                  | None =>
                      final {| wallet := w1; assets := assets2 |}
                            (evs3 ++ failure_events undefinedAddress)
                  | Some assets3 =>
                      match saveAssets world assets3 with
                      | Ok _ =>
                          final {| wallet := w1; assets := assets3 |}
                                (evs3 ++ EvSaveAssets assets3 ::
                                      success_events w1 ++ [EvResetFields])
                      | Throw e =>
                          final {| wallet := w1; assets := assets3 |}
                                (evs3 ++ EvSaveAssets assets3 :: failure_events e)
                      end
                  end
              end
          end
      end
  end.
Proof.
  intros (name & wt & network & selected & Hn & Hne & Hwt & Hnet & Hnete & Hsel & ->)
         Hcreate Hledger.
  cbv zeta.
  pose proof (fun s => ledgerDerivation_outcome world (form_derivationPathStandard form) s cw)
    as Hout.
  cbv zeta in Hout.
  set (bound := 600) in *. clearbody bound.
  unfold onWalletCreateFinishCore. rewrite Hn, Hwt, Hnet.
  destruct name as [|c1 name]; [done|]. destruct network as [|c2 network]; [done|].
  rewrite Hsel.
  unfold createAndSave, walletCreate, saveAssetsCall, onCreateError, readDraft, writeDraft,
    emit, suspend.
  set (ld := ledgerDerivation world (form_derivationPathStandard form)) in *.
  unfold initial, bind, ret, throw, get, modify, settle, try_catch. simpl.
  rewrite Hcreate. simpl. rewrite Hledger. simpl.
  match goal with |- context [ld ?s0] => specialize (Hout s0 eq_refl) end.
  unfold failure_events, success_events.
  unfold cro_events, eth_events, cosmos_events, settled, answer,
    croCall, ethCall, cosmosCall in *.
  simpl in Hout |- *.
  destruct (getAddress world _ _ CRYPTO_ORG _ _) as [a1|e];
    [|destruct Hout as (fl & n & ->); simpl; eexists _, _; by rewrite <- ?app_assoc].
  destruct (assign_first isCroAsset a1 (assets cw)) as [assets1|];
    [|destruct Hout as (fl & n & ->); simpl; eexists _, _; by rewrite <- ?app_assoc].
  destruct (getEthAddress world _ _ _) as [a2|e];
    [|destruct Hout as (fl & n & ->); simpl; eexists _, _; by rewrite <- ?app_assoc].
  destruct (getAddress world _ _ COSMOS_HUB _ _) as [a3|e];
    [|destruct Hout as (fl & n & ->); simpl; eexists _, _; by rewrite <- ?app_assoc].
  destruct (assign_first isAtomAsset a3 _) as [assets3|];
    [|destruct Hout as (fl & n & ->); simpl; eexists _, _; by rewrite <- ?app_assoc].
  destruct Hout as (fl & n & ->). simpl.
  destruct (saveAssets world assets3) as [[]|e]; simpl;
    eexists _, _; by rewrite <- ?app_assoc.
Qed.

(** *** Reading the log of a run *)

Lemma omap_delays {A} (g : Event -> option A) ms k :
  g (EvDelay ms) = None -> omap g (repeat (EvDelay ms) k) = [].
Proof. intros Hg. induction k as [|k IH]; simpl; [done|]. by rewrite Hg. Qed.

Local Arguments cro_events : simpl never.
Local Arguments eth_events : simpl never.
Local Arguments cosmos_events : simpl never.
Local Arguments failure_events : simpl never.
Local Arguments success_events : simpl never.

(** Evaluates a reading of a log that is given segment by segment. *)
Ltac read_log :=
  unfold loading, modals, published, backed_up, resets, creations, saved, device_calls,
    cro_events, eth_events, cosmos_events, settled, failure_events, success_events;
  rewrite ?omap_app; cbn [omap list_omap app];
  rewrite ?omap_app; cbn [omap list_omap app];
  rewrite ?omap_delays by reflexivity;
  cbn [app length].

(** X15: [onWalletCreateFinishCore] never rejects, and it ends in one of
    three ways.  A form without a name, a wallet type, a network or a
    known network configuration is not acted upon: the loading flag is set
    and stays set.  Otherwise the loading flag is set and then cleared,
    and exactly one result modal is shown.  The success modal comes with
    one reset of the form and with the wallet handed to
    [setWalletTempBackupSeed] and to [setWallet], and then [saveAssets] has
    been called, once, with the assets of that wallet as they are in
    memory, and has resolved.  The error modal comes with no reset and no
    wallet handed over. *)
Theorem run_ends_in_one_modal form flag :
  let run := onWalletCreateFinishCore world form (initial flag) in
  let tr := events (snd run) in
  fst run = Ok tt /\
  ((rejected_form world form /\ tr = [EvSet CreateLoading true]) \/
   (exists createOptions,
       accepted_form world form createOptions /\
       loading tr = [true; false] /\
       ((modals tr = [true] /\ resets tr = 1 /\
         exists draft,
           createdWallet (snd run) = Some draft /\
           saved tr = [assets draft] /\
           saveAssets world (assets draft) = Ok tt /\
           backed_up tr = [wallet draft] /\
           published tr = [wallet draft]) \/
        (modals tr = [false] /\ resets tr = 0 /\
         backed_up tr = [] /\ published tr = [])))).
Proof.
  cbv zeta. destruct (form_cases form) as [Hrej|(opts & Hacc)].
  { rewrite (rejected_run form flag Hrej). split; [done|]. by left. }
  destruct (create world opts) as [cw|e] eqn:Hcreate.
  2:{ rewrite (failed_create_run form flag opts e Hacc Hcreate). split; [done|].
      right. exists opts. split; [done|]. cbn [events snd]. split; [by read_log|].
      right. by read_log. }
  destruct (walletType (wallet cw)) eqn:Hty.
  { rewrite (software_run form flag opts cw Hacc Hcreate Hty). split; [done|].
    right. exists opts. split; [done|]. cbn [events createdWallet snd].
    destruct (saveAssets world (assets cw)) as [[]|e] eqn:Hsave.
    - split; [by read_log|]. left. split; [by read_log|]. split; [by read_log|].
      exists cw. split; [done|]. split; [by read_log|]. split; [done|].
      split; by read_log.
    - split; [by read_log|]. right. by read_log. }
  pose proof (ledger_run form flag opts cw Hacc Hcreate Hty) as Hout. cbv zeta in Hout.
  set (bound := 600) in *. clearbody bound.
  assert (Hfail : forall fl n draft evs e,
    loading evs = [] -> modals evs = [] -> backed_up evs = [] -> published evs = [] ->
    resets evs = 0 ->
    onWalletCreateFinishCore world form (initial flag) =
    (Ok tt, {| waitFlag := fl; awaits := n; createdWallet := Some draft;
               events := [EvSet CreateLoading true; EvWalletCreate opts] ++
                         evs ++ failure_events e |}) ->
    fst (onWalletCreateFinishCore world form (initial flag)) = Ok tt /\
    (rejected_form world form /\
     events (snd (onWalletCreateFinishCore world form (initial flag))) =
       [EvSet CreateLoading true] \/
     exists createOptions,
       accepted_form world form createOptions /\
       loading (events (snd (onWalletCreateFinishCore world form (initial flag)))) =
         [true; false] /\
       (modals (events (snd (onWalletCreateFinishCore world form (initial flag)))) = [true] /\
        resets (events (snd (onWalletCreateFinishCore world form (initial flag)))) = 1 /\
        (exists draft,
            createdWallet (snd (onWalletCreateFinishCore world form (initial flag))) =
              Some draft /\
            saved (events (snd (onWalletCreateFinishCore world form (initial flag)))) =
              [assets draft] /\
            saveAssets world (assets draft) = Ok tt /\
            backed_up (events (snd (onWalletCreateFinishCore world form (initial flag)))) =
              [wallet draft] /\
            published (events (snd (onWalletCreateFinishCore world form (initial flag)))) =
              [wallet draft]) \/
        modals (events (snd (onWalletCreateFinishCore world form (initial flag)))) = [false] /\
        resets (events (snd (onWalletCreateFinishCore world form (initial flag)))) = 0 /\
        backed_up (events (snd (onWalletCreateFinishCore world form (initial flag)))) = [] /\
        published (events (snd (onWalletCreateFinishCore world form (initial flag)))) = []))).
  { intros fl n draft evs e Hl Hm Hb Hp Hr ->. split; [done|]. right. exists opts.
    split; [done|]. cbn [events snd].
    unfold loading, modals, backed_up, published, resets in *.
    rewrite !omap_app, ?Hl, ?Hm, ?Hb, ?Hp.
    rewrite length_app, length_app, Hr.
    split; [reflexivity|]. right. repeat split; reflexivity. }
  assert (Hcro : forall w,
    loading (cro_events world w) = [] /\ modals (cro_events world w) = [] /\
    backed_up (cro_events world w) = [] /\ published (cro_events world w) = [] /\
    resets (cro_events world w) = 0) by (intros w; by read_log).
  assert (Heth : forall w st k,
    loading (cro_events world w ++ eth_events world w st k) = [] /\
    modals (cro_events world w ++ eth_events world w st k) = [] /\
    backed_up (cro_events world w ++ eth_events world w st k) = [] /\
    published (cro_events world w ++ eth_events world w st k) = [] /\
    resets (cro_events world w ++ eth_events world w st k) = 0)
    by (intros w st k; by read_log).
  assert (Hcosmos : forall w st k k',
    loading ((cro_events world w ++ eth_events world w st k) ++ cosmos_events world w k') = [] /\
    modals ((cro_events world w ++ eth_events world w st k) ++ cosmos_events world w k') = [] /\
    backed_up ((cro_events world w ++ eth_events world w st k) ++ cosmos_events world w k') = [] /\
    published ((cro_events world w ++ eth_events world w st k) ++ cosmos_events world w k') = [] /\
    resets ((cro_events world w ++ eth_events world w st k) ++ cosmos_events world w k') = 0)
    by (intros w st k k'; by read_log).
  destruct (answer world (croCall (wallet cw))) as [a1|e1].
  2:{ destruct Hout as (fl & n & Hrun). destruct (Hcro (wallet cw)) as (? & ? & ? & ? & ?).
      by eapply Hfail. }
  destruct (assign_first isCroAsset a1 (assets cw)) as [assets1|].
  2:{ destruct Hout as (fl & n & Hrun). destruct (Hcro (wallet cw)) as (? & ? & ? & ? & ?).
      by eapply Hfail. }
  destruct (answer world (ethCall _ _)) as [a2|e2].
  2:{ destruct Hout as (fl & n & Hrun).
      destruct (Heth (wallet cw) (form_derivationPathStandard form)
                  (polls (handlerFires world) 2 bound)) as (? & ? & ? & ? & ?).
      by eapply Hfail. }
  destruct (answer world (cosmosCall _)) as [a3|e3].
  2:{ destruct Hout as (fl & n & Hrun).
      destruct (Hcosmos (wallet cw) (form_derivationPathStandard form)
                  (polls (handlerFires world) 2 bound)
                  (polls (handlerFires world)
                     (S (S (polls (handlerFires world) 2 bound + 2))) bound))
        as (? & ? & ? & ? & ?).
      by eapply Hfail. }
  destruct (assign_first isAtomAsset a3 _) as [assets3|].
  2:{ destruct Hout as (fl & n & Hrun).
      destruct (Hcosmos (wallet cw) (form_derivationPathStandard form)
                  (polls (handlerFires world) 2 bound)
                  (polls (handlerFires world)
                     (S (S (polls (handlerFires world) 2 bound + 2))) bound))
        as (? & ? & ? & ? & ?).
      by eapply Hfail. }
  destruct (saveAssets world assets3) as [[]|e6] eqn:Hsave.
  - destruct Hout as (fl & n & ->). split; [done|]. right. exists opts. split; [done|].
    cbn [events createdWallet snd].
    split; [by read_log|]. left. split; [by read_log|]. split; [by read_log|].
    eexists. split; [reflexivity|]. cbn [assets wallet].
    split; [by read_log|]. split; [done|]. split; by read_log.
  - destruct Hout as (fl & n & Hrun).
    destruct (Hcosmos (wallet cw) (form_derivationPathStandard form)
                (polls (handlerFires world) 2 bound)
                (polls (handlerFires world)
                   (S (S (polls (handlerFires world) 2 bound + 2))) bound))
      as (Hl & Hm & Hb & Hp & Hr).
    set (evs3 := (cro_events world (wallet cw) ++ _) ++ cosmos_events world _ _) in *.
    apply (Hfail fl n {| wallet := set_walletAddress a1 (wallet cw); assets := assets3 |}
             (evs3 ++ [EvSaveAssets assets3]) e6).
    + unfold loading in *. by rewrite omap_app, Hl.
    + unfold modals in *. by rewrite omap_app, Hm.
    + unfold backed_up in *. by rewrite omap_app, Hb.
    + unfold published in *. by rewrite omap_app, Hp.
    + unfold resets in *. by rewrite omap_app, length_app, Hr.
    + rewrite Hrun. by rewrite <- (app_assoc evs3).
Qed.

(** The run of a Ledger wallet, whatever its outcome, as a log of which
    only the beginning matters. *)
Lemma ledger_run_shape form flag createOptions cw :
  accepted_form world form createOptions ->
  create world createOptions = Ok cw ->
  walletType (wallet cw) = LEDGER_WALLET_TYPE ->
  exists fl n draft rest,
    creations rest = [] /\
    onWalletCreateFinishCore world form (initial flag) =
    (Ok tt, {| waitFlag := fl; awaits := n; createdWallet := Some draft;
               events := [EvSet CreateLoading true; EvWalletCreate createOptions] ++
                         cro_events world (wallet cw) ++ rest |}).
Proof.
  intros Hacc Hcreate Hty.
  pose proof (ledger_run form flag createOptions cw Hacc Hcreate Hty) as Hout.
  cbv zeta in Hout. set (bound := 600) in *. clearbody bound.
  assert (Heth : forall w st k, creations (eth_events world w st k) = [])
    by (intros; by read_log).
  assert (Hcosmos : forall w k, creations (cosmos_events world w k) = [])
    by (intros; by read_log).
  destruct (answer world (croCall (wallet cw))) as [a1|e1];
    [|destruct Hout as (fl & n & ->); eexists fl, n, _, _; split; [|reflexivity];
      by read_log].
  destruct (assign_first isCroAsset a1 (assets cw)) as [assets1|];
    [|destruct Hout as (fl & n & ->); eexists fl, n, _, _; split; [|reflexivity];
      by read_log].
  destruct (answer world (ethCall _ _)) as [a2|e2].
  2:{ destruct Hout as (fl & n & ->). eexists fl, n, _, _.
      split; [|by rewrite <- !app_assoc].
      unfold creations in *. by rewrite omap_app, Heth. }
  destruct (answer world (cosmosCall _)) as [a3|e3].
  2:{ destruct Hout as (fl & n & ->). eexists fl, n, _, _.
      split; [|by rewrite <- !app_assoc].
      unfold creations in *. by rewrite !omap_app, Heth, Hcosmos. }
  destruct (assign_first isAtomAsset a3 _) as [assets3|].
  2:{ destruct Hout as (fl & n & ->). eexists fl, n, _, _.
      split; [|by rewrite <- !app_assoc].
      unfold creations in *. by rewrite !omap_app, Heth, Hcosmos. }
  destruct (saveAssets world assets3) as [[]|e6];
    destruct Hout as (fl & n & ->); eexists fl, n, _, _;
    (split; [|by rewrite <- !app_assoc]);
    unfold creations in *; by rewrite !omap_app, Heth, Hcosmos.
Qed.

(** An accepted form calls the creator once, with the options built from
    the form. *)
Lemma creations_accepted form flag createOptions :
  accepted_form world form createOptions ->
  creations (events (snd (onWalletCreateFinishCore world form (initial flag)))) =
  [createOptions].
Proof.
  intros Hacc. destruct (create world createOptions) as [cw|e] eqn:Hcreate.
  2:{ rewrite (failed_create_run form flag createOptions e Hacc Hcreate). by read_log. }
  destruct (walletType (wallet cw)) eqn:Hty.
  - rewrite (software_run form flag createOptions cw Hacc Hcreate Hty). cbn [events snd].
    by destruct (saveAssets world (assets cw)) as [[]|e]; read_log.
  - destruct (ledger_run_shape form flag createOptions cw Hacc Hcreate Hty)
      as (fl & n & draft & rest & Hrest & ->).
    cbn [events snd]. unfold creations in *. rewrite !omap_app, Hrest. by read_log.
Qed.

(** X13: the wallet creator is called at most once in a run, and exactly
    when the form has a non-empty name, a wallet type, a non-empty network
    and the network has a configuration; the options it receives are the
    name, that configuration, the wallet type, [parseInt(addressIndex, 10)]
    and the derivation path standard of the form.  A form that fails one
    of these tests changes nothing but the loading flag, which is set and
    left set. *)
Theorem creator_called_iff_form_accepted form flag :
  let final := snd (onWalletCreateFinishCore world form (initial flag)) in
  (forall createOptions,
      accepted_form world form createOptions ->
      creations (events final) = [createOptions]) /\
  (rejected_form world form ->
   final = {| waitFlag := flag; awaits := 0; createdWallet := None;
              events := [EvSet CreateLoading true] |}) /\
  (creations (events final) = [] <-> rejected_form world form).
Proof.
  cbv zeta. pose proof (creations_accepted form flag) as Hacc.
  split; [exact Hacc|]. split.
  - intros Hrej. by rewrite (rejected_run form flag Hrej).
  - split.
    + intros Hnone. destruct (form_cases form) as [Hrej|(opts & Ho)]; [done|].
      rewrite (Hacc opts Ho) in Hnone. discriminate.
    + intros Hrej. by rewrite (rejected_run form flag Hrej).
Qed.

(** X14: when the wallet creator rejects, nothing else happens: the log is
    the call of the creator followed by the [catch] block with its error,
    no wallet exists, the device is not called, nothing is saved and the
    form is not reset. *)
Theorem failed_creation_stops_run form flag createOptions e :
  accepted_form world form createOptions ->
  create world createOptions = Throw e ->
  let final := snd (onWalletCreateFinishCore world form (initial flag)) in
  events final =
    [EvSet CreateLoading true; EvWalletCreate createOptions; EvConsoleError e;
     EvSet CreateLoading false; EvSet IsLedgerCroAppConnected false;
     EvSet IsLedgerEthAppConnected false; EvSet IsLedgerCosmosAppConnected false;
     EvSet IsErrorModalVisible true] /\
  createdWallet final = None /\
  device_calls (events final) = [] /\
  saved (events final) = [] /\
  resets (events final) = 0.
Proof.
  intros Hacc Hcreate. cbv zeta.
  rewrite (failed_create_run form flag createOptions e Hacc Hcreate). by repeat split.
Qed.

(** X12: for a wallet that the creator returns as a software wallet the
    Ledger branch is skipped altogether: the device object is not created,
    no device call is made and no time is spent waiting; [saveAssets]
    receives the assets as the creator made them and the wallet keeps its
    address.  If [saveAssets] resolves the wallet is handed over and the
    success modal is shown; if it rejects, the error modal. *)
Theorem software_wallet_skips_device form flag cw :
  creates world form cw ->
  walletType (wallet cw) = NORMAL_WALLET_TYPE ->
  let final := snd (onWalletCreateFinishCore world form (initial flag)) in
  exists createOptions,
    accepted_form world form createOptions /\
    events final =
      [EvSet CreateLoading true; EvWalletCreate createOptions; EvSaveAssets (assets cw)] ++
      match saveAssets world (assets cw) with
      | Ok _ =>
          [EvSetWalletTempBackupSeed (wallet cw); EvSetWallet (wallet cw);
           EvSet CreateLoading false; EvSet IsLedgerCroAppConnected false;
           EvSet IsLedgerEthAppConnected false; EvSet IsLedgerCosmosAppConnected false;
           EvSet IsModalVisible true; EvResetFields]
      | Throw e =>
          [EvConsoleError e;
           EvSet CreateLoading false; EvSet IsLedgerCroAppConnected false;
           EvSet IsLedgerEthAppConnected false; EvSet IsLedgerCosmosAppConnected false;
           EvSet IsErrorModalVisible true]
      end /\
    createdWallet final = Some cw /\
    device_calls (events final) = [] /\
    waited (events final) = 0%N /\
    EvCreateLedgerDevice ∉ events final.
Proof.
  intros Hc Hty. cbv zeta.
  apply creates_accepted in Hc as (opts & Hacc & Hcreate).
  exists opts. split; [done|].
  rewrite (software_run form flag opts cw Hacc Hcreate Hty). cbn [events createdWallet snd].
  destruct (saveAssets world (assets cw)) as [[]|e]; repeat split; try done.
  - unfold success_events. simpl. intros Hin.
    repeat (apply elem_of_cons in Hin as [Hin|Hin]; [discriminate|]).
    by apply elem_of_nil in Hin.
  - unfold failure_events. simpl. intros Hin.
    repeat (apply elem_of_cons in Hin as [Hin|Hin]; [discriminate|]).
    by apply elem_of_nil in Hin.
Qed.

(** *** The clicks that count *)

Lemma polls_ext f g from n :
  (forall i, from <= i < from + polls f from n -> g i = f i) ->
  polls g from n = polls f from n.
Proof.
  revert from. induction n as [|n IH]; intros from H; [done|].
  cbn [polls] in *. destruct (f from) eqn:Hf; cbv iota in H.
  - rewrite (H from) by lia. by rewrite Hf.
  - rewrite (H from) by lia. rewrite Hf. f_equal. apply IH.
    intros i Hi. apply H. lia.
Qed.



(** *** The timers of a run *)

Lemma delays_app l1 l2 : delays (l1 ++ l2) = delays l1 ++ delays l2.
Proof. apply omap_app. Qed.

Lemma delays_polls k : delays (repeat (EvDelay 100%N) k) = repeat 100%N k.
Proof.
  induction k as [|k IH]; [done|].
  change (repeat (EvDelay 100%N) (S k)) with (EvDelay 100%N :: repeat (EvDelay 100%N) k).
  change (delays (EvDelay 100%N :: repeat (EvDelay 100%N) k))
    with (100%N :: delays (repeat (EvDelay 100%N) k)).
  by rewrite IH.
Qed.

Lemma delays_start opts r :
  delays ([EvSet CreateLoading true; EvWalletCreate opts] ++ r) = delays r.
Proof. reflexivity. Qed.

Lemma delays_cro w : delays (cro_events world w) = [].
Proof. reflexivity. Qed.

Lemma delays_eth w standard k :
  delays (eth_events world w standard k) = repeat 100%N k.
Proof.
  unfold eth_events.
  change (EvSet IsEthModalVisible true :: ?l) with ([EvSet IsEthModalVisible true] ++ l).
  rewrite !delays_app, delays_polls. unfold settled, delays. simpl. by rewrite app_nil_r.
Qed.

Lemma delays_cosmos w k :
  delays (cosmos_events world w k) = 3000%N :: repeat 100%N k.
Proof.
  unfold cosmos_events. rewrite !delays_app, delays_polls. unfold settled, delays. simpl.
  by rewrite app_nil_r.
Qed.

Lemma delays_failure e : delays (failure_events e) = [].
Proof. reflexivity. Qed.

Lemma delays_success w : delays (success_events w ++ [EvResetFields]) = [].
Proof. reflexivity. Qed.

Lemma waited_total tr : waited tr = fold_right N.add 0%N (delays tr).
Proof. reflexivity. Qed.

Lemma total_app (l1 l2 : list N) :
  fold_right N.add 0%N (l1 ++ l2) =
  (fold_right N.add 0%N l1 + fold_right N.add 0%N l2)%N.
Proof. induction l1 as [|x l IH]; simpl; [done|]. rewrite IH. lia. Qed.

Lemma total_polls k : fold_right N.add 0%N (repeat 100%N k) = (100 * N.of_nat k)%N.
Proof.
  induction k as [|k IH]; [done|].
  change (repeat 100%N (S k)) with (100%N :: repeat 100%N k).
  cbn [fold_right]. rewrite IH. lia.
Qed.

(** A run takes at least the time it asks of its timers. *)
Lemma elapsed_ge actual tr :
  timers_honoured actual tr -> (waited tr <= elapsed actual tr)%N.
Proof.
  rewrite waited_total. unfold timers_honoured, elapsed.
  generalize (delays tr) as l. intros l. revert actual.
  induction l as [|ms l IH]; intros actual H; [done|].
  rewrite imap_cons. cbn [fold_right].
  pose proof (H 0 ms eq_refl) as H0.
  assert (Hrest : forall i ms', l !! i = Some ms' -> (ms' <= actual (S i))%N)
    by (intros i ms' Hi; by apply (H (S i))).
  specialize (IH (fun i => actual (S i)) Hrest).
  change (imap ((fun i (_ : N) => actual i) ∘ S) l)
    with (imap (fun i (_ : N) => actual (S i)) l).
  lia.
Qed.

(** The calls of [delay] in a run: none, or the polls of the first wait,
    or these, the pause and the polls of the second wait; a Ledger run
    that reaches [saveAssets] has made them all. *)
Lemma run_delays form flag :
  let final := snd (onWalletCreateFinishCore world form (initial flag)) in
  let k1 := polls (handlerFires world) 2 600 in
  let k2 := polls (handlerFires world) (k1 + 4) 600 in
  (delays (events final) = [] \/
   delays (events final) = repeat 100%N k1 \/
   delays (events final) = repeat 100%N k1 ++ 3000%N :: repeat 100%N k2) /\
  (forall cw persisted,
      creates world form cw ->
      walletType (wallet cw) = LEDGER_WALLET_TYPE ->
      EvSaveAssets persisted ∈ events final ->
      delays (events final) = repeat 100%N k1 ++ 3000%N :: repeat 100%N k2).
Proof.
  cbv zeta.
  replace (polls (handlerFires world) 2 600 + 4)
    with (S (S (polls (handlerFires world) 2 600 + 2))) by lia.
  pose proof (ledger_run form flag) as Hledger. cbv zeta in Hledger.
  set (bound := 600) in *. clearbody bound.
  set (k1 := polls (handlerFires world) 2 bound) in *.
  set (k2 := polls (handlerFires world) (S (S (k1 + 2))) bound) in *.
  assert (Hsaved : forall persisted l, EvSaveAssets persisted ∈ l -> persisted ∈ saved l).
  { intros p l H. unfold saved. apply list_elem_of_omap. exists (EvSaveAssets p). by split. }
  destruct (form_cases form) as [Hrej|(opts & Hacc)].
  { rewrite (rejected_run form flag Hrej). cbn [events snd]. split; [by left|].
    intros cw p Hc. apply creates_accepted in Hc as (o & Ho & _).
    by apply accepted_not_rejected in Ho. }
  destruct (create world opts) as [cw|e] eqn:Hcreate.
  2:{ rewrite (failed_create_run form flag opts e Hacc Hcreate). cbn [events snd].
      split; [by left|].
      intros cw p Hc. apply creates_accepted in Hc as (o & Ho & Hcr).
      rewrite (accepted_form_unique _ _ _ Ho Hacc) in Hcr. congruence. }
  assert (Hcw : forall cw', creates world form cw' -> cw' = cw).
  { intros cw' Hc. apply creates_accepted in Hc as (o & Ho & Hcr).
    rewrite (accepted_form_unique _ _ _ Ho Hacc) in Hcr. congruence. }
  destruct (walletType (wallet cw)) eqn:Hty.
  { rewrite (software_run form flag opts cw Hacc Hcreate Hty). cbn [events snd]. split.
    - left. by destruct (saveAssets world (assets cw)) as [[]|e].
    - intros cw' p Hc Hl. apply Hcw in Hc. subst cw'. congruence. }
  pose proof (Hledger opts cw Hacc Hcreate Hty) as Hout. clear Hledger.
  destruct (answer world (croCall (wallet cw))) as [a1|e1].
  2:{ destruct Hout as (fl & n & ->). cbn [events snd].
      rewrite delays_start, !delays_app, delays_cro, delays_failure. split; [by left|].
      intros cw' p _ _ Hin. apply Hsaved in Hin.
      rewrite saved_start, saved_app, saved_cro, saved_failure in Hin.
      by apply elem_of_nil in Hin. }
  destruct (assign_first isCroAsset a1 (assets cw)) as [assets1|].
  2:{ destruct Hout as (fl & n & ->). cbn [events snd].
      rewrite delays_start, !delays_app, delays_cro, delays_failure. split; [by left|].
      intros cw' p _ _ Hin. apply Hsaved in Hin.
      rewrite saved_start, saved_app, saved_cro, saved_failure in Hin.
      by apply elem_of_nil in Hin. }
  destruct (answer world (ethCall _ _)) as [a2|e2].
  2:{ destruct Hout as (fl & n & ->). cbn [events snd].
      rewrite delays_start, !delays_app, delays_cro, delays_eth, delays_failure.
      split; [right; left; by rewrite app_nil_r|].
      intros cw' p _ _ Hin. apply Hsaved in Hin.
      rewrite saved_start, !saved_app, saved_cro, saved_eth, saved_failure in Hin.
      by apply elem_of_nil in Hin. }
  assert (Hall : forall r,
    delays r = [] ->
    delays ([EvSet CreateLoading true; EvWalletCreate opts] ++
            ((cro_events world (wallet cw) ++
              eth_events world (wallet cw) (form_derivationPathStandard form) k1) ++
             cosmos_events world (wallet cw) k2) ++ r) =
    repeat 100%N k1 ++ 3000%N :: repeat 100%N k2).
  { intros r Hr.
    rewrite delays_start, !delays_app, delays_cro, delays_eth, delays_cosmos, Hr.
    by rewrite app_nil_r. }
  destruct (answer world (cosmosCall _)) as [a3|e3].
  2:{ destruct Hout as (fl & n & ->). cbn [events snd].
      rewrite Hall by apply delays_failure. split; [by right; right|done]. }
  destruct (assign_first isAtomAsset a3 _) as [assets3|].
  2:{ destruct Hout as (fl & n & ->). cbn [events snd].
      rewrite Hall by apply delays_failure. split; [by right; right|done]. }
  destruct (saveAssets world assets3) as [[]|e6];
    destruct Hout as (fl & n & ->); cbn [events snd];
    (rewrite Hall by reflexivity); (split; [by right; right|done]).
Qed.

(** X17: the timers of a run.  The calls of [delay] in a run are the
    polls of 100 milliseconds of the first wait, at most 600 of them, the
    pause of 3 seconds, and the polls of the second wait, at most 600
    again, or a beginning of this sequence; so a run asks its timers for
    at most 123 seconds in all.  A timer fires no earlier than asked, so
    a run takes at least the time it asks for: a Ledger run that reaches
    [saveAssets] has made all these calls, with at least one poll in each
    wait, and takes at least 3.2 seconds even when the user confirms at
    once.  How much later a timer fires is outside the program, and no
    bound from above is given on the time. *)
Theorem time_spent_waiting form flag :
  let final := snd (onWalletCreateFinishCore world form (initial flag)) in
  let k1 := polls (handlerFires world) 2 600 in
  let k2 := polls (handlerFires world) (k1 + 4) 600 in
  (delays (events final) = [] \/
   delays (events final) = repeat 100%N k1 \/
   delays (events final) = repeat 100%N k1 ++ 3000%N :: repeat 100%N k2) /\
  1 <= k1 <= 600 /\ 1 <= k2 <= 600 /\
  (waited (events final) <= 123000)%N /\
  (forall actual,
      timers_honoured actual (events final) ->
      (waited (events final) <= elapsed actual (events final))%N) /\
  (forall cw persisted,
      creates world form cw ->
      walletType (wallet cw) = LEDGER_WALLET_TYPE ->
      EvSaveAssets persisted ∈ events final ->
      delays (events final) = repeat 100%N k1 ++ 3000%N :: repeat 100%N k2 /\
      waited (events final) = (100 * N.of_nat k1 + 3000 + 100 * N.of_nat k2)%N /\
      forall actual,
        timers_honoured actual (events final) ->
        (3200 <= elapsed actual (events final))%N).
Proof.
  cbv zeta. pose proof (run_delays form flag) as [Hshape Hsave]. cbv zeta in Hshape, Hsave.
  pose proof (polls_le (handlerFires world) 2 600) as Hle1.
  pose proof (polls_pos (handlerFires world) 2 600) as Hpos1.
  pose proof (polls_le (handlerFires world) (polls (handlerFires world) 2 600 + 4) 600)
    as Hle2.
  pose proof (polls_pos (handlerFires world) (polls (handlerFires world) 2 600 + 4) 600)
    as Hpos2.
  assert (Hbound : N.of_nat 600 = 600%N) by reflexivity.
  set (bound := 600) in *. clearbody bound.
  set (k1 := polls (handlerFires world) 2 bound) in *.
  set (k2 := polls (handlerFires world) (k1 + 4) bound) in *.
  set (tr := events (snd (onWalletCreateFinishCore world form (initial flag)))) in *.
  assert (Hfull : delays tr = repeat 100%N k1 ++ 3000%N :: repeat 100%N k2 ->
                  waited tr = (100 * N.of_nat k1 + 3000 + 100 * N.of_nat k2)%N).
  { intros H. rewrite waited_total, H, total_app.
    change (3000%N :: repeat 100%N k2) with ([3000%N] ++ repeat 100%N k2).
    rewrite total_app, !total_polls. simpl. lia. }
  split; [exact Hshape|]. split; [lia|]. split; [lia|]. split.
  { destruct Hshape as [H|[H|H]].
    - rewrite waited_total, H. simpl. lia.
    - rewrite waited_total, H, total_polls. lia.
    - rewrite (Hfull H). lia. }
  split; [intros actual; apply elapsed_ge|].
  intros cw persisted Hc Hty Hin.
  pose proof (Hsave cw persisted Hc Hty Hin) as H.
  split; [exact H|]. split; [exact (Hfull H)|].
  intros actual Hact. apply elapsed_ge in Hact. rewrite (Hfull H) in Hact. lia.
Qed.

(** *** What a run writes on the wallet *)

Lemma same_but_address_refl a : same_but_address a a.
Proof. by repeat split. Qed.

Lemma same_but_address_set addr a : same_but_address a (set_address addr a).
Proof. by repeat split. Qed.

Lemma same_but_address_trans a b c :
  same_but_address a b -> same_but_address b c -> same_but_address a c.
Proof.
  intros (H1 & H2 & H3 & H4 & H5) (G1 & G2 & G3 & G4 & G5). repeat split; congruence.
Qed.

Lemma addresses_written_refl l : addresses_written l l.
Proof.
  split; [|by intros]. induction l; constructor; auto using same_but_address_refl.
Qed.

Lemma addresses_written_trans l1 l2 l3 :
  addresses_written l1 l2 -> addresses_written l2 l3 -> addresses_written l1 l3.
Proof.
  intros [F1 K1] [F2 K2]. split.
  - clear K1 K2. revert l3 F2. induction F1 as [|a b l1 l2 Hab F1 IH]; intros l3 F2.
    + by inversion F2.
    + inversion F2 as [|? c ? l3' Hbc F2']; subst. constructor.
      * by eapply same_but_address_trans.
      * by apply IH.
  - intros i a Hi Hc He Ha. apply K2; auto.
Qed.

Lemma assign_first_written p addr l l' :
  (forall a, isCroAsset a = false -> isEvmAsset a = false -> isAtomAsset a = false ->
             p a = false) ->
  assign_first p addr l = Some l' -> addresses_written l l'.
Proof.
  intros Hp. revert l'. induction l as [|a l IH]; intros l'; simpl; [discriminate|].
  destruct (p a) eqn:Hpa.
  - intros [= <-]. split.
    + constructor; [apply same_but_address_set|].
      apply (proj1 (addresses_written_refl l)).
    + intros [|i] b Hi Hc He Ha; simpl in *; [|done].
      injection Hi as ->. rewrite Hp in Hpa by done. discriminate.
  - destruct (assign_first p addr l) as [r|]; [|discriminate].
    intros [= <-]. destruct (IH r eq_refl) as [F K]. split.
    + constructor; [apply same_but_address_refl | done].
    + intros [|i] b Hi Hc He Ha; simpl in *; [done|]. by apply K.
Qed.

Lemma assign_all_written q addr l :
  (forall a, isCroAsset a = false -> isEvmAsset a = false -> isAtomAsset a = false ->
             q a = false) ->
  addresses_written l (assign_all q addr l).
Proof.
  intros Hq. unfold assign_all. split.
  - induction l as [|a l IH]; simpl; constructor; [|done].
    destruct (q a); [apply same_but_address_set | apply same_but_address_refl].
  - intros i a Hi Hc He Ha. change (map ?f ?l) with (f <$> l).
    rewrite list_lookup_fmap, Hi. simpl. by rewrite Hq.
Qed.

(** X18: a run changes nothing on the wallet but addresses.  Whatever its
    outcome, the wallet object in memory after the run is the one the
    creator returned with, at most, another address of the wallet and
    other addresses of assets: the assets are the same, in the same order,
    with the same identifier, symbols, type and chain; an asset that is
    neither the CRO asset, nor an EVM asset, nor the Cosmos Hub asset is
    left as it was; and for a software wallet nothing is written at
    all. *)
Theorem run_writes_addresses_only form flag cw :
  creates world form cw ->
  let final := snd (onWalletCreateFinishCore world form (initial flag)) in
  exists draft,
    createdWallet final = Some draft /\
    same_but_walletAddress (wallet cw) (wallet draft) /\
    addresses_written (assets cw) (assets draft) /\
    (walletType (wallet cw) = NORMAL_WALLET_TYPE -> draft = cw).
Proof.
  intros Hc. cbv zeta. apply creates_accepted in Hc as (opts & Hacc & Hcreate).
  destruct (walletType (wallet cw)) eqn:Hty.
  { rewrite (software_run form flag opts cw Hacc Hcreate Hty). exists cw.
    split; [done|]. split; [by repeat split|]. split; [apply addresses_written_refl | done]. }
  pose proof (ledger_run form flag opts cw Hacc Hcreate Hty) as Hout. cbv zeta in Hout.
  set (bound := 600) in *. clearbody bound.
  assert (Hw : forall a, same_but_walletAddress (wallet cw) (set_walletAddress a (wallet cw)))
    by (intros a; by repeat split).
  destruct (answer world (croCall (wallet cw))) as [a1|e1].
  2:{ destruct Hout as (fl & n & ->). exists cw. split; [done|]. split; [by repeat split|].
      split; [apply addresses_written_refl | congruence]. }
  destruct (assign_first isCroAsset a1 (assets cw)) as [assets1|] eqn:H1.
  2:{ destruct Hout as (fl & n & ->). exists cw. split; [done|]. split; [by repeat split|].
      split; [apply addresses_written_refl | congruence]. }
  assert (W1 : addresses_written (assets cw) assets1).
  { eapply assign_first_written; [|exact H1]. auto. }
  destruct (answer world (ethCall _ _)) as [a2|e2].
  2:{ destruct Hout as (fl & n & ->). eexists. split; [reflexivity|]. split; [apply Hw|].
      split; [exact W1 | congruence]. }
  assert (W2 : addresses_written (assets cw) (assign_all isEvmAsset a2 assets1)).
  { eapply addresses_written_trans; [exact W1|]. apply assign_all_written. auto. }
  destruct (answer world (cosmosCall _)) as [a3|e3].
  2:{ destruct Hout as (fl & n & ->). eexists. split; [reflexivity|]. split; [apply Hw|].
      split; [exact W2 | congruence]. }
  destruct (assign_first isAtomAsset a3 _) as [assets3|] eqn:H3.
  2:{ destruct Hout as (fl & n & ->). eexists. split; [reflexivity|]. split; [apply Hw|].
      split; [exact W2 | congruence]. }
  assert (W3 : addresses_written (assets cw) assets3).
  { eapply addresses_written_trans; [exact W2|].
    eapply assign_first_written; [|exact H3]. auto. }
  destruct (saveAssets world assets3) as [[]|e6];
    destruct Hout as (fl & n & ->); eexists; (split; [reflexivity|]); (split; [apply Hw|]);
    (split; [exact W3 | congruence]).
Qed.

(** *** A wallet without the asset of a step *)

Lemma assign_first_keeps_none p q addr l l' :
  stable p ->
  assign_first q addr l = Some l' ->
  first_asset p l = None -> first_asset p l' = None.
Proof.
  intros Hp. unfold first_asset. revert l'.
  induction l as [|a l IH]; intros l'; simpl; [discriminate|].
  destruct (q a) eqn:Hq.
  - intros [= <-]. simpl. rewrite Hp. by destruct (p a).
  - destruct (assign_first q addr l) as [r|]; [|discriminate].
    intros [= <-]. simpl. destruct (p a); [done|]. by apply IH.
Qed.

(** X19: the CRO asset and the Cosmos Hub asset must exist, the EVM assets
    need not.  When the created wallet has no Tendermint asset of symbol
    CRO, the first device call is made and the run then ends in the error
    modal with nothing written; when it has no Cosmos Hub asset, all three
    device calls are made and answered and the run then ends in the error
    modal; in both cases the error is a TypeError and nothing is saved.
    When it has no EVM asset, the second step writes nothing and the run
    goes on. *)
Theorem missing_asset_fails_run form flag cw :
  creates world form cw ->
  walletType (wallet cw) = LEDGER_WALLET_TYPE ->
  let final := snd (onWalletCreateFinishCore world form (initial flag)) in
  let w := wallet cw in
  let standard := form_derivationPathStandard form in
  (first_asset isCroAsset (assets cw) = None ->
   forall a1,
     answer world (croCall w) = Ok a1 ->
     device_calls (events final) = [croCall w] /\
     saved (events final) = [] /\
     modals (events final) = [false] /\
     EvConsoleError undefinedAddress ∈ events final /\
     createdWallet final = Some cw) /\
  (first_asset isAtomAsset (assets cw) = None ->
   is_Some (first_asset isCroAsset (assets cw)) ->
   forall a1 a2 a3,
     answer world (croCall w) = Ok a1 ->
     answer world (ethCall w standard) = Ok a2 ->
     answer world (cosmosCall w) = Ok a3 ->
     device_calls (events final) = [croCall w; ethCall w standard; cosmosCall w] /\
     saved (events final) = [] /\
     modals (events final) = [false] /\
     EvConsoleError undefinedAddress ∈ events final) /\
  ((forall a, a ∈ assets cw -> assetType a <> EVM) ->
   forall a1 a2 a3 assets1 assets3,
     answer world (croCall w) = Ok a1 ->
     answer world (ethCall w standard) = Ok a2 ->
     answer world (cosmosCall w) = Ok a3 ->
     assign_first isCroAsset a1 (assets cw) = Some assets1 ->
     assign_first isAtomAsset a3 assets1 = Some assets3 ->
     device_calls (events final) = [croCall w; ethCall w standard; cosmosCall w] /\
     saved (events final) = [assets3]).
Proof.
  intros Hc Hty. cbv zeta. apply creates_accepted in Hc as (opts & Hacc & Hcreate).
  pose proof (ledger_run form flag opts cw Hacc Hcreate Hty) as Hout. cbv zeta in Hout.
  set (bound := 600) in *. clearbody bound.
  assert (Herr : forall pre e, EvConsoleError e ∈
            [EvSet CreateLoading true; EvWalletCreate opts] ++ pre ++ failure_events e).
  { intros pre e. rewrite !elem_of_app. right. right. unfold failure_events. left. }
  split; [|split].
  - intros Hnone a1 Ha1. rewrite Ha1 in Hout.
    apply assign_first_None with (addr := a1) in Hnone. rewrite Hnone in Hout.
    destruct Hout as (fl & n & ->). cbn [events createdWallet snd].
    split; [by read_log|]. split; [by read_log|]. split; [by read_log|].
    split; [apply Herr | done].
  - intros Hnone [x Hx] a1 a2 a3 Ha1 Ha2 Ha3. rewrite Ha1 in Hout.
    destruct (assign_first isCroAsset a1 (assets cw)) as [assets1|] eqn:H1.
    2:{ apply assign_first_None in H1. congruence. }
    rewrite Ha2, Ha3 in Hout.
    assert (H3 : assign_first isAtomAsset a3 (assign_all isEvmAsset a2 assets1) = None).
    { apply assign_first_None. rewrite (assign_all_find _ _ _ _ isAtomAsset_stable).
      by rewrite (assign_first_keeps_none _ _ _ _ _ isAtomAsset_stable H1 Hnone). }
    rewrite H3 in Hout. destruct Hout as (fl & n & ->). cbn [events snd].
    split; [by read_log|]. split; [by read_log|]. split; [by read_log|]. apply Herr.
  - intros Hnoevm a1 a2 a3 assets1 assets3 Ha1 Ha2 Ha3 H1 H3.
    rewrite Ha1, H1, Ha2, Ha3 in Hout.
    assert (Hsame : assign_all isEvmAsset a2 assets1 = assets1).
    { unfold assign_all. rewrite <- (map_id assets1) at 2. apply map_ext_in.
      intros a Hin. apply list_elem_of_In in Hin.
      destruct (elem_of_assign_first _ _ _ _ _ H1 Hin) as [Hin'|(y & Hy & _ & ->)].
      - unfold isEvmAsset. case_bool_decide as He; [|done]. by apply Hnoevm in Hin'.
      - rewrite isEvmAsset_stable. unfold isEvmAsset. case_bool_decide as He; [|done].
        by apply Hnoevm in Hy. }
    rewrite Hsame, H3 in Hout.
    destruct (saveAssets world assets3) as [[]|e6];
      destruct Hout as (fl & n & ->); cbn [events snd]; split; by read_log.
Qed.


(** The device calls of a Ledger run: the Crypto.org call, then the
    Ethereum call if the run gets there, then the Cosmos Hub call. *)
Lemma ledger_device_calls form flag createOptions cw :
  accepted_form world form createOptions ->
  create world createOptions = Ok cw ->
  walletType (wallet cw) = LEDGER_WALLET_TYPE ->
  let w := wallet cw in
  let standard := form_derivationPathStandard form in
  let calls := device_calls (events (snd (onWalletCreateFinishCore world form (initial flag)))) in
  calls = [croCall w] \/ calls = [croCall w; ethCall w standard] \/
  calls = [croCall w; ethCall w standard; cosmosCall w].
Proof.
  intros Hacc Hcreate Hty. cbv zeta.
  pose proof (ledger_run form flag createOptions cw Hacc Hcreate Hty) as Hout.
  cbv zeta in Hout. set (bound := 600) in *. clearbody bound.
  destruct (answer world (croCall (wallet cw))) as [a1|e1];
    [|destruct Hout as (fl & n & ->); cbn [events snd]; left; by read_log].
  destruct (assign_first isCroAsset a1 (assets cw)) as [assets1|];
    [|destruct Hout as (fl & n & ->); cbn [events snd]; left; by read_log].
  destruct (answer world (ethCall _ _)) as [a2|e2];
    [|destruct Hout as (fl & n & ->); cbn [events snd]; right; left; by read_log].
  destruct (answer world (cosmosCall _)) as [a3|e3];
    [|destruct Hout as (fl & n & ->); cbn [events snd]; right; right; by read_log].
  destruct (assign_first isAtomAsset a3 _) as [assets3|];
    [|destruct Hout as (fl & n & ->); cbn [events snd]; right; right; by read_log].
  destruct (saveAssets world assets3) as [[]|e6];
    destruct Hout as (fl & n & ->); cbn [events snd]; right; right; by read_log.
Qed.

End Facts.

(** X16: the clicks on the two modals are honoured only while their wait
    is polling.  A run depends on the handlers that clear [waitFlag] only
    through those that run during the delays of the first wait and of the
    second wait, up to the first one in each; what was clicked before the
    Ethereum modal was opened, during a device call or during the pause of
    three seconds is forgotten, because [waitFlag] is set again before
    each wait, and so is the value that [waitFlag] had when the run
    began. *)
Theorem clicks_count_only_while_polling world form flag flag' fires :
  let k1 := polls (handlerFires world) 2 600 in
  let k2 := polls (handlerFires world) (k1 + 4) 600 in
  (forall n, 2 <= n < 2 + k1 -> fires n = handlerFires world n) ->
  (forall n, k1 + 4 <= n < k1 + 4 + k2 -> fires n = handlerFires world n) ->
  let run := onWalletCreateFinishCore world form (initial flag) in
  let run' := onWalletCreateFinishCore (with_handler fires world) form (initial flag') in
  fst run' = fst run /\
  events (snd run') = events (snd run) /\
  createdWallet (snd run') = createdWallet (snd run).
Proof.
  cbv zeta. intros H1 H2.
  assert (Hk : forall bound,
    (forall n, 2 <= n < 2 + polls (handlerFires world) 2 bound ->
               fires n = handlerFires world n) ->
    (forall n, polls (handlerFires world) 2 bound + 4 <= n <
               polls (handlerFires world) 2 bound + 4 +
               polls (handlerFires world) (polls (handlerFires world) 2 bound + 4) bound ->
               fires n = handlerFires world n) ->
    polls fires 2 bound = polls (handlerFires world) 2 bound /\
    polls fires (S (S (polls fires 2 bound + 2))) bound =
    polls (handlerFires world) (S (S (polls (handlerFires world) 2 bound + 2))) bound).
  { intros bound Hb1 Hb2.
    assert (Hk1 : polls fires 2 bound = polls (handlerFires world) 2 bound)
      by (by apply polls_ext).
    split; [exact Hk1|]. rewrite Hk1.
    replace (S (S (polls (handlerFires world) 2 bound + 2)))
      with (polls (handlerFires world) 2 bound + 4) by lia.
    by apply polls_ext. }
  destruct (Hk 600 H1 H2) as [Hk1 Hk2].
  clear H1 H2 Hk.
  destruct (form_cases world form) as [Hrej|(opts & Hacc)].
  { rewrite (rejected_run world form flag Hrej).
    by rewrite (rejected_run (with_handler fires world) form flag' Hrej). }
  assert (Hacc' : accepted_form (with_handler fires world) form opts) by exact Hacc.
  destruct (create world opts) as [cw|e] eqn:Hcreate.
  2:{ rewrite (failed_create_run world form flag opts e Hacc Hcreate).
      by rewrite (failed_create_run (with_handler fires world) form flag'
                    opts e Hacc' Hcreate). }
  destruct (walletType (wallet cw)) eqn:Hty.
  { rewrite (software_run world form flag opts cw Hacc Hcreate Hty).
    by rewrite (software_run (with_handler fires world) form flag'
                  opts cw Hacc' Hcreate Hty). }
  pose proof (ledger_run world form flag opts cw Hacc Hcreate Hty) as Hout.
  pose proof (ledger_run (with_handler fires world) form flag' opts cw
                Hacc' Hcreate Hty) as Hout'.
  cbv zeta in Hout, Hout'.
  change (handlerFires (with_handler fires world)) with fires in Hout'.
  rewrite Hk2, Hk1 in Hout'.
  set (bound := 600) in *. clearbody bound.
  change (answer (with_handler fires world)) with (answer world) in Hout'.
  change (cro_events (with_handler fires world)) with (cro_events world) in Hout'.
  change (eth_events (with_handler fires world)) with (eth_events world) in Hout'.
  change (cosmos_events (with_handler fires world)) with (cosmos_events world) in Hout'.
  change (saveAssets (with_handler fires world)) with (saveAssets world) in Hout'.
  destruct (answer world (croCall (wallet cw))) as [a1|e1];
    [|destruct Hout as (fl & n & ->), Hout' as (fl' & n' & ->); done].
  destruct (assign_first isCroAsset a1 (assets cw)) as [assets1|];
    [|destruct Hout as (fl & n & ->), Hout' as (fl' & n' & ->); done].
  destruct (answer world (ethCall _ _)) as [a2|e2];
    [|destruct Hout as (fl & n & ->), Hout' as (fl' & n' & ->); done].
  destruct (answer world (cosmosCall _)) as [a3|e3];
    [|destruct Hout as (fl & n & ->), Hout' as (fl' & n' & ->); done].
  destruct (assign_first isAtomAsset a3 _) as [assets3|];
    [|destruct Hout as (fl & n & ->), Hout' as (fl' & n' & ->); done].
  destruct (saveAssets world assets3) as [[]|e6];
    destruct Hout as (fl & n & ->), Hout' as (fl' & n' & ->); done.
Qed.


(** *** The theorems at work on the example pages *)

(** The software wallet of the examples is saved as it was created. *)
Lemma software_wallet_skips_device_witness :
  exists createOptions,
    device_calls (events (snd (onWalletCreateFinishCore Scenario.normalWorld
                                 Scenario.ledgerForm (initial false)))) = [] /\
    accepted_form Scenario.normalWorld Scenario.ledgerForm createOptions.
Proof.
  destruct (software_wallet_skips_device Scenario.normalWorld Scenario.ledgerForm false
              {| wallet :=
                   {| walletIdentifier := "normal-1"; walletType := NORMAL_WALLET_TYPE;
                      addressIndex := 0%Z; derivationPathStandard := BIP44;
                      config := Scenario.mainnet; walletAddress := "cro1software" |};
                 assets := [Scenario.croAsset] |})
    as (opts & Hacc & _ & _ & Hcalls & _).
  - exists "My Ledger", LEDGER_WALLET_TYPE, "MAINNET", Scenario.mainnet.
    repeat split; try reflexivity; discriminate.
  - reflexivity.
  - by exists opts.
Defined.

(** With a creator that rejects, no wallet exists after the run. *)
Lemma failed_creation_stops_run_witness :
  createdWallet (snd (onWalletCreateFinishCore CreateScenario.failingCreator
                        Scenario.ledgerForm (initial false))) = None.
Proof.
  refine (proj1 (proj2 (failed_creation_stops_run CreateScenario.failingCreator
                          Scenario.ledgerForm false CreateScenario.ledgerOptions
                          (Rejected "storage unavailable") _ _))).
  - exists "My Ledger", LEDGER_WALLET_TYPE, "MAINNET", Scenario.mainnet.
    repeat split; try reflexivity; discriminate.
  - reflexivity.
Defined.

(** The eager user of the examples gets the log of the patient one. *)
Lemma clicks_count_only_while_polling_witness :
  events (snd (onWalletCreateFinishCore
                 (with_handler CreateScenario.eagerClicks Scenario.ledgerWorld)
                 Scenario.ledgerForm (initial true))) =
  events (snd (onWalletCreateFinishCore Scenario.ledgerWorld Scenario.ledgerForm
                 (initial false))).
Proof.
  refine (proj1 (proj2 (clicks_count_only_while_polling Scenario.ledgerWorld
                          Scenario.ledgerForm false true CreateScenario.eagerClicks _ _))).
  - intros n Hn.
    change (polls (handlerFires Scenario.ledgerWorld) 2 600) with 3 in Hn.
    assert (n = 2 \/ n = 3 \/ n = 4) as [->|[->| ->]] by lia; reflexivity.
  - intros n Hn.
    change (polls (handlerFires Scenario.ledgerWorld) 2 600) with 3 in Hn.
    change (polls (handlerFires Scenario.ledgerWorld) (3 + 4) 600) with 3 in Hn.
    assert (n = 7 \/ n = 8 \/ n = 9) as [->|[->| ->]] by lia; reflexivity.
Defined.

(** On the example page the wallet keeps its identity through the run. *)
Lemma run_writes_addresses_only_witness :
  exists draft,
    createdWallet (snd (onWalletCreateFinishCore Scenario.ledgerWorld Scenario.ledgerForm
                          (initial false))) = Some draft /\
    addresses_written (assets Scenario.ledgerDraft) (assets draft).
Proof.
  destruct (run_writes_addresses_only Scenario.ledgerWorld Scenario.ledgerForm false
              Scenario.ledgerDraft) as (draft & Hd & _ & Hw & _).
  - exists "My Ledger", LEDGER_WALLET_TYPE, "MAINNET", Scenario.mainnet.
    repeat split; try reflexivity; discriminate.
  - by exists draft.
Defined.

(** A Ledger wallet created without the Cosmos Hub asset: the three
    device calls are made and nothing is saved. *)
Lemma missing_asset_fails_run_witness :
  saved (events (snd (onWalletCreateFinishCore CreateScenario.noAtomWorld
                        Scenario.ledgerForm (initial false)))) = [].
Proof.
  refine (proj1 (proj2 (proj1 (proj2 (missing_asset_fails_run CreateScenario.noAtomWorld
                                        Scenario.ledgerForm false CreateScenario.noAtomDraft
                                        _ _))
                          _ _ "cro1ledger" "0xledger" "cosmos1ledger" _ _ _))).
  - exists "My Ledger", LEDGER_WALLET_TYPE, "MAINNET", Scenario.mainnet.
    repeat split; try reflexivity; discriminate.
  - reflexivity.
  - reflexivity.
  - eexists. reflexivity.
  - reflexivity.
  - reflexivity.
  - reflexivity.
Defined.

End CreateRunsFacts.

(** ** Properties of the handlers that start a wallet creation *)
Module CreateFlowFacts.
Import Create CreateRuns CreateFacts CreateRunsFacts CreateFlow.

Section Facts.
Context (fw : FlowWorld).

Lemma page_events_Page l : page_events (map Page l) = l.
Proof. induction l as [|e l IH]; simpl; [done|]. by rewrite IH. Qed.

Lemma device_requests_Page l :
  device_requests (map Page l) = map Derive (device_calls l).
Proof.
  induction l as [|e l IH]; simpl; [done|].
  destruct e; simpl; try exact IH. by rewrite IH.
Qed.

Lemma notices_Page l : notices (map Page l) = [].
Proof. induction l as [|e l IH]; simpl; [done|]. exact IH. Qed.

(** The steps of [checkIsLedgerCroAppConnected]. *)
Lemma checkIsLedgerCroAppConnected_unfold form s :
  let index := parseInt10 (page fw) (form_addressIndex form) in
  let standard := form_derivationPathStandard form in
  let core := snd (onWalletCreateFinishCore (page fw) form (initial (flowWaitFlag s))) in
  checkIsLedgerCroAppConnected fw form s =
  match getPubKey fw index CRYPTO_ORG standard false with
  | Ok _ =>
      (Ok tt,
       {| flowWaitFlag := waitFlag core;
          flowLog :=
            flowLog s ++
            [Page (EvSet CreateLoading true); Page EvCreateLedgerDevice;
             GetPubKey index CRYPTO_ORG standard false;
             PubKeySettled (getPubKey fw index CRYPTO_ORG standard false);
             Page (EvSet IsLedgerCroAppConnected true); SetTimeout 2000%N;
             SetIsCroModalVisible false; SetIsLedgerModalButtonLoading false;
             SetTimeout 2000%N] ++
            map Page (events core) |})
  | Throw e =>
      (Ok tt,
       {| flowWaitFlag := flowWaitFlag s;
          flowLog :=
            flowLog s ++
            [Page (EvSet CreateLoading true); Page EvCreateLedgerDevice;
             GetPubKey index CRYPTO_ORG standard false;
             PubKeySettled (getPubKey fw index CRYPTO_ORG standard false);
             Page (EvSet IsLedgerCroAppConnected false); SetTimeout 2000%N;
             SetIsCroModalVisible false; Page (EvSet CreateLoading false);
             SetIsLedgerModalButtonLoading false;
             NotificationError
               (if bool_decide (form_walletType form = Some LEDGER_WALLET_TYPE)
                   && detectConditionsError fw e
                then Notice2 else Notice1);
             SetTimeout 2000%N] |})
  end.
Proof.
  cbv zeta. unfold checkIsLedgerCroAppConnected, pubKeyCall, callCore, note.
  unfold bind, ret, modify, settle, try_catch. destruct s as [flag log]. simpl.
  destruct (getPubKey fw _ CRYPTO_ORG _ false) as [[]|e]; simpl;
    by rewrite <- ?app_assoc.
Qed.


Lemma rejected_creations form flag :
  rejected_form (page fw) form ->
  creations (events (snd (onWalletCreateFinishCore (page fw) form (initial flag)))) = [].
Proof. intros Hrej. by rewrite (rejected_run (page fw) form flag Hrej). Qed.

(** The creator is called in a run exactly for an accepted form. *)
Lemma creations_nonempty form flag :
  creations (events (snd (onWalletCreateFinishCore (page fw) form (initial flag)))) <> [] <->
  exists createOptions, accepted_form (page fw) form createOptions.
Proof.
  split.
  - intros Hne. destruct (form_cases (page fw) form) as [Hrej|Hacc]; [|done].
    by rewrite (rejected_creations form flag Hrej) in Hne.
  - intros (opts & Hacc). by rewrite (creations_accepted (page fw) form flag opts Hacc).
Qed.

(** X20: the Connect handler of the Crypto.org modal never rejects and
    creates a wallet only behind a probe that resolved.  It asks the device
    for the public key of the Crypto.org chain at the form's address index
    and derivation path standard, without display.  If the probe rejects,
    that is the only request to the device: the creator is not called, one
    notification is shown (the second text only for a Ledger form whose
    error [detectConditionsError] recognises), the loading flag is set and
    reset, no result modal is shown and the wait flag is left alone.  If it
    resolves, [onWalletCreateFinishCore] runs after a further four seconds
    of timers, its device calls follow the probe, and the creator is called
    exactly when the form is accepted. *)
Theorem probe_gates_creation form s :
  let index := parseInt10 (page fw) (form_addressIndex form) in
  let standard := form_derivationPathStandard form in
  let probe := getPubKey fw index CRYPTO_ORG standard false in
  let core := snd (onWalletCreateFinishCore (page fw) form (initial (flowWaitFlag s))) in
  let run := checkIsLedgerCroAppConnected fw form s in
  fst run = Ok tt /\
  exists new,
    flowLog (snd run) = flowLog s ++ new /\
    timeouts new = 4000%N /\
    (creations (page_events new) <> [] <->
     (exists u, probe = Ok u) /\
     exists createOptions, accepted_form (page fw) form createOptions) /\
    (forall e, probe = Throw e ->
       device_requests new = [Probe index CRYPTO_ORG standard false] /\
       notices new =
         [if bool_decide (form_walletType form = Some LEDGER_WALLET_TYPE)
             && detectConditionsError fw e
          then Notice2 else Notice1] /\
       loading (page_events new) = [true; false] /\
       modals (page_events new) = [] /\
       flowWaitFlag (snd run) = flowWaitFlag s) /\
    (forall u, probe = Ok u ->
       page_events new =
         [EvSet CreateLoading true; EvCreateLedgerDevice;
          EvSet IsLedgerCroAppConnected true] ++ events core /\
       device_requests new =
         Probe index CRYPTO_ORG standard false :: map Derive (device_calls (events core)) /\
       notices new = [] /\
       flowWaitFlag (snd run) = waitFlag core).
Proof.
  cbv zeta. rewrite checkIsLedgerCroAppConnected_unfold.
  pose proof (creations_nonempty form (flowWaitFlag s)) as Hcre.
  destruct (getPubKey fw _ CRYPTO_ORG _ false) as [[]|e] eqn:Hprobe; cbn [fst snd flowLog].
  - split; [done|]. eexists. split; [reflexivity|].
    assert (Hpe : forall l,
      page_events ([Page (EvSet CreateLoading true); Page EvCreateLedgerDevice;
         GetPubKey (parseInt10 (page fw) (form_addressIndex form)) CRYPTO_ORG
           (form_derivationPathStandard form) false;
         PubKeySettled (Ok ());
         Page (EvSet IsLedgerCroAppConnected true); SetTimeout 2000%N;
         SetIsCroModalVisible false; SetIsLedgerModalButtonLoading false;
         SetTimeout 2000%N] ++ map Page l) =
      [EvSet CreateLoading true; EvCreateLedgerDevice;
       EvSet IsLedgerCroAppConnected true] ++ l).
    { intros l. unfold page_events. rewrite omap_app. fold (page_events (map Page l)).
      by rewrite page_events_Page. }
    split.
    { unfold timeouts. rewrite omap_app.
      assert (Hnone : forall l,
        omap (fun e => match e with SetTimeout ms => Some ms | _ => None end) (map Page l) = []).
      { induction l as [|x l IH]; [done|]. exact IH. }
      by rewrite Hnone. }
    split.
    { rewrite Hpe. unfold creations at 1. rewrite omap_app. cbn [omap app].
      fold (creations (events (snd
        (onWalletCreateFinishCore (page fw) form (initial (flowWaitFlag s)))))).
      rewrite Hcre. split; [by split; [eexists|]|]. by intros [_ H]. }
    split; [intros e; discriminate|].
    intros _ _. split; [apply Hpe|]. split; [|split; [|done]].
    + unfold device_requests. rewrite omap_app.
      fold (device_requests (map Page (events (snd
        (onWalletCreateFinishCore (page fw) form (initial (flowWaitFlag s))))))).
      by rewrite device_requests_Page.
    + unfold notices. rewrite omap_app.
      fold (notices (map Page (events (snd
        (onWalletCreateFinishCore (page fw) form (initial (flowWaitFlag s))))))).
      by rewrite notices_Page.
  - split; [done|]. eexists. split; [reflexivity|]. split; [done|]. split.
    { split; [done|]. by intros [[u Hu] _]. }
    split; [|intros u; discriminate].
    intros e' [= <-]. by repeat split.
Qed.

(** X21: submitting the form starts [onWalletCreateFinishCore] only for
    the software wallet type.  For any other value of the wallet type,
    an absent one included, the handler opens the Crypto.org modal and
    marks the Crypto.org app as not connected, and nothing else: no wallet
    is created and the device is neither probed nor asked for an address.
    For the software type the log is the one of the core function, so the
    creator is called exactly when the form is accepted; the handler shows
    no notification and never rejects. *)
Theorem submit_creates_software_wallets_only form s :
  let core := snd (onWalletCreateFinishCore (page fw) form (initial (flowWaitFlag s))) in
  let run := onWalletCreateFinish fw form s in
  fst run = Ok tt /\
  exists new,
    flowLog (snd run) = flowLog s ++ new /\
    notices new = [] /\ timeouts new = 0%N /\
    (creations (page_events new) <> [] <->
     form_walletType form = Some NORMAL_WALLET_TYPE /\
     exists createOptions, accepted_form (page fw) form createOptions) /\
    (form_walletType form <> Some NORMAL_WALLET_TYPE ->
       new = [SetIsCroModalVisible true; Page (EvSet IsLedgerCroAppConnected false)] /\
       device_requests new = [] /\
       flowWaitFlag (snd run) = flowWaitFlag s) /\
    (form_walletType form = Some NORMAL_WALLET_TYPE ->
       new = map Page (events core) /\
       device_requests new = map Derive (device_calls (events core)) /\
       flowWaitFlag (snd run) = waitFlag core).
Proof.
  cbv zeta. unfold onWalletCreateFinish.
  pose proof (creations_nonempty form (flowWaitFlag s)) as Hcre.
  case_bool_decide as Hty.
  - unfold callCore, modify. cbn [fst snd flowLog flowWaitFlag].
    split; [done|]. eexists. split; [reflexivity|].
    split; [apply notices_Page|]. split.
    { unfold timeouts.
      assert (Hnone : forall l,
        omap (fun e => match e with SetTimeout ms => Some ms | _ => None end) (map Page l) = []).
      { induction l as [|x l IH]; [done|]. exact IH. }
      by rewrite Hnone. }
    split; [rewrite page_events_Page, Hcre; tauto|].
    split; [done|]. intros _. split; [done|]. split; [apply device_requests_Page|done].
  - unfold note, bind, modify. destruct s as [flag log]. cbn.
    split; [done|]. eexists. split; [by rewrite <- app_assoc|].
    split; [done|]. split; [done|]. split.
    { split; [done|]. by intros [H _]. }
    split; [done|]. done.
Qed.

(** X22: in the Ledger flow the probe is the first request to the device
    and the derivations follow it in a fixed order.  When the probe
    resolves and the form yields a Ledger wallet, the requests made by the
    Connect handler are the probe, the Crypto.org address, then the
    Ethereum address if the run gets that far, then the Cosmos Hub address;
    and the creator is called once, with the options built from the form. *)
Theorem probe_precedes_derivations form s cw u :
  getPubKey fw (parseInt10 (page fw) (form_addressIndex form)) CRYPTO_ORG
            (form_derivationPathStandard form) false = Ok u ->
  creates (page fw) form cw ->
  walletType (wallet cw) = LEDGER_WALLET_TYPE ->
  let index := parseInt10 (page fw) (form_addressIndex form) in
  let standard := form_derivationPathStandard form in
  let w := wallet cw in
  let probe := Probe index CRYPTO_ORG standard false in
  exists new createOptions,
    flowLog (snd (checkIsLedgerCroAppConnected fw form s)) = flowLog s ++ new /\
    accepted_form (page fw) form createOptions /\
    creations (page_events new) = [createOptions] /\
    (device_requests new = [probe; Derive (croCall w)] \/
     device_requests new = [probe; Derive (croCall w); Derive (ethCall w standard)] \/
     device_requests new =
       [probe; Derive (croCall w); Derive (ethCall w standard); Derive (cosmosCall w)]).
Proof.
  intros Hprobe Hc Hty. cbv zeta.
  apply (creates_accepted (page fw)) in Hc as (opts & Hacc & Hcreate).
  rewrite checkIsLedgerCroAppConnected_unfold. rewrite Hprobe. cbn [snd flowLog].
  eexists _, opts. split; [reflexivity|]. split; [exact Hacc|].
  pose proof (creations_accepted (page fw) form (flowWaitFlag s) opts Hacc) as Hcre.
  pose proof (ledger_device_calls (page fw) form (flowWaitFlag s) opts cw Hacc Hcreate Hty)
    as Hcalls.
  cbv zeta in Hcalls.
  set (core := snd (onWalletCreateFinishCore (page fw) form (initial (flowWaitFlag s)))) in *.
  split.
  - unfold page_events. rewrite omap_app. fold (page_events (map Page (events core))).
    rewrite page_events_Page. unfold creations in *. rewrite omap_app, Hcre. done.
  - unfold device_requests. rewrite omap_app.
    fold (device_requests (map Page (events core))).
    rewrite device_requests_Page.
    destruct Hcalls as [-> | [-> | ->]]; [left|right; left|right; right]; done.
Qed.

End Facts.

Lemma probe_precedes_derivations_witness :
  let fw := FlowScenario.readyDevice in
  let form := Scenario.ledgerForm in
  let w := wallet Scenario.ledgerDraft in
  let probe := Probe (Some 0%Z) CRYPTO_ORG BIP44 false in
  exists new createOptions,
    flowLog (snd (checkIsLedgerCroAppConnected fw form start)) = flowLog start ++ new /\
    accepted_form (page fw) form createOptions /\
    creations (page_events new) = [createOptions] /\
    (device_requests new = [probe; Derive (croCall w)] \/
     device_requests new = [probe; Derive (croCall w); Derive (ethCall w BIP44)] \/
     device_requests new =
       [probe; Derive (croCall w); Derive (ethCall w BIP44); Derive (cosmosCall w)]).
Proof.
  apply (probe_precedes_derivations FlowScenario.readyDevice Scenario.ledgerForm start
           Scenario.ledgerDraft tt).
  - reflexivity.
  - exists "My Ledger", LEDGER_WALLET_TYPE, "MAINNET", Scenario.mainnet.
    by repeat split.
  - reflexivity.
Defined.

End CreateFlowFacts.
